(** * A shallow embedding of voidshard/citygraph

    Go [int] values are modelled as [Z]; the coordinates the program
    handles are map coordinates, far from the 64-bit wrap-around, which is
    therefore not written out.  An [image.Point] is a pair [(X, Y)]. *)

From Stdlib Require Import String ZArith List Bool Lia Permutation Sorted Btauto Floats.
Import ListNotations.
Open Scope Z_scope.

Definition Point : Type := (Z * Z)%type.
Definition ptX (p : Point) : Z := fst p.
Definition ptY (p : Point) : Z := snd p.

(** ** internal/line: bresenham.go and util.go *)
Module Line.

(** The horizontal, vertical and diagonal loops
    [for ; n != 0; n-- { p.Set(x, y); x += sx; y += sy }] *)
Fixpoint straight (n : nat) (x y sx sy : Z) : list Point :=
  match n with
  | O => []
  | S n' => (x, y) :: straight n' (x + sx) (y + sy) sx sy
  end.

(** The [dx > dy] loops: step x, move y by [ystep] when the error goes
    negative. *)
Fixpoint stepX (n : nat) (x y e dy slope ystep : Z) : list Point :=
  match n with
  | O => []
  | S n' =>
      let x' := x + 1 in
      let e' := e - dy in
      if e' <? 0 then (x, y) :: stepX n' x' (y + ystep) (e' + slope) dy slope ystep
      else (x, y) :: stepX n' x' y e' dy slope ystep
  end.

(** The [dy > dx] loops: move y by [ystep], step x when the error goes
    negative. *)
Fixpoint stepY (n : nat) (x y e dx slope ystep : Z) : list Point :=
  match n with
  | O => []
  | S n' =>
      let y' := y + ystep in
      let e' := e - dx in
      if e' <? 0 then (x, y) :: stepY n' (x + 1) y' (e' + slope) dx slope ystep
      else (x, y) :: stepY n' x y' e' dx slope ystep
  end.

(** [bresenham], with the plotter appending every [Set] to a list. *)
Definition bresenham (x1 y1 x2 y2 : Z) : list Point :=
  let '(x1, y1, x2, y2) :=
    if x1 >? x2 then (x2, y2, x1, y1) else (x1, y1, x2, y2) in
  let dx := x2 - x1 in
  let dy := Z.abs (y2 - y1) in
  if (x1 =? x2) && (y1 =? y2) then [(x1, y1)]
  else if y1 =? y2 then straight (Z.to_nat dx) x1 y1 1 0 ++ [(x1 + dx, y1)]
  else if x1 =? x2 then
    let '(y1, y2) := if y1 >? y2 then (y2, y1) else (y1, y2) in
    straight (Z.to_nat dy) x1 y1 0 1 ++ [(x1, y1 + dy)]
  else if dx =? dy then
    if y1 <? y2 then straight (Z.to_nat dx) x1 y1 1 1 ++ [(x1 + dx, y1 + dx)]
    else straight (Z.to_nat dx) x1 y1 1 (-1) ++ [(x1 + dx, y1 - dx)]
  else if dx >? dy then
    (if y1 <? y2 then stepX (Z.to_nat dx) x1 y1 dx (2 * dy) (2 * dx) 1
     else stepX (Z.to_nat dx) x1 y1 dx (2 * dy) (2 * dx) (-1)) ++ [(x2, y2)]
  else
    (if y1 <? y2 then stepY (Z.to_nat dy) x1 y1 dy (2 * dx) (2 * dy) 1
     else stepY (Z.to_nat dy) x1 y1 dy (2 * dx) (2 * dy) (-1)) ++ [(x2, y2)].

Definition PointsBetween (a b : Point) : list Point :=
  bresenham (ptX a) (ptY a) (ptX b) (ptY b).

End Line.

(** ** The district types (district_types.go)

    [DistrictType] is a Go [string]. The 21 named constants are the
    constructors up to [Empty]; every other string [s] is [Other s], whose
    argument records that [s] is none of the constants' values, so that
    each string has exactly one representation. Such strings reach the
    code from a user config ([DistrictSite.Type], keys of [Districts]). *)
Definition namedTypes : list string :=
  ["park"; "temple"; "civic"; "graveyard"; "residential-upperclass";
   "residential-middleclass"; "residential-lowerclass"; "residential-slum";
   "abandoned"; "fortress"; "market"; "commercial"; "square"; "industrial";
   "warehouse"; "barracks"; "prison"; "docks"; "research"; "fields"; "empty"]%string.

Inductive DistrictType : Type :=
  | Park | Temple | Civic | Graveyard | ResidentialUpper | ResidentialMiddle
  | ResidentialLower | ResidentialSlum | Abandoned | Fortress | Market
  | Commercial | Square | Industrial | Warehouse | Barracks | Prison | Docks
  | Research | Fields | Empty
  | Other (s : string) (Hs : existsb (String.eqb s) namedTypes = false).

(** Go's [==] on [DistrictType], i.e. string equality. *)
Definition DistrictType_eq_dec (a b : DistrictType) : {a = b} + {a <> b}.
Proof.
  destruct a, b; try (left; reflexivity); try (right; discriminate).
  destruct (string_dec s s0) as [E | N].
  - left. subst s0. f_equal. apply Eqdep_dec.UIP_dec. exact bool_dec.
  - right. intros H. injection H as E. exact (N E).
Defined.

Definition dt_eqb (a b : DistrictType) : bool :=
  if DistrictType_eq_dec a b then true else false.

(** [allDistricts], in the order of the source. *)
Definition allDistricts : list DistrictType :=
  [Fortress; Civic; ResidentialUpper; Temple; Square; Market; Commercial; Park;
   ResidentialMiddle; Research; Graveyard;
   ResidentialLower; Docks; ResidentialSlum; Industrial; Warehouse; Barracks; Prison;
   Fields; Abandoned; Empty].

(** [districtindex] read through [DistrictType.ID]: a string missing
    from the map ([!ok]) gives 0. *)
Definition DistrictID (d : DistrictType) : Z :=
  match d with
  | Empty => 0 | Fortress => 1 | Civic => 2 | ResidentialUpper => 3 | Temple => 4
  | Square => 5 | Market => 6 | Commercial => 7 | Park => 8 | ResidentialMiddle => 9
  | Research => 10 | Graveyard => 11 | ResidentialLower => 12 | Docks => 13
  | ResidentialSlum => 14 | Industrial => 15 | Warehouse => 16 | Barracks => 17
  | Prison => 18 | Fields => 19 | Abandoned => 20
  | Other _ _ => 0
  end.

(** [districtForID]: the inverse index, [Empty] when the id is unknown. *)
Definition districtForID (i : Z) : DistrictType :=
  match find (fun t => DistrictID t =? i) allDistricts with
  | Some t => t
  | None => Empty
  end.

(** ** internal/encoding *)
Module Encoding.
(** [Split16]: [uint8(in >> 8), uint8(in)] *)
Definition Split16 (v : Z) : Z * Z := (Z.land (Z.shiftr v 8) 255, Z.land v 255).
(** [Merge8]: [(uint16(a) << 8) + uint16(b)] as a [uint16] *)
Definition Merge8 (a b : Z) : Z := Z.land (Z.shiftl a 8 + b) 65535.
(** [Split32]: [uint16(in >> 16), uint16(in)] *)
Definition Split32 (v : Z) : Z * Z := (Z.land (Z.shiftr v 16) 65535, Z.land v 65535).
(** [Merge16]: [(uint32(a) << 16) + uint32(b)] as a [uint32] *)
Definition Merge16 (a b : Z) : Z := Z.land (Z.shiftl a 16 + b) 4294967295.
(** [FromBytes8 (ToBytes8 b)] on the one byte of an 8-bit bitmap *)
Definition FromBytes8 (b : Z) : Z := Z.land b 255.
End Encoding.

(** ** The 8-bit flag set (github.com/boljen/go-bitmap on one byte) *)
Module Bitmap.
Definition New8 : Z := 0.
Definition Get (bm : Z) (i : Z) : bool := Z.testbit bm i.
Definition SetTrue (bm : Z) (i : Z) : Z := Z.lor bm (Z.shiftl 1 i).
End Bitmap.

Definition bitRoad : Z := 0.
Definition bitBridge : Z := 1.
Definition bitWall : Z := 2.
Definition bitTower : Z := 3.
Definition bitGate : Z := 4.

(** ** Images *)
Record Rectangle : Type := Rect { rMin : Point; rMax : Point }.

Definition inRect (r : Rectangle) (x y : Z) : bool :=
  (ptX (rMin r) <=? x) && (x <? ptX (rMax r)) &&
  (ptY (rMin r) <=? y) && (y <? ptY (rMax r)).

(** One pixel of an [image.RGBA64]: four 16-bit channels. *)
Record RGBA64 : Type := mkRGBA64 { cR : Z; cG : Z; cB : Z; cA : Z }.
Definition zeroRGBA64 : RGBA64 := mkRGBA64 0 0 0 0.

(** One pixel of an [image.RGBA] (the drawing surface): four 8-bit channels. *)
Record RGBA8 : Type := mkRGBA8 { r8 : Z; g8 : Z; b8 : Z; a8 : Z }.
Definition zeroRGBA8 : RGBA8 := mkRGBA8 0 0 0 0.

(** [color.RGBA.RGBA()]: each channel widened to 16 bits, [r |= r << 8]. *)
Definition widen (c : Z) : Z := Z.lor c (Z.shiftl c 8).
Definition RGBA8_RGBA (c : RGBA8) : Z * Z * Z * Z :=
  (widen (r8 c), widen (g8 c), widen (b8 c), widen (a8 c)).

(** The [imageMap]: [im] (an [image.RGBA64]) and the image of the drawing
    context [ctx] (an [image.RGBA]), both over [bounds]. The pixel
    functions give the stored pixels; reads go through [RGBA64At] and
    [ctxAt], which, as Go's images do, answer the zero colour outside the
    rectangle. *)
Record imageMap : Type := mkImageMap {
  bounds : Rectangle;
  im : Z -> Z -> RGBA64;
  ctx : Z -> Z -> RGBA8
}.

Definition RGBA64At (c : imageMap) (x y : Z) : RGBA64 :=
  if inRect (bounds c) x y then im c x y else zeroRGBA64.

Definition ctxAt (c : imageMap) (x y : Z) : RGBA8 :=
  if inRect (bounds c) x y then ctx c x y else zeroRGBA8.

(** [SetRGBA64]: a no-op outside the rectangle. *)
Definition SetRGBA64 (c : imageMap) (x y : Z) (v : RGBA64) : imageMap :=
  if inRect (bounds c) x y then
    mkImageMap (bounds c)
      (fun x' y' => if (x' =? x) && (y' =? y) then v else im c x' y')
      (ctx c)
  else c.

(** The error values of the map's readers. *)
Inductive MapError : Type := ErrOutOfBounds (x y : Z).

(** ** The spatial map's readers and writers (imageMap) *)
Module SpatialMap.
Import Encoding.

(** [isOutOfBounds]: note the [>] against [Max], as in the source. *)
Definition isOutOfBounds (c : imageMap) (x y : Z) : bool :=
  let bnds := bounds c in
  (x <? ptX (rMin bnds)) || (x >? ptX (rMax bnds)) ||
  (y <? ptY (rMin bnds)) || (y >? ptY (rMax bnds)).

Definition getBM (c : imageMap) (x y : Z) : Z :=
  snd (Split16 (cA (RGBA64At c x y))).

Definition setBM (c : imageMap) (x y : Z) (bm : Z) : imageMap :=
  let num := FromBytes8 bm in
  let current := RGBA64At c x y in
  let dtype := fst (Split16 (cA current)) in
  SetRGBA64 c x y
    (mkRGBA64 (cR current) (cG current) (cB current) (Merge8 dtype num)).

Definition IsWall (c : imageMap) (x y : Z) : bool :=
  if isOutOfBounds c x y then false else Bitmap.Get (getBM c x y) bitWall.
Definition IsTower (c : imageMap) (x y : Z) : bool :=
  if isOutOfBounds c x y then false else Bitmap.Get (getBM c x y) bitTower.
Definition IsGatehouse (c : imageMap) (x y : Z) : bool :=
  if isOutOfBounds c x y then false else Bitmap.Get (getBM c x y) bitGate.
Definition IsRoad (c : imageMap) (x y : Z) : bool :=
  if isOutOfBounds c x y then false else Bitmap.Get (getBM c x y) bitRoad.
Definition IsBridge (c : imageMap) (x y : Z) : bool :=
  if isOutOfBounds c x y then false else Bitmap.Get (getBM c x y) bitBridge.

(** [District]: the Go triple [(DistrictType, int, error)]. *)
Definition District (c : imageMap) (x y : Z)
  : DistrictType * Z * option MapError :=
  if isOutOfBounds c x y then (Empty, -1, Some (ErrOutOfBounds x y))
  else
    let v := RGBA64At c x y in
    let typeid := fst (Split16 (cA v)) in
    (districtForID typeid, cR v, None).

(** [BuildingID]: the Go pair [(int, error)]. *)
Definition BuildingID (c : imageMap) (x y : Z) : Z * option MapError :=
  if isOutOfBounds c x y then (-1, Some (ErrOutOfBounds x y))
  else
    let v := RGBA64At c x y in
    (Merge16 (cG v) (cB v), None).

(** [isFortification]: any blue on the drawing surface. *)
Definition isFortification (c : imageMap) (x y : Z) : bool :=
  let '(_, _, b, _) := RGBA8_RGBA (ctxAt c x y) in 0 <? b.

End SpatialMap.

(** ** The terrain outline (interface.go), a capability of the caller *)
Record Outline : Type := mkOutline {
  CanBuildOn : Z -> Z -> bool;
  CanBridgeOver : Z -> Z -> bool;
  SuitableDock : Z -> Z -> bool
}.

(** ** Citygraph.lineSegments (citygraph.go) *)
Module LineSegments.
Import SpatialMap.

Definition enumNothing : Z := 0.
Definition enumRoad : Z := 1.
Definition enumBridge : Z := 2.
Definition enumWall : Z := 3.

Definition Seg : Type := (Point * Point)%type.

(** A [voronoi.Site], as far as [lineSegments] uses it: [nil] or its
    [Contains] test. *)
Definition Site : Type := option (Z -> Z -> bool).

(** [path[i]] *)
Definition nthP (path : list Point) (i : Z) : Point := nth (Z.to_nat i) path (0, 0).

(** The classification [me] of one point of the path. *)
Definition classify (cmap : imageMap) (outline : Outline) (site : Site)
    (p : Point) : Z :=
  let '(x, y) := p in
  let buildingID := fst (BuildingID cmap x y) in
  if match site with Some contains => negb (contains x y) | None => false end
  then enumNothing
  else if negb (buildingID =? 0) then enumNothing
  else if isFortification cmap x y then enumWall
  else if CanBuildOn outline x y then enumRoad
  else if CanBridgeOver outline x y then enumBridge
  else enumNothing.

(** The loop's local state. *)
Record lsState : Type := mkLS {
  prevIndex : Z; prevEnum : Z;
  roads : list Seg; bridges : list Seg; walls : list Seg
}.

Definition lsInit : lsState := mkLS (-1) (-1) [] [] [].

Definition outputs (st : lsState) : list Seg * list Seg * list Seg :=
  (roads st, bridges st, walls st).

(** One iteration of [for i := range path]. *)
Definition lsBody (cmap : imageMap) (outline : Outline) (site : Site)
    (path : list Point) (st : lsState) (i : Z) : lsState :=
  let p := nthP path i in
  let me := classify cmap outline site p in
  if prevIndex st =? -1 then mkLS i me (roads st) (bridges st) (walls st)
  else if prevEnum st =? me then st
  else
    let seg := (nthP path (prevIndex st), nthP path (i - 1)) in
    let '(r, b, w) :=
      if prevEnum st =? enumBridge then
        (if 0 <? Z.of_nat (length (roads st))
         then (roads st, bridges st ++ [seg], walls st)
         else (roads st, bridges st, walls st))
      else if prevEnum st =? enumRoad then (roads st ++ [seg], bridges st, walls st)
      else if prevEnum st =? enumWall then (roads st, bridges st, walls st ++ [seg])
      else (roads st, bridges st, walls st) in
    mkLS i me r b w.

(** The run still open after the loop. *)
Definition lsFinal (path : list Point) (st : lsState)
  : list Seg * list Seg * list Seg :=
  let n := Z.of_nat (length path) in
  if negb (prevIndex st =? n - 1) then
    let seg := (nthP path (prevIndex st), nthP path (n - 1)) in
    if prevEnum st =? enumBridge then (roads st, bridges st ++ [seg], walls st)
    else if prevEnum st =? enumRoad then (roads st ++ [seg], bridges st, walls st)
    else if prevEnum st =? enumWall then (roads st, bridges st, walls st ++ [seg])
    else outputs st
  else outputs st.

(** [lineSegments(start, end, site)]: [(roads, bridges, walls)]. *)
Definition lineSegments (cmap : imageMap) (outline : Outline) (site : Site)
    (start end_ : Point) : list Seg * list Seg * list Seg :=
  let path := Line.PointsBetween start end_ in
  lsFinal path
    (fold_left (fun st i => lsBody cmap outline site path st (Z.of_nat i))
       (seq 0 (length path)) lsInit).

(** *** The spec's reading: maximal runs, scanned left to right *)

(** A run: index of its first point, index of its last point, class. *)
Abbreviation run := (nat * nat * Z)%type.
Definition runStart (r : run) : nat := fst (fst r).
Definition runEnd (r : run) : nat := snd (fst r).
Definition runClass (r : run) : Z := snd r.

(** Extend the last run by point [i] of class [c], or open a new one. *)
Definition addPoint (rs : list run) (i : nat) (c : Z) : list run :=
  match rs with
  | [] => [(i, i, c)]
  | _ =>
      let '(s, e, c') := last rs (O, O, 0) in
      if c =? c' then removelast rs ++ [(s, i, c)] else rs ++ [(i, i, c)]
  end.

Definition runs (cls : list Z) : list run :=
  fold_left (fun rs i => addPoint rs i (nth i cls 0)) (seq 0 (length cls)) [].

Definition segOf (path : list Point) (r : run) : Seg :=
  (nth (runStart r) path (0, 0), nth (runEnd r) path (0, 0)).

(** Emit one run: roads and walls always, a bridge only once a road has
    been emitted, nothing for the class "nothing". *)
Definition emitRun (path : list Point) (acc : list Seg * list Seg * list Seg)
    (r : run) : list Seg * list Seg * list Seg :=
  let '(R, B, W) := acc in
  if runClass r =? enumRoad then (R ++ [segOf path r], B, W)
  else if runClass r =? enumWall then (R, B, W ++ [segOf path r])
  else if runClass r =? enumBridge then
    match R with [] => (R, B, W) | _ => (R, B ++ [segOf path r], W) end
  else (R, B, W).

Definition emit (path : list Point) (rs : list run) : list Seg * list Seg * list Seg :=
  fold_left (emitRun path) rs ([], [], []).

(** The last run as the code emits it after the loop. *)
Definition emitLast (path : list Point) (acc : list Seg * list Seg * list Seg)
    (r : run) : list Seg * list Seg * list Seg :=
  let '(R, B, W) := acc in
  if runClass r =? enumBridge then (R, B ++ [segOf path r], W)
  else if runClass r =? enumRoad then (R ++ [segOf path r], B, W)
  else if runClass r =? enumWall then (R, B, W ++ [segOf path r])
  else (R, B, W).

(** All runs but the last through [emit]; the last one through [emitLast]
    unless it starts at the last point of the path. *)
Definition emitAll (path : list Point) (rs : list run)
  : list Seg * list Seg * list Seg :=
  match rs with
  | [] => ([], [], [])
  | _ =>
      let r := last rs (O, O, 0) in
      let base := emit path (removelast rs) in
      if Z.of_nat (runStart r) =? Z.of_nat (length path) - 1 then base
      else emitLast path base r
  end.

(** Consecutive entries differ. *)
Fixpoint noAdjDup (l : list Z) : Prop :=
  match l with
  | x :: ((y :: _) as t) => x <> y /\ noAdjDup t
  | _ => True
  end.

(** The indices a run covers. *)
Definition runIdx (r : run) : list nat := seq (runStart r) (S (runEnd r) - runStart r).

(** A run is well formed and every point in it has the run's class. *)
Definition runOk (cls : list Z) (r : run) : Prop :=
  (runStart r <= runEnd r)%nat /\
  forall k, (runStart r <= k <= runEnd r)%nat -> nth k cls 0 = runClass r.

(** The bridge runs that come after some road run. *)
Fixpoint bridgesAfterRoad (seenRoad : bool) (rs : list run) : list run :=
  match rs with
  | [] => []
  | r :: rs' =>
      if runClass r =? enumRoad then bridgesAfterRoad true rs'
      else if (runClass r =? enumBridge) && seenRoad
      then r :: bridgesAfterRoad seenRoad rs'
      else bridgesAfterRoad seenRoad rs'
  end.

(** The point is allowed by the optional containing cell. *)
Definition inSite (site : Site) (x y : Z) : bool :=
  match site with None => true | Some contains => contains x y end.

End LineSegments.

(** ** Small concrete maps and terrains *)
Module Samples.

(** An empty 10x10 map: no building, nothing drawn. *)
Definition map0 : imageMap :=
  mkImageMap (Rect (0, 0) (10, 10)) (fun _ _ => zeroRGBA64) (fun _ _ => zeroRGBA8).

(** A terrain: unusable at [x <= 0], bridgeable at [x = 1], buildable from
    [x = 2] on. *)
Definition river1 : Outline :=
  mkOutline (fun x _ => 2 <=? x) (fun x _ => x =? 1) (fun _ _ => false).

End Samples.

(** ** Voronoi.SiteFor (internal/voronoi) *)
Module Voronoi.

(** [calculateDist] is [math.Sqrt] of the squared distance; since the
    square root is monotone and zero exactly at zero, [SiteFor]'s
    comparisons [dist == 0], [dist < 0] and [sdist < dist] are taken on
    the squared distances, with [-1] for the initial [dist := -1.0]. *)
Definition dist2 (ax ay bx by_ : Z) : Z := (ax - bx) * (ax - bx) + (ay - by_) * (ay - by_).

(** The loop of [SiteFor] over [v.sites]: [dist] and [pick] are its two
    locals; a site is its centre point. *)
Fixpoint siteForLoop (sites : list Point) (x y : Z) (dist : Z) (pick : option Point)
  : option Point :=
  match sites with
  | [] => pick
  | site :: rest =>
      let sdist := dist2 (ptX site) (ptY site) x y in
      if dist =? 0 then Some site
      else if (dist <? 0) || (sdist <? dist) then siteForLoop rest x y sdist (Some site)
      else siteForLoop rest x y dist pick
  end.

Definition SiteFor (sites : list Point) (x y : Z) : option Point :=
  siteForLoop sites x y (-1) None.

End Voronoi.

(** ** imageMap.endDraw (committing the drawing surface) *)
Module EndDraw.
Import SpatialMap Bitmap.

(** The integers [lo, lo+1, ..., hi-1] of a Go [for i := lo; i < hi; i++]. *)
Definition zrange (lo hi : Z) : list Z :=
  map (fun i => lo + Z.of_nat i) (seq 0 (Z.to_nat (hi - lo))).

(** The pixels of a rectangle in the order of [endDraw]'s loops: rows
    [dy] outside, columns [dx] inside. *)
Definition coords (r : Rectangle) : list Point :=
  flat_map (fun dy => map (fun dx => (dx, dy)) (zrange (ptX (rMin r)) (ptX (rMax r))))
    (zrange (ptY (rMin r)) (ptY (rMax r))).

(** [nearbyFortifications x y radius temp]: [temp] read through [At],
    blue compared in its 16-bit widened form. *)
Definition nearbyFortifications (x y radius : Z) (temp : Z -> Z -> RGBA8) : bool :=
  existsb (fun dy =>
    existsb (fun dx =>
      let '(_, _, b, _) := RGBA8_RGBA (temp dx dy) in 50 <=? b)
      (zrange (x - radius) (x + radius)))
    (zrange (y - radius) (y + radius)).

(** The flag byte painted from a non-black pixel with channels [r g b]. *)
Definition paintBM (r g b : Z) : Z :=
  let bm := New8 in
  let bm := if 0 <? g then SetTrue bm bitBridge else bm in
  let bm := if 150 <=? b then SetTrue bm bitGate
            else if 100 <=? b then SetTrue bm bitTower
            else if 50 <=? b then SetTrue bm bitWall
            else bm in
  if 0 <? r then SetTrue bm bitRoad else bm.

(** The body of [endDraw]'s inner loop at [(dx, dy)]: the byte passed to
    [setBM], or [None] where the loop [continue]s. *)
Definition pixelBM (temp : Z -> Z -> RGBA8) (wallBorderRoadWidth : Z) (outline : Outline)
    (dx dy : Z) : option Z :=
  let '(r, g, b, _) := RGBA8_RGBA (temp dx dy) in
  let r := Z.shiftr r 8 in
  let g := Z.shiftr g 8 in
  let b := Z.shiftr b 8 in
  if (r =? 0) && (g =? 0) && (b =? 0) then
    let road := CanBuildOn outline dx dy in
    let water := CanBridgeOver outline dx dy in
    if (road || water) && nearbyFortifications dx dy wallBorderRoadWidth temp then
      let bit := if water then bitBridge else bitRoad in
      Some (SetTrue New8 bit)
    else None
  else Some (paintBM r g b).

Definition endDrawStep (temp : Z -> Z -> RGBA8) (wallBorderRoadWidth : Z) (outline : Outline)
    (c : imageMap) (p : Point) : imageMap :=
  match pixelBM temp wallBorderRoadWidth outline (fst p) (snd p) with
  | Some bm => setBM c (fst p) (snd p) bm
  | None => c
  end.

(** [endDraw]: [temp] is the drawing surface, unchanged by the loop. *)
Definition endDraw (c : imageMap) (wallBorderRoadWidth : Z) (outline : Outline) : imageMap :=
  let temp := ctxAt c in
  fold_left (endDrawStep temp wallBorderRoadWidth outline) (coords (bounds c)) c.

(** At most one of wall, tower and gatehouse at [(x, y)]. *)
Definition atMostOneFort (c : imageMap) (x y : Z) : bool :=
  (length (filter (fun b : bool => b) [IsWall c x y; IsTower c x y; IsGatehouse c x y]) <=? 1)%nat.

End EndDraw.

(** ** cell.Circut / deletionMethod (the boundary of the inside sites) *)
Module Cell.

Definition Edge : Type := (Point * Point)%type.

Definition ptEqb (a b : Point) : bool := (fst a =? fst b) && (snd a =? snd b).
Definition edgeEqb (a b : Edge) : bool := ptEqb (fst a) (fst b) && ptEqb (snd a) (snd b).

Definition onBorder (bnds : Rectangle) (p : Point) : bool :=
  (ptX p <=? ptX (rMin bnds) + 1) || (ptX p >=? ptX (rMax bnds) - 1) ||
  (ptY p <=? ptY (rMin bnds) + 1) || (ptY p >=? ptY (rMax bnds) - 1).

(** [toEdgeID]: the [Sprintf "%d,%d-%d,%d"] of the ordered pair is
    injective, so the id is the ordered pair itself. *)
Definition toEdgeID (a b : Point) : Edge :=
  if ptX b <? ptX a then (b, a)
  else if (ptX a =? ptX b) && (ptY b <? ptY a) then (b, a)
  else (a, b).

(** The two maps of the outside sites, as functions updated key by key;
    a site is given by the list of its edges ([s.Edges()]). *)
Definition edgeOwnedOutside (outside : list (list Edge)) : Edge -> bool :=
  fold_left (fun m site =>
    fold_left (fun m edge =>
      let id := toEdgeID (fst edge) (snd edge) in
      fun k => if edgeEqb k id then true else m k) site m)
    outside (fun _ => false).

Definition vertOwnedOutside (outside : list (list Edge)) : Point -> bool :=
  fold_left (fun m site =>
    fold_left (fun m edge =>
      let m := fun k => if ptEqb k (fst edge) then true else m k in
      fun k => if ptEqb k (snd edge) then true else m k) site m)
    outside (fun _ => false).

(** [neighbours]: the map of maps, as [v -> n -> option bool]
    ([None] where [n] is not a key of [neighbours[v]]). *)
Definition Neighbours : Type := Point -> Point -> option bool.

Definition setLink (nb : Neighbours) (v n : Point) (b : bool) : Neighbours :=
  fun x y => if ptEqb x v && ptEqb y n then Some b else nb x y.

Definition buildNeighbours (inside : list (list Edge)) : Neighbours :=
  fold_left (fun nb site =>
    fold_left (fun nb edge =>
      let nb := setLink nb (fst edge) (snd edge) true in
      setLink nb (snd edge) (fst edge) true) site nb)
    inside (fun _ _ => None).

(** One iteration [(v, n)] of the deletion loop. *)
Definition deleteStep (bnds : Rectangle) (vertOut : Point -> bool) (edgeOut : Edge -> bool)
    (nb : Neighbours) (vn : Edge) : Neighbours :=
  let '(v, n) := vn in
  match nb v n with
  | Some true =>
      let vOutside := vertOut v in
      let eOutside := edgeOut (toEdgeID v n) in
      let nOutside := vertOut n in
      if vOutside && nOutside && eOutside then nb
      else if onBorder bnds n && onBorder bnds v then nb
      else setLink (setLink nb n v false) v n false
  | _ => nb
  end.

(** One iteration [(vertex, end)] of the collecting loop. *)
Definition collectStep (nb : Neighbours) (wall : list Edge) (ve : Edge) : list Edge :=
  if match nb (fst ve) (snd ve) with Some true => true | _ => false end
  then wall ++ [ve] else wall.

(** [deletionMethod]: Go visits the keys of [neighbours] and of each inner
    map in an unspecified order, and the two loops need not agree; [order]
    and [order2] are the sequences of pairs [(v, n)] the two loops visit.
    The loops add no key, so each visits the keys present when it starts. *)
Definition deletionMethod (bnds : Rectangle) (inside outside : list (list Edge))
    (order order2 : list Edge) : list Edge :=
  let edgeOut := edgeOwnedOutside outside in
  let vertOut := vertOwnedOutside outside in
  let nb := buildNeighbours inside in
  let nb := fold_left (deleteStep bnds vertOut edgeOut) order nb in
  fold_left (collectStep nb) order2 [].

Definition Circut := deletionMethod.

(** The keys [(v, n)] of [neighbours] after its construction, and the
    check that a loop visits all of them. *)
Definition linkKeys (inside : list (list Edge)) : list Edge :=
  flat_map (fun site => flat_map (fun e => [(fst e, snd e); (snd e, fst e)]) site) inside.

Definition coversKeys (inside : list (list Edge)) (order : list Edge) : bool :=
  forallb (fun k => existsb (edgeEqb k) order) (linkKeys inside).

(** The keys of [neighbours]: the links of the edges of the inside sites,
    in both directions. *)
Definition insideLink (inside : list (list Edge)) (v n : Point) : bool :=
  existsb (fun site => existsb (fun e => edgeEqb e (v, n) || edgeEqb e (n, v)) site) inside.

(** The spec's survival rule for a link: (a) both ends and the edge
    belong to outside sites, or (b) both ends lie within one unit of the
    map boundary. *)
Definition keepLink (bnds : Rectangle) (outside : list (list Edge)) (v n : Point) : bool :=
  let isVert p := existsb (fun site => existsb (fun e => ptEqb (fst e) p || ptEqb (snd e) p) site) outside in
  let isEdge id := existsb (fun site => existsb (fun e => edgeEqb (toEdgeID (fst e) (snd e)) id) site) outside in
  (isVert v && isVert n && isEdge (toEdgeID v n)) || (onBorder bnds v && onBorder bnds n).

End Cell.

(** ** Citygraph.addWalls: choosing the districts inside the city wall *)
Module Walls.

(** The fields of a [District] that [addWalls] reads or writes. *)
Record District : Type := mkDistrict {
  dID : Z;
  dType : DistrictType;
  dSite : Point;
  HasFortifications : bool;
  HasCurtainFortifications : bool
}.

Definition emptyDistrict : District := mkDistrict 0 Empty (0, 0) false false.

(** [c.Districts] holds pointers: a [*District] is an index into the
    store [ds]; writes through a pointer update the store. *)
Definition distAt (ds : list District) (i : nat) : District := nth i ds emptyDistrict.

Fixpoint setNth {A} (l : list A) (i : nat) (f : A -> A) : list A :=
  match l, i with
  | [], _ => []
  | x :: l, O => f x :: l
  | x :: l, S i => x :: setNth l i f
  end.

Definition setFortified (d : District) : District :=
  mkDistrict (dID d) (dType d) (dSite d) true (HasCurtainFortifications d).

(** The three lists [curtainWall], [insideDists], [outsideDists] built by
    the loop over [c.Districts]. *)
Definition partitionDists (ds : list District) : list nat * list nat * list nat :=
  fold_left (fun acc i =>
    let '(curtain, inside, outside) := acc in
    let d := distAt ds i in
    if HasCurtainFortifications d then (curtain ++ [i], inside, outside)
    else if HasFortifications d then (curtain, inside ++ [i], outside)
    else (curtain, inside, outside ++ [i]))
    (seq 0 (length ds)) ([], [], []).

(** The key of [sortDistrictsByDistance]: [calculateDist] to [p], compared
    through its square, as the square root is monotone. *)
Definition distKey (ds : list District) (p : Point) (i : nat) : Z :=
  Voronoi.dist2 (ptX (dSite (distAt ds i))) (ptY (dSite (distAt ds i))) (ptX p) (ptY p).

(** The promotion of [addWalls] for [MinFortifiedSites = minFortified].
    [sortByDistance] is the permutation [sort.Slice] chose for the
    outside districts (the sort is not stable: ties may come in any
    order). The result: the store, [insideDists], [outsideDists],
    [curtainWall]. *)
Definition chooseInside (ds : list District) (centre : Point) (minFortified : Z)
    (sortByDistance : list nat -> list nat)
  : list District * list nat * list nat * list nat :=
  let '(curtain, inside, outside) := partitionDists ds in
  let needed := minFortified - Z.of_nat (length inside) in
  if 0 <? needed then
    if Z.of_nat (length outside) <=? needed then (ds, inside ++ outside, outside, curtain)
    else
      let outside := sortByDistance outside in
      let promoted := firstn (Z.to_nat needed) outside in
      let ds := fold_left (fun ds i => setNth ds i setFortified) promoted ds in
      (ds, inside ++ promoted, skipn (Z.to_nat needed) outside, curtain)
  else (ds, inside, outside, curtain).

(** What [sort.Slice] guarantees of its result, as checks: a permutation
    of its input, in non-decreasing order of the key. *)
Definition isPermb (l l' : list nat) : bool :=
  forallb (fun i => Nat.eqb (count_occ Nat.eq_dec l i) (count_occ Nat.eq_dec l' i)) (l ++ l').

Fixpoint sortedb (key : nat -> Z) (l : list nat) : bool :=
  match l with
  | i :: ((j :: _) as rest) => (key i <=? key j) && sortedb key rest
  | _ => true
  end.

(** An insertion sort on the key, one of the orders [sort.Slice] may give. *)
Fixpoint insertBy (key : nat -> Z) (i : nat) (l : list nat) : list nat :=
  match l with
  | [] => [i]
  | j :: l' => if key i <=? key j then i :: l else j :: insertBy key i l'
  end.

Definition insertionSort (key : nat -> Z) (l : list nat) : list nat :=
  fold_right (insertBy key) [] l.

End Walls.

(** ** wallDistricts: tryPlaceTower and fillWithTowers *)
Module Towers.
Import SpatialMap.

(** [image.Rect]: the corners put in order. *)
Definition mkRect (x0 y0 x1 y1 : Z) : Rectangle :=
  Rect (Z.min x0 x1, Z.min y0 y1) (Z.max x0 x1, Z.max y0 y1).

(** [towerFits px py]: the tower's rectangle around [(px, py)], and whether
    every pixel of it is free of towers and gatehouses in [im] and
    buildable or bridgeable. Drawing a tower only paints the drawing
    surface and the mask, so [cmap]'s [im] is the same for every call in
    [wallDistricts]. *)
Definition towerFits (cmap : imageMap) (outline : Outline) (twr : Rectangle) (px py : Z)
  : Rectangle * bool :=
  let tw := ptX (rMax twr) - ptX (rMin twr) in
  let th := ptY (rMax twr) - ptY (rMin twr) in
  let area := mkRect (px - Z.quot tw 2) (py - Z.quot th 2) (px + Z.quot tw 2) (py + Z.quot th 2) in
  let ok :=
    forallb (fun x =>
      forallb (fun y =>
        negb (IsTower cmap x y || IsGatehouse cmap x y) &&
        (CanBuildOn outline x y || CanBridgeOver outline x y))
        (EndDraw.zrange (ptY (rMin area)) (ptY (rMax area))))
      (EndDraw.zrange (ptX (rMin area)) (ptX (rMax area))) in
  (area, ok).

(** The centre [((Max.X+Min.X)/2, (Max.Y+Min.Y)/2)] of a tower, with Go's
    truncating division. *)
Definition centre (t : Rectangle) : Point :=
  (Z.quot (ptX (rMax t) + ptX (rMin t)) 2, Z.quot (ptY (rMax t) + ptY (rMin t)) 2).

(** [int(calculateDist(...))]: the integer part of the distance, that is
    the integer square root of the squared distance. *)
Definition intDist (a b : Point) : Z :=
  Z.sqrt (Voronoi.dist2 (ptX a) (ptY a) (ptX b) (ptY b)).

(** The closure [tryPlaceTower p mdbt] on the tower list [towers] of
    [wallDistricts] ([allTowers] is the list it was called with). *)
Definition tryPlaceTower (cmap : imageMap) (outline : Outline) (twr : Rectangle)
    (allTowers towers : list Rectangle) (p : Point) (mdbt : Z) : list Rectangle :=
  let '(tower, ok) := towerFits cmap outline twr (ptX p) (ptY p) in
  if negb ok then towers
  else if (0 <? mdbt) && existsb (fun t => intDist (centre t) p <? mdbt) (allTowers ++ towers)
  then towers
  else towers ++ [tower].

(** [for i := mdbt; i < len(pnts); i += mdbt]; [fuel] bounds the number
    of rounds, [len(pnts)] being enough when [mdbt > 0] (for [mdbt <= 0]
    the Go loop does not terminate or indexes out of range). *)
Fixpoint fillLoop (cmap : imageMap) (outline : Outline) (twr : Rectangle)
    (allTowers : list Rectangle) (pnts : list Point) (mdbt : Z) (fuel : nat) (i : Z)
    (towers : list Rectangle) : list Rectangle :=
  match fuel with
  | O => towers
  | S fuel =>
      if i <? Z.of_nat (length pnts) then
        let towers := tryPlaceTower cmap outline twr allTowers towers
                        (nth (Z.to_nat i) pnts (0, 0)) mdbt in
        fillLoop cmap outline twr allTowers pnts mdbt fuel (i + mdbt) towers
      else towers
  end.

(** The closure [fillWithTowers a b] with [MinDistBetweenTowers = mdbt]. *)
Definition fillWithTowers (cmap : imageMap) (outline : Outline) (twr : Rectangle)
    (mdbt : Z) (allTowers towers : list Rectangle) (a b : Point) : list Rectangle :=
  let towers := tryPlaceTower cmap outline twr allTowers towers a (Z.quot mdbt 2) in
  let towers := tryPlaceTower cmap outline twr allTowers towers b (Z.quot mdbt 2) in
  let pnts := Line.PointsBetween a b in
  fillLoop cmap outline twr allTowers pnts mdbt (length pnts) mdbt towers.

(** Each tower of [new], in order, has its centre at integer distance at
    least [s] from the centres of all towers before it. *)
Fixpoint spaced (s : Z) (prev new : list Rectangle) : Prop :=
  match new with
  | [] => True
  | t :: rest =>
      (forall u, In u prev -> s <= intDist (centre u) (centre t)) /\ spaced s (prev ++ [t]) rest
  end.

End Towers.

(** ** District type assignment (citygraph.go: randomDistricts,
    verifyDistrictLocations; the CityStats methods)

    The model follows the types only: a district is identified by its index
    in [toSet], its type is the entry at that index of a list of types, and
    the dock suitability of its cell ([DockSuitable >= MinDockSize]) is the
    entry at that index of [dockOK], a list the Voronoi step decides.
    [chooseDistrictType] reads [c.rng]; its successive results are given as
    the list [rng], and running out of draws stands for a [for] loop that
    never finds an admissible type. [AddRandomSite]'s successive outcomes are
    the booleans of [attempts]. *)
Module Assign.
Import Walls.

(** The fields of the per-type config that the assignment reads
    ([Probability] only feeds [chooseDistrictType]). *)
Record DistrictConfig := mkDistrictConfig { MinInCity : Z; MaxInCity : Z }.

(** [c.bcfg.Districts]: a type is configured or not. *)
Definition Config := DistrictType -> option DistrictConfig.

(** [CityStats.DistrictsByType]; a missing key reads 0. *)
Definition CityStats := DistrictType -> Z.

Definition statsEmpty : CityStats := fun _ => 0.

Definition increment (s : CityStats) (t : DistrictType) : CityStats :=
  fun u => if dt_eqb u t then s u + 1 else s u.

Definition decrement (s : CityStats) (t : DistrictType) : CityStats :=
  fun u => if dt_eqb u t then s u - 1 else s u.

(** Outcome of a step: a value, a returned error, a loop that does not
    terminate on the draws given, or a run-time panic. *)
Inductive Result (A : Type) : Type :=
  | Ok (a : A)
  | Err
  | NoTerm
  | Panic.
Arguments Ok {A} a.
Arguments Err {A}.
Arguments NoTerm {A}.
Arguments Panic {A}.

(** The [MinInCity] loop: for each configured type, in [allDistricts] order,
    append [MinInCity - count] copies (the inner [for i := count; i < Min]
    loop) and count them in [tempStats]. *)
Definition minStep (cfg : Config) (stats : CityStats)
    (acc : list DistrictType * CityStats) (typ : DistrictType)
    : list DistrictType * CityStats :=
  let '(dtypes, tempStats) := acc in
  match cfg typ with
  | None => (dtypes, tempStats)
  | Some dc =>
      let k := Z.to_nat (MinInCity dc - stats typ) in
      (dtypes ++ repeat typ k,
       fun u => if dt_eqb u typ then tempStats u + Z.of_nat k else tempStats u)
  end.

Definition minTypes (cfg : Config) (stats : CityStats)
    : list DistrictType * CityStats :=
  fold_left (minStep cfg stats) allDistricts ([], fun _ => 0).

(** The site loop: [DesiredDistricts*5] attempts, stopping once
    [len(toSet)+len(c.Districts) >= DesiredDistricts]; the result is
    [len(toSet)]. [newDistrict] appends every new district to [c.Districts],
    so after [n] sites [len(c.Districts)] is [nDistricts + n]. After the
    [break] the remaining iterations leave the count unchanged. *)
Definition countSites (desired : Z) (nDistricts : nat) (attempts : list bool) : nat :=
  fold_left (fun n i =>
    if desired <=? Z.of_nat n + Z.of_nat (nDistricts + n) then n
    else if nth i attempts false then S n else n)
    (seq 0 (Z.to_nat (desired * 5))) O.

(** The inner [for] of the random fill: draw until a configured type is
    below its [MaxInCity] counting [tempStats]. *)
Fixpoint pickType (cfg : Config) (stats tempStats : CityStats)
    (rng : list DistrictType) : option (DistrictType * list DistrictType) :=
  match rng with
  | [] => None
  | t :: rng =>
      match cfg t with
      | None => pickType cfg stats tempStats rng
      | Some dc =>
          if (0 <? MaxInCity dc) && (MaxInCity dc <=? stats t + tempStats t)
          then pickType cfg stats tempStats rng
          else Some (t, rng)
      end
  end.

(** The outer loop [for i := len(dtypes); i < len(toSet); i++]. *)
Fixpoint fillTypes (n : nat) (cfg : Config) (stats : CityStats)
    (dtypes : list DistrictType) (tempStats : CityStats) (rng : list DistrictType)
    : option (list DistrictType * CityStats * list DistrictType) :=
  match n with
  | O => Some (dtypes, tempStats, rng)
  | S n =>
      match pickType cfg stats tempStats rng with
      | None => None
      | Some (t, rng) =>
          fillTypes n cfg stats (dtypes ++ [t]) (increment tempStats t) rng
      end
  end.

(** [randomDistricts]: the types given to the new districts [toSet] (in the
    order of the sorted [toSet]), the updated [c.Stats] and the remaining
    draws. [sortTypes] is [sortTypesByDesirability], a [sort.Slice] call:
    any reordering its comparator allows. *)
Definition randomDistricts (cfg : Config) (stats : CityStats) (nDistricts : nat)
    (desired : Z) (attempts : list bool) (rng : list DistrictType)
    (sortTypes : list DistrictType -> list DistrictType)
    : Result (list DistrictType * CityStats * list DistrictType) :=
  if desired <=? Z.of_nat nDistricts then Ok ([], stats, rng)
  else
    let '(dtypes, tempStats) := minTypes cfg stats in
    let n := countSites desired nDistricts attempts in
    if (n <? length dtypes)%nat then Err
    else
      match fillTypes (n - length dtypes) cfg stats dtypes tempStats rng with
      | None => NoTerm
      | Some (dtypes, _, rng) =>
          let types := sortTypes dtypes in
          Ok (types, fold_left increment types stats, rng)
      end.

(** Step 0 of [verifyDistrictLocations]: the docks to move and the
    districts that could become docks, by index in [toSet]. *)
Definition dockStep (types : list DistrictType) (dockOK : list bool)
    (acc : list nat * list nat) (i : nat) : list nat * list nat :=
  let '(docks, potentialdock) := acc in
  let ty := nth i types Empty in
  let ok := nth i dockOK false in
  if dt_eqb ty Docks && negb ok then (docks ++ [i], potentialdock)
  else if negb (dt_eqb ty Docks) && ok then (docks, potentialdock ++ [i])
  else (docks, potentialdock).

Definition collectDocks (types : list DistrictType) (dockOK : list bool)
    : list nat * list nat :=
  fold_left (dockStep types dockOK) (seq 0 (length types)) ([], []).

(** The draw loop of idea #2: a configured non-dock type under its
    [MaxInCity]. *)
Fixpoint pickNonDock (cfg : Config) (stats : CityStats) (rng : list DistrictType)
    : option (DistrictType * list DistrictType) :=
  match rng with
  | [] => None
  | t :: rng =>
      if dt_eqb t Docks then pickNonDock cfg stats rng
      else match cfg t with
           | None => pickNonDock cfg stats rng
           | Some dc =>
               if (0 <? MaxInCity dc) && (MaxInCity dc <=? stats t)
               then pickNonDock cfg stats rng
               else Some (t, rng)
           end
  end.

(** Step 1 of [verifyDistrictLocations]; every iteration pops a dock, so
    [length docks] iterations suffice. *)
Fixpoint fixDocks (fuel : nat) (cfg : Config) (docks potentialdock : list nat)
    (types : list DistrictType) (stats : CityStats) (rng : list DistrictType)
    : Result (list DistrictType * CityStats) :=
  match fuel with
  | O => Ok (types, stats)
  | S fuel =>
      match docks with
      | [] => Ok (types, stats)
      | _ =>
          let d := last docks O in
          let docks := removelast docks in
          match potentialdock with
          | _ :: _ =>
              let lst := last potentialdock O in
              let lt := nth lst types Empty in
              let types := setNth types lst (fun _ => Docks) in
              let types := setNth types d (fun _ => lt) in
              fixDocks fuel cfg docks (removelast potentialdock) types stats rng
          | [] =>
              let minInCity := match cfg Docks with
                               | Some dcfg => MinInCity dcfg
                               | None => 0
                               end in
              if minInCity <? stats Docks then
                match pickNonDock cfg stats rng with
                | None => NoTerm
                | Some (t, rng) =>
                    fixDocks fuel cfg docks potentialdock (setNth types d (fun _ => t))
                      (decrement (increment stats t) Docks) rng
                end
              else Err
          end
      end
  end.

Definition verifyDistrictLocations (cfg : Config) (types : list DistrictType)
    (stats : CityStats) (dockOK : list bool) (rng : list DistrictType)
    : Result (list DistrictType * CityStats) :=
  let '(docks, potentialdock) := collectDocks types dockOK in
  match docks with
  | [] => Ok (types, stats)
  | _ => fixDocks (length docks) cfg docks potentialdock types stats rng
  end.

(** [build] with no caller-supplied sites: [c.Districts] is empty and
    [c.Stats] is zero when [randomDistricts] runs; then [c.gb.Voronoi()]
    panics if no site was added (the sites are the districts [toSet], one
    per type), and otherwise [verifyDistrictLocations] runs on the
    districts [randomDistricts] added. *)
Definition assignDistricts (cfg : Config) (desired : Z) (attempts : list bool)
    (rng : list DistrictType) (sortTypes : list DistrictType -> list DistrictType)
    (dockOK : list bool) : Result (list DistrictType * CityStats) :=
  match randomDistricts cfg statsEmpty O desired attempts rng sortTypes with
  | Ok (types, stats, rng) =>
      match types with
      | [] => Panic
      | _ => verifyDistrictLocations cfg types stats dockOK rng
      end
  | Err => Err
  | NoTerm => NoTerm
  | Panic => Panic
  end.

(** The number of districts of type [t]. *)
Definition countType (types : list DistrictType) (t : DistrictType) : Z :=
  Z.of_nat (count_occ DistrictType_eq_dec types t).

(** Configuration check: every configured type with a positive [MaxInCity]
    has [MinInCity <= MaxInCity]. *)
Definition minWithinMax (cfg : Config) : bool :=
  forallb (fun t => match cfg t with
                    | Some dc => (MaxInCity dc <=? 0) || (MinInCity dc <=? MaxInCity dc)
                    | None => true
                    end) allDistricts.

End Assign.

(** ** internal/encoding on byte slices (FromBytes16, ToBytes16,
    FromBytes8, ToBytes8). A [[]byte] is a list of bytes, each a [Z] in
    [0, 256); [None] is the run-time panic of [binary.BigEndian.Uint16] on a
    slice shorter than two bytes. *)
Module Bytes.

(** [binary.BigEndian.Uint16]: [uint16(b[1]) | uint16(b[0])<<8], after the
    bounds check [_ = b[1]]. *)
Definition Uint16 (data : list Z) : option Z :=
  match data with
  | b0 :: b1 :: _ => Some (Z.lor b1 (Z.shiftl b0 8))
  | _ => None
  end.

(** [binary.BigEndian.PutUint16] into a fresh two-byte buffer. *)
Definition ToBytes16 (v : Z) : list Z := [Z.land (Z.shiftr v 8) 255; Z.land v 255].

Definition FromBytes16 (data : list Z) : option Z := Uint16 data.

(** [FromBytes8]: a one-byte slice is padded to [{0x00, data[0]}], then
    read as a [uint16] and truncated to [uint8]. *)
Definition FromBytes8 (data : list Z) : option Z :=
  let data := match data with [d] => [0; d] | _ => data end in
  match Uint16 data with
  | Some i16 => Some (Z.land i16 255)
  | None => None
  end.

Definition ToBytes8 (v : Z) : list Z := [v].

End Bytes.

(** ** The map's writers (setBuildingID, setDistrict, setRoad, setBridge,
    setBuilding) *)
Module MapWriters.
Import Encoding SpatialMap.

(** [setBuildingID]: the id as a [uint32], split over G and B. *)
Definition setBuildingID (c : imageMap) (x y id : Z) : imageMap :=
  let v := RGBA64At c x y in
  let '(g, b) := Split32 (Z.land id 4294967295) in
  SetRGBA64 c x y (mkRGBA64 (cR v) g b (cA v)).

(** [setDistrict]: the id as a [uint16] in R, the type's index as a
    [uint8] in the high byte of A; it always returns [nil]. *)
Definition setDistrict (c : imageMap) (x y : Z) (typ : DistrictType) (id : Z)
    : imageMap * option MapError :=
  let denum := DistrictID typ in
  let v := RGBA64At c x y in
  let '(_, bmbits) := Split16 (cA v) in
  (SetRGBA64 c x y
     (mkRGBA64 (Z.land id 65535) (cG v) (cB v) (Merge8 (Z.land denum 255) bmbits)),
   None).

Definition setRoad (c : imageMap) (x y : Z) : imageMap :=
  let bm := getBM c x y in
  setBM c x y (Bitmap.SetTrue bm bitRoad).

Definition setBridge (c : imageMap) (x y : Z) : imageMap :=
  let bm := getBM c x y in
  setBM c x y (Bitmap.SetTrue bm bitBridge).

(** [BuildingConfig] (config.go). *)
Record BuildingConfig : Type := mkBuildingConfig {
  bID : Z;
  bArea : Rectangle;
  bMaxInCity : Z;
  bMaxInDistrict : Z;
  bMinInDistrict : Z;
  bProbability : float
}.

(** [setBuilding]: a [nil] building writes nothing; otherwise every
    offset [(dx, dy)] of [b.Area] gets [b.ID] at [(x+dx, y+dy)], columns
    outside, rows inside. *)
Definition setBuilding (c : imageMap) (x y : Z) (b : option BuildingConfig) : imageMap :=
  match b with
  | None => c
  | Some b =>
      fold_left (fun c dx =>
        fold_left (fun c dy => setBuildingID c (x + dx) (y + dy) (bID b))
          (EndDraw.zrange (ptY (rMin (bArea b))) (ptY (rMax (bArea b)))) c)
        (EndDraw.zrange (ptX (rMin (bArea b))) (ptX (rMax (bArea b)))) c
  end.

End MapWriters.

(** ** Rendering the map with a colour scheme (CustomImage) *)
Module Render.
Import SpatialMap.

Section WithColour.
(** [color.Color] values, and [color.RGBAModel.Convert], which
    [image.RGBA.Set] applies to the colour it stores. *)
Variable Color : Type.
Variable toRGBA : Color -> RGBA8.

Record ColourScheme : Type := mkColourScheme {
  Roads : Color;
  Walls : Color;
  Towers : Color;
  Gates : Color;
  Bridges : Color;
  Buildings : Color;
  Districts : DistrictType -> option Color
}.

(** An [image.RGBA]: [image.NewRGBA] starts all zero, [Set] is a no-op
    outside the rectangle and [RGBAAt] answers zero there. *)
Record RGBAImage : Type := mkRGBAImage {
  rbounds : Rectangle;
  rpix : Z -> Z -> RGBA8
}.

Definition NewRGBA (r : Rectangle) : RGBAImage := mkRGBAImage r (fun _ _ => zeroRGBA8).

Definition SetRGBA (m : RGBAImage) (x y : Z) (col : Color) : RGBAImage :=
  if inRect (rbounds m) x y then
    mkRGBAImage (rbounds m)
      (fun x' y' => if (x' =? x) && (y' =? y) then toRGBA col else rpix m x' y')
  else m.

Definition RGBAAt (m : RGBAImage) (x y : Z) : RGBA8 :=
  if inRect (rbounds m) x y then rpix m x y else zeroRGBA8.

(** The body of [CustomImage]'s loops at [(dx, dy)]; [inl] is the error
    it returns with. *)
Definition customPixel (c : imageMap) (scheme : ColourScheme) (m : RGBAImage) (dx dy : Z)
    : MapError + RGBAImage :=
  let bm := getBM c dx dy in
  if Bitmap.Get bm bitGate then inr (SetRGBA m dx dy (Gates scheme))
  else if Bitmap.Get bm bitTower then inr (SetRGBA m dx dy (Towers scheme))
  else if Bitmap.Get bm bitWall then inr (SetRGBA m dx dy (Walls scheme))
  else if Bitmap.Get bm bitBridge then inr (SetRGBA m dx dy (Bridges scheme))
  else if Bitmap.Get bm bitRoad then inr (SetRGBA m dx dy (Roads scheme))
  else
    match BuildingID c dx dy with
    | (_, Some e) => inl e
    | (buildingID, None) =>
        if negb (buildingID =? 0) then inr (SetRGBA m dx dy (Buildings scheme))
        else
          match District c dx dy with
          | (_, _, Some e) => inl e
          | (dtype, _, None) =>
              match Districts scheme dtype with
              | Some col => inr (SetRGBA m dx dy col)
              | None => inr m
              end
          end
    end.

(** [CustomImage]: rows [dy] outside, columns [dx] inside; the first
    error ends the loops. *)
Definition CustomImage (c : imageMap) (scheme : ColourScheme) : MapError + RGBAImage :=
  let bnds := bounds c in
  fold_left (fun acc dy =>
    fold_left (fun acc dx =>
      match acc with
      | inl e => inl e
      | inr m => customPixel c scheme m dx dy
      end) (EndDraw.zrange (ptX (rMin bnds)) (ptX (rMax bnds))) acc)
    (EndDraw.zrange (ptY (rMin bnds)) (ptY (rMax bnds))) (inr (NewRGBA bnds)).

End WithColour.
End Render.

(** ** Choosing buildings for a district (utils.go: districtBuilder) *)
Module DistrictBuilder.
Import SpatialMap MapWriters.

(** The builder's state. The [CityMap] it reads is the city's shared map,
    which [setBuilding] writes between two choices: the functions below
    take its current state as the argument [cm]. The site is read through
    [Contains] only; the RNG's draw [rng.Float64()] is the argument [rv]. *)
Record districtBuilder : Type := mkDistrictBuilder {
  outline : Outline;
  siteContains : Z -> Z -> bool;
  cfgBuildings : list BuildingConfig;
  total : float;
  must : list BuildingConfig;
  count : Z -> Z
}.

(** [count[id] = v]; a missing key reads 0. *)
Definition setCount (m : Z -> Z) (id v : Z) : Z -> Z :=
  fun k => if k =? id then v else m k.

(** [newDistrictBuilder]: [total] sums the probabilities in order, every
    id's count is 0, and [must] holds [MinInDistrict] copies of each
    building, in the configuration's order. *)
Definition newDistrictBuilder (o : Outline) (site : Z -> Z -> bool)
    (buildings : list BuildingConfig) : districtBuilder :=
  let '(total, count, must) :=
    fold_left (fun '(total, count, must) bc =>
      ((total + bProbability bc)%float, setCount count (bID bc) 0,
       must ++ repeat bc (Z.to_nat (bMinInDistrict bc))))
      buildings (0%float, (fun _ => 0), []) in
  mkDistrictBuilder o site buildings total must count.

(** [buildingFits]: every pixel of the area, padded by one row above and
    below, is free of roads, bridges and fortifications, has building id
    0, and is buildable and inside the site. *)
Definition buildingFits (d : districtBuilder) (cm : imageMap) (ox oy : Z)
    (b : BuildingConfig) : bool :=
  forallb (fun x =>
    forallb (fun y =>
      let px := x + ox in
      let py := y + oy in
      if IsRoad cm px py || IsBridge cm px py || IsWall cm px py ||
         IsTower cm px py || IsGatehouse cm px py then false
      else if negb (fst (BuildingID cm px py) =? 0) then false
      else CanBuildOn (outline d) px py && siteContains d px py)
    (EndDraw.zrange (ptY (rMin (bArea b)) - 1) (ptY (rMax (bArea b)) + 1)))
    (EndDraw.zrange (ptX (rMin (bArea b))) (ptX (rMax (bArea b)))).

(** The index and value of the first element of [l] satisfying [f]. *)
Fixpoint firstFit (f : BuildingConfig -> bool) (l : list BuildingConfig)
    : option (nat * BuildingConfig) :=
  match l with
  | [] => None
  | b :: l =>
      if f b then Some (O, b)
      else match firstFit f l with Some (i, b') => Some (S i, b') | None => None end
  end.

(** [append(d.must[:i], d.must[i+1:]...)] *)
Definition removeAt {A} (i : nat) (l : list A) : list A := firstn i l ++ skipn (S i) l.

(** The random pass of [chooseBuilding] over [d.cfg.Buildings]. *)
Fixpoint pickRandom (fits : BuildingConfig -> bool) (count : Z -> Z)
    (total rv sofar : float) (l : list BuildingConfig) : option BuildingConfig :=
  match l with
  | [] => None
  | b :: l =>
      if (bProbability b <=? 0)%float then pickRandom fits count total rv sofar l
      else
        let sofar := (sofar + bProbability b / total)%float in
        let num := count (bID b) in
        if (0 <? bMaxInDistrict b) && (bMaxInDistrict b <=? num)
        then pickRandom fits count total rv sofar l
        else if negb (fits b) then pickRandom fits count total rv sofar l
        else if (rv <? sofar)%float then Some b
        else pickRandom fits count total rv sofar l
  end.

(** [chooseBuilding]: the first building of [must] that fits is taken
    out of [must]; otherwise the random pass picks one. The chosen
    building's count goes up by one. *)
Definition chooseBuilding (d : districtBuilder) (cm : imageMap) (x y : Z) (rv : float)
    : option BuildingConfig * districtBuilder :=
  match firstFit (buildingFits d cm x y) (must d) with
  | Some (i, b) =>
      (Some b, mkDistrictBuilder (outline d) (siteContains d) (cfgBuildings d) (total d)
                 (removeAt i (must d)) (setCount (count d) (bID b) (count d (bID b) + 1)))
  | None =>
      match pickRandom (buildingFits d cm x y) (count d) (total d) rv 0%float (cfgBuildings d) with
      | Some b =>
          (Some b, mkDistrictBuilder (outline d) (siteContains d) (cfgBuildings d) (total d)
                     (must d) (setCount (count d) (bID b) (count d (bID b) + 1)))
      | None => (None, d)
      end
  end.

End DistrictBuilder.

(** ** District types: desirability (district_types.go) *)
Module Desirability.

(** [desirability]: the type's index, and [len(allDistricts) + 1] for
    [Empty] (index 0). *)
Definition desirability (d : DistrictType) : Z :=
  let id := DistrictID d in
  if id =? 0 then Z.of_nat (length allDistricts) + 1 else id.

(** The [less] function of [sortTypesByDesirability]'s [sort.Slice]. *)
Definition lessDesirability (a b : DistrictType) : bool :=
  desirability a <? desirability b.

End Desirability.

(** ** gateLocation.withinGateCourtyard (utils.go) *)
Module Courtyard.

(** [g.Left] and [g.Right] are [left] and [right]; only the [Y] pair is
    put in order. *)
Definition withinGateCourtyard (left right p : Point) : bool :=
  let a := left in
  let b := right in
  if (ptX p <? ptX a) || (ptX p >? ptX b) then false
  else
    let '(a, b) := if ptY b <? ptY a then (b, a) else (a, b) in
    if (ptY p <? ptY a) || (ptY p >? ptY b) then false
    else true.

End Courtyard.

(** ** District.addBuilding (the district's buildings and their counts) *)
Module AddBuilding.
Import MapWriters.

Record Building : Type := mkBuilding { buildingID : Z; buildingArea : Rectangle }.

(** The fields of [District] that [addBuilding] reads and writes:
    [Buildings] and [Stats.BuildingsByID] (a missing key reads 0). *)
Record DistrictBuildings : Type := mkDistrictBuildings {
  Buildings : list Building;
  BuildingsByID : Z -> Z
}.

(** [addBuilding x y b]: the new [*Building] ([nil] for a [nil] config)
    and the district after it. *)
Definition addBuilding (d : DistrictBuildings) (x y : Z) (b : option BuildingConfig)
    : option Building * DistrictBuildings :=
  match b with
  | None => (None, d)
  | Some b =>
      let count := BuildingsByID d (bID b) in
      let byID := fun k => if k =? bID b then count + 1 else BuildingsByID d k in
      let build := mkBuilding (bID b)
        (Towers.mkRect x y (ptX (rMax (bArea b)) - ptX (rMin (bArea b)))
                           (ptY (rMax (bArea b)) - ptY (rMin (bArea b)))) in
      (Some build, mkDistrictBuildings (Buildings d ++ [build]) byID)
  end.

End AddBuilding.

(** ** voronoi.Polygon.Bounds *)
Module Polygon.

Definition boundsStep (acc : Z * Z * Z * Z) (p : Point) : Z * Z * Z * Z :=
  let '(x0, y0, x1, y1) := acc in
  let '(x0, x1) :=
    if ptX p <? x0 then (ptX p, x1) else if ptX p >? x1 then (x0, ptX p) else (x0, x1) in
  let '(y0, y1) :=
    if ptY p <? y0 then (ptY p, y1) else if ptY p >? y1 then (y0, ptY p) else (y0, y1) in
  (x0, y0, x1, y1).

Definition Bounds (points : list Point) : Rectangle :=
  match points with
  | [] => Towers.mkRect 0 0 0 0
  | first :: rest =>
      let '(x0, y0, x1, y1) :=
        fold_left boundsStep rest (ptX first, ptY first, ptX first, ptY first) in
      Towers.mkRect x0 y0 x1 y1
  end.

(** [IsClosed]: at least three points. *)
Definition IsClosed (points : list Point) : bool := negb (Nat.ltb (length points) 3).

End Polygon.

(** ** voronoi.vPGen: the points of a site, one [Next] at a time (site.go) *)
Module PointGen.

(** The generator's state; [poly.Contains] is the argument [contains]. *)
Record vPGen : Type := mkvPGen { gbounds : Rectangle; gx : Z; gy : Z }.

(** [AllContains]: a fresh generator over the site's bounds. *)
Definition AllContains (bnds : Rectangle) : vPGen := mkvPGen bnds (-1) (-1).

(** The row loops of [Next] from column [x] of the first row [ys]: the
    first contained point, rows in order, columns in order. *)
Fixpoint scanRows (contains : Point -> bool) (bnds : Rectangle) (x : Z) (ys : list Z)
    : option Point :=
  match ys with
  | [] => None
  | y :: ys =>
      match find (fun x' => contains (x', y)) (EndDraw.zrange x (ptX (rMax bnds))) with
      | Some x' => Some (x', y)
      | None => scanRows contains bnds (ptX (rMin bnds)) ys
      end
  end.

(** [Next]: [(-1, -1)] (re)starts at [Min]; a point found leaves the
    state just after it; when none is left the loops leave
    [(Min.X, Max.Y)], or the state as it was if no row was scanned. *)
Definition Next (contains : Point -> bool) (v : vPGen) : option Point * vPGen :=
  let bnds := gbounds v in
  let '(x, y) :=
    if (gx v =? -1) && (gy v =? -1) then (ptX (rMin bnds), ptY (rMin bnds)) else (gx v, gy v) in
  match scanRows contains bnds x (EndDraw.zrange y (ptY (rMax bnds))) with
  | Some p => (Some p, mkvPGen bnds (ptX p + 1) (ptY p))
  | None =>
      (None, if y <? ptY (rMax bnds) then mkvPGen bnds (ptX (rMin bnds)) (ptY (rMax bnds))
             else mkvPGen bnds x y)
  end.

(** A caller's loop [for p := gen.Next(); p != nil; p = gen.Next()], run
    for at most [fuel] calls. *)
Fixpoint drain (contains : Point -> bool) (fuel : nat) (v : vPGen) : list Point :=
  match fuel with
  | O => []
  | S n =>
      match Next contains v with
      | (Some p, v') => p :: drain contains n v'
      | (None, _) => []
      end
  end.

End PointGen.

(** ** voronoi.Builder: placing sites under filters *)
Module VBuilder.

(** The builder's state; the filters are Go closures, the RNG is read
    through the values [rng.Intn] returns. *)
Record Builder : Type := mkBuilder {
  bbounds : Rectangle;
  sites : list Point;
  sfilt : list (Z -> Z -> Z -> Z -> bool);
  cfilt : list (Z -> Z -> bool)
}.

(** [accepted]: every candidate filter, then every site filter against
    every current site. *)
Definition accepted (b : Builder) (candidateX candidateY : Z) : bool :=
  forallb (fun fn => fn candidateX candidateY) (cfilt b) &&
  forallb (fun s => forallb (fun fn => fn candidateX candidateY (ptX s) (ptY s)) (sfilt b))
    (sites b).

(** [addSite]: the id is the number of sites before the append. *)
Definition addSite (b : Builder) (x y : Z) : Z * Builder :=
  (Z.of_nat (length (sites b)),
   mkBuilder (bbounds b) (sites b ++ [(x, y)]) (sfilt b) (cfilt b)).

Definition AddSite (b : Builder) (x y : Z) : (Z * bool) * Builder :=
  if accepted b x y then let '(id, b') := addSite b x y in ((id, true), b')
  else ((0, false), b).

(** [AddRandomSite] with [rx] and [ry] the values of the two [rng.Intn]
    calls; [None] is the panic of [Intn] on a non-positive width or
    height. *)
Definition AddRandomSite (b : Builder) (rx ry : Z) : option ((Z * Z * Z * bool) * Builder) :=
  let w := ptX (rMax (bbounds b)) - ptX (rMin (bbounds b)) in
  let h := ptY (rMax (bbounds b)) - ptY (rMin (bbounds b)) in
  if (w <=? 0) || (h <=? 0) then None
  else
    let candidateX := rx + ptX (rMin (bbounds b)) in
    let candidateY := ry + ptY (rMin (bbounds b)) in
    if negb (accepted b candidateX candidateY) then Some ((0, 0, 0, false), b)
    else
      let '(id, b') := addSite b candidateX candidateY in
      Some ((candidateX, candidateY, id, true), b').

End VBuilder.

(** * Proofs *)

(** ** Loops over [seq 0 n] *)

Lemma fold_seq_snoc {A} (f : A -> nat -> A) (n : nat) (a : A) :
  fold_left f (seq 0 (S n)) a = f (fold_left f (seq 0 n) a) n.
Proof. rewrite seq_S, fold_left_app. reflexivity. Qed.

Lemma fold_seq_inv2 {A B} (f : A -> nat -> A) (g : B -> nat -> B)
    (Inv : nat -> A -> B -> Prop) (N : nat) (a0 : A) (b0 : B) :
  Inv O a0 b0 ->
  (forall n a b, (n < N)%nat -> Inv n a b -> Inv (S n) (f a n) (g b n)) ->
  forall n, (n <= N)%nat ->
    Inv n (fold_left f (seq 0 n) a0) (fold_left g (seq 0 n) b0).
Proof.
  intros H0 Hstep n. induction n as [|n IH]; intros Hle.
  - exact H0.
  - rewrite !fold_seq_snoc. apply Hstep; [lia | apply IH; lia].
Qed.

Lemma fold_seq_inv {A} (f : A -> nat -> A) (Inv : nat -> A -> Prop) (N : nat) (a0 : A) :
  Inv O a0 ->
  (forall n a, (n < N)%nat -> Inv n a -> Inv (S n) (f a n)) ->
  forall n, (n <= N)%nat -> Inv n (fold_left f (seq 0 n) a0).
Proof.
  intros H0 Hstep n. induction n as [|n IH]; intros Hle.
  - exact H0.
  - rewrite fold_seq_snoc. apply Hstep; [lia | apply IH; lia].
Qed.

Lemma removelast_snoc {A} (l : list A) (x : A) : removelast (l ++ [x]) = l.
Proof.
  induction l as [|y l IH]; [reflexivity|].
  simpl. rewrite IH. destruct l; reflexivity.
Qed.

Lemma last_snoc {A} (l : list A) (x d : A) : last (l ++ [x]) d = x.
Proof.
  induction l as [|y l IH]; [reflexivity|].
  simpl. rewrite IH. destruct (l ++ [x]) eqn:E; [destruct l; discriminate|reflexivity].
Qed.

Lemma snoc_not_nil {A} (l : list A) (x : A) : l ++ [x] <> [].
Proof. destruct l; discriminate. Qed.

(** ** The line classifier *)
Module LineSegmentsFacts.
Import SpatialMap LineSegments.

Definition lsInv (path : list Point) (n : nat) (rs : list run) (st : lsState) : Prop :=
  (n = O /\ rs = [] /\ prevIndex st = -1 /\ outputs st = ([], [], [])) \/
  (exists rs0 s c, rs = rs0 ++ [(s, pred n, c)] /\ (s < n)%nat /\
     prevIndex st = Z.of_nat s /\ prevEnum st = c /\ outputs st = emit path rs0).

Lemma emit_snoc (path : list Point) (rs : list run) (r : run) :
  emit path (rs ++ [r]) = emitRun path (emit path rs) r.
Proof. unfold emit. rewrite fold_left_app. reflexivity. Qed.

Lemma nth_map_classify cmap outline site (path : list Point) (n : nat) :
  (n < length path)%nat ->
  nth n (map (classify cmap outline site) path) 0 =
  classify cmap outline site (nthP path (Z.of_nat n)).
Proof.
  intros Hn. unfold nthP. rewrite Nat2Z.id.
  rewrite nth_indep with (d' := classify cmap outline site (0, 0))
    by (rewrite length_map; exact Hn).
  apply map_nth.
Qed.

Lemma lsInv_step cmap outline site (path : list Point) (n : nat) rs st :
  (n < length path)%nat -> lsInv path n rs st ->
  lsInv path (S n)
    (addPoint rs n (nth n (map (classify cmap outline site) path) 0))
    (lsBody cmap outline site path st (Z.of_nat n)).
Proof.
  intros Hn Hinv. rewrite nth_map_classify by exact Hn.
  set (c := classify cmap outline site (nthP path (Z.of_nat n))).
  unfold lsBody. fold c.
  destruct Hinv as [(-> & -> & Hp & Ho) | (rs0 & s & c' & -> & Hs & Hp & He & Ho)].
  - rewrite Hp. simpl. right. exists [], O, c. repeat split; try lia.
    destruct st; simpl in *. exact Ho.
  - assert (Hne : (Z.of_nat s =? -1) = false) by lia.
    rewrite Hp, Hne. unfold addPoint.
    destruct (rs0 ++ [(s, pred n, c')]) eqn:E; [exfalso; eapply snoc_not_nil; eauto|].
    rewrite <- E, last_snoc, removelast_snoc, He.
    destruct (Z.eqb_spec c c') as [Hcc|Hcc].
    + replace (c' =? c) with true by (symmetry; apply Z.eqb_eq; congruence).
      right. exists rs0, s, c.
      repeat split; try lia; congruence.
    + replace (c' =? c) with false by (symmetry; apply Z.eqb_neq; congruence).
      right. exists (rs0 ++ [(s, pred n, c')]), n, c.
      destruct st as [pi pe R B W]; simpl in Hp, He, Ho |- *. subst pe.
      assert (Hseg : (nthP path (Z.of_nat s), nthP path (Z.of_nat n - 1)) =
                     segOf path (s, pred n, c')).
      { unfold nthP, segOf, runStart, runEnd; simpl. rewrite Nat2Z.id.
        f_equal. f_equal. lia. }
      rewrite Hseg, (emit_snoc path rs0 (s, pred n, c')), <- Ho.
      unfold emitRun, runClass, enumBridge, enumRoad, enumWall, outputs; simpl.
      destruct (Z.eqb_spec c' 2) as [->|H2].
      { destruct R; simpl; repeat split; first [reflexivity | lia]. }
      destruct (Z.eqb_spec c' 1) as [->|H1].
      { simpl; repeat split; first [reflexivity | lia]. }
      destruct (Z.eqb_spec c' 3) as [->|H3]; simpl; repeat split; first [reflexivity | lia].
Qed.

(** [lineSegments] is the emission of the maximal runs of the classes of
    the rasterized path. *)
Lemma lineSegments_runs cmap outline site (a b : Point) :
  let path := Line.PointsBetween a b in
  lineSegments cmap outline site a b =
  emitAll path (runs (map (classify cmap outline site) path)).
Proof.
  intros path. unfold lineSegments, runs. fold path.
  rewrite length_map.
  pose proof (fold_seq_inv2
    (fun rs i => addPoint rs i (nth i (map (classify cmap outline site) path) 0))
    (fun st i => lsBody cmap outline site path st (Z.of_nat i))
    (fun n rs st => lsInv path n rs st) (length path) [] lsInit) as H.
  destruct (H ltac:(left; repeat split)
              ltac:(intros; apply lsInv_step; assumption)
              (length path) (le_n _))
    as [(Hn & -> & Hp & Ho) | (rs0 & s & c & Hrs & Hs & Hp & He & Ho)].
  - unfold lsFinal. rewrite Hp, Hn. reflexivity.
  - rewrite Hrs. unfold emitAll.
    destruct (rs0 ++ [(s, pred (length path), c)]) eqn:E;
      [exfalso; eapply snoc_not_nil; eauto|].
    rewrite <- E, last_snoc, removelast_snoc. unfold runStart; simpl.
    unfold lsFinal. rewrite Hp, He.
    clear H. set (st := fold_left (fun st i => lsBody cmap outline site path st (Z.of_nat i))
                           (seq 0 (length path)) lsInit) in *.
    destruct (Z.of_nat s =? Z.of_nat (length path) - 1); simpl; [exact Ho|].
    destruct st as [pi pe R B W]; simpl in *. rewrite <- Ho.
    assert (Hseg : (nthP path (Z.of_nat s), nthP path (Z.of_nat (length path) - 1)) =
                   segOf path (s, pred (length path), c)).
    { unfold nthP, segOf, runStart, runEnd; simpl. rewrite Nat2Z.id.
      f_equal. f_equal. lia. }
    rewrite Hseg. unfold emitLast, runClass; simpl. reflexivity.
Qed.

End LineSegmentsFacts.

(** ** Maximal runs *)
Module RunsFacts.
Import LineSegments.

Lemma noAdjDup_snoc (l : list Z) (y x : Z) :
  noAdjDup (l ++ [y]) -> y <> x -> noAdjDup (l ++ [y; x]).
Proof.
  induction l as [|a l IH]; intros H Hyx.
  - simpl. tauto.
  - destruct l as [|b l].
    + simpl in *. tauto.
    + change (a <> b /\ noAdjDup ((b :: l) ++ [y])) in H.
      change (a <> b /\ noAdjDup ((b :: l) ++ [y; x])).
      destruct H as [Hab H]. split; [exact Hab | apply IH; assumption].
Qed.

Definition runsInv (cls : list Z) (n : nat) (rs : list run) : Prop :=
  ((n = O /\ rs = []) \/
   (exists rs0 s c, rs = rs0 ++ [(s, pred n, c)] /\ (s < n)%nat)) /\
  flat_map runIdx rs = seq 0 n /\
  Forall (runOk cls) rs /\
  noAdjDup (map runClass rs).

Lemma runsInv_step (cls : list Z) (n : nat) (rs : list run) :
  runsInv cls n rs -> runsInv cls (S n) (addPoint rs n (nth n cls 0)).
Proof.
  set (c := nth n cls 0).
  intros [[(-> & ->) | (rs0 & s & c' & -> & Hs)] [Hidx [Hok Hadj]]].
  - simpl. split; [right; exists [], O, c; split; [reflexivity | lia]|].
    split; [reflexivity|]. split; [|exact I].
    constructor; [|constructor]. split; [unfold runStart, runEnd; simpl; lia|].
    intros k Hk. unfold runStart, runEnd in Hk; simpl in Hk.
    replace k with O by lia. reflexivity.
  - rewrite Forall_app in Hok. destruct Hok as [Hok0 Hokl].
    inversion Hokl as [|? ? [Hle Hcls] _]; subst.
    unfold runStart, runEnd, runClass in Hle, Hcls; cbn [fst snd] in Hle, Hcls.
    rewrite flat_map_app in Hidx. cbn [flat_map] in Hidx. rewrite app_nil_r in Hidx.
    change (runIdx (s, pred n, c')) with (seq s (S (pred n) - s)) in Hidx.
    replace (S (pred n) - s)%nat with (n - s)%nat in Hidx by lia.
    unfold addPoint.
    destruct (rs0 ++ [(s, pred n, c')]) eqn:E; [exfalso; eapply snoc_not_nil; eauto|].
    rewrite <- E in *. rewrite last_snoc, removelast_snoc.
    destruct (Z.eqb_spec c c') as [Hcc|Hcc].
    + split; [right; exists rs0, s, c; split; [reflexivity | lia]|].
      split.
      { rewrite flat_map_app. cbn [flat_map]. rewrite app_nil_r.
        change (runIdx (s, n, c)) with (seq s (S n - s)).
        replace (S n - s)%nat with (S (n - s)) by lia.
        rewrite seq_S, app_assoc, Hidx, seq_S. f_equal. f_equal. lia. }
      split.
      { apply Forall_app. split; [exact Hok0|]. constructor; [|constructor].
        unfold runOk, runStart, runEnd, runClass; cbn [fst snd].
        split; [lia|]. intros k Hk.
        destruct (Nat.eq_dec k n) as [->|Hkn]; [reflexivity|].
        rewrite Hcc. apply Hcls. lia. }
      { rewrite map_app in *. cbn [map] in *. unfold runClass in *; cbn [snd] in *.
        rewrite Hcc. exact Hadj. }
    + split; [right; exists (rs0 ++ [(s, pred n, c')]), n, c; split; [reflexivity | lia]|].
      split.
      { rewrite !flat_map_app. cbn [flat_map]. rewrite !app_nil_r.
        change (runIdx (s, pred n, c')) with (seq s (S (pred n) - s)).
        replace (S (pred n) - s)%nat with (n - s)%nat by lia.
        change (runIdx (n, n, c)) with (seq n (S n - n)).
        replace (S n - n)%nat with 1%nat by lia.
        rewrite Hidx, (seq_S n 0). reflexivity. }
      split.
      { apply Forall_app. split; [apply Forall_app; split; [exact Hok0|]|].
        - constructor; [|constructor].
          unfold runOk, runStart, runEnd, runClass; cbn [fst snd]. split; [exact Hle | exact Hcls].
        - constructor; [|constructor].
          unfold runOk, runStart, runEnd, runClass; cbn [fst snd].
          split; [lia|]. intros k Hk. replace k with n by lia. reflexivity. }
      { rewrite !map_app in *. cbn [map] in *. unfold runClass in *; cbn [snd] in *.
        rewrite <- app_assoc. cbn [app].
        apply noAdjDup_snoc; [exact Hadj | congruence]. }
Qed.

(** The runs of a class list: they cover its indices in order, every
    point of a run has the run's class, and neighbouring runs differ. *)
Lemma runs_spec (cls : list Z) :
  flat_map runIdx (runs cls) = seq 0 (length cls) /\
  Forall (runOk cls) (runs cls) /\
  noAdjDup (map runClass (runs cls)).
Proof.
  unfold runs.
  pose proof (fold_seq_inv (fun rs i => addPoint rs i (nth i cls 0))
                (runsInv cls) (length cls) []) as H.
  destruct (H ltac:(split; [left; split; reflexivity | repeat split; constructor])
              ltac:(intros; apply runsInv_step; assumption)
              (length cls) (le_n _)) as [_ Hrest].
  exact Hrest.
Qed.

End RunsFacts.

(** ** What the line classifier emits *)
Module LineSegmentsClaims.
Import SpatialMap LineSegments LineSegmentsFacts RunsFacts Samples.

Definition nonEmpty {A} (l : list A) : bool := match l with [] => false | _ => true end.

Lemma emit_bridges_gen (path : list Point) (rs : list run) (R B W : list Seg) :
  snd (fst (fold_left (emitRun path) rs (R, B, W))) =
  B ++ map (segOf path) (bridgesAfterRoad (nonEmpty R) rs).
Proof.
  revert R B W. induction rs as [|r rs IH]; intros R B W.
  - simpl. rewrite app_nil_r. reflexivity.
  - cbn [fold_left bridgesAfterRoad]. unfold emitRun at 2.
    destruct r as [[s e] c]. unfold runClass; cbn [snd].
    unfold enumRoad, enumWall, enumBridge.
    destruct (Z.eqb_spec c 1) as [->|H1].
    + rewrite IH. destruct R; reflexivity.
    + destruct (Z.eqb_spec c 3) as [->|H3].
      * rewrite IH. reflexivity.
      * destruct (Z.eqb_spec c 2) as [->|H2].
        -- destruct R as [|x R]; cbn [nonEmpty andb].
           ++ rewrite IH. reflexivity.
           ++ rewrite IH. cbn [map]. rewrite <- app_assoc. reflexivity.
        -- rewrite andb_false_l, IH. reflexivity.
Qed.

Lemma emit_bridges (path : list Point) (rs : list run) :
  snd (fst (emit path rs)) = map (segOf path) (bridgesAfterRoad false rs).
Proof. unfold emit. rewrite emit_bridges_gen. reflexivity. Qed.

(** After the loop only the last run may be added, to its own list. *)
Lemma emitAll_tails (path : list Point) (rs : list run) :
  let '(R, B, W) := emitAll path rs in
  let '(R0, B0, W0) := emit path (removelast rs) in
  let r := last rs (O, O, 0) in
  (exists tR, R = R0 ++ tR /\ (tR = [] \/ (tR = [segOf path r] /\ runClass r = enumRoad))) /\
  (exists tB, B = B0 ++ tB /\ (tB = [] \/ (tB = [segOf path r] /\ runClass r = enumBridge))) /\
  (exists tW, W = W0 ++ tW /\ (tW = [] \/ (tW = [segOf path r] /\ runClass r = enumWall))).
Proof.
  assert (Hnil : forall A (l : list A), l = l ++ []) by (intros; rewrite app_nil_r; reflexivity).
  unfold emitAll. destruct rs as [|r0 rs'] eqn:Hrs.
  - simpl. repeat split; exists []; split; try reflexivity; left; reflexivity.
  - rewrite <- Hrs.
    destruct (emit path (removelast rs)) as [[R0 B0] W0] eqn:He.
    destruct (_ =? _).
    + repeat split; eexists; split; try apply Hnil; left; reflexivity.
    + unfold emitLast. set (r := last rs (O, O, 0)).
      unfold enumBridge, enumRoad, enumWall.
      destruct (Z.eqb_spec (runClass r) 2) as [H2|H2].
      { split; [exists []; split; [apply Hnil | left; reflexivity]|].
        split; [eexists; split; [reflexivity | right; split; [reflexivity | exact H2]]|].
        exists []; split; [apply Hnil | left; reflexivity]. }
      destruct (Z.eqb_spec (runClass r) 1) as [H1|H1].
      { split; [eexists; split; [reflexivity | right; split; [reflexivity | exact H1]]|].
        split; exists []; split; try apply Hnil; left; reflexivity. }
      destruct (Z.eqb_spec (runClass r) 3) as [H3|H3].
      { split; [exists []; split; [apply Hnil | left; reflexivity]|].
        split; [exists []; split; [apply Hnil | left; reflexivity]|].
        eexists; split; [reflexivity | right; split; [reflexivity | exact H3]]. }
      repeat split; exists []; split; try apply Hnil; left; reflexivity.
Qed.

(** Claim C1: [lineSegments] splits the rasterized path by the classes
    of its points, and a point's class follows the priority: outside the
    given cell, nothing; else on a building (non-zero id), nothing; else
    on a drawn fortification, wall; else buildable, road; else
    bridgeable, bridge; else nothing. *)
Theorem lineSegments_classify_priority (cmap : imageMap) (outline : Outline)
    (site : Site) (a b : Point) :
  lineSegments cmap outline site a b =
  emitAll (Line.PointsBetween a b)
    (runs (map (classify cmap outline site) (Line.PointsBetween a b))) /\
  forall x y,
    let c := classify cmap outline site (x, y) in
    (inSite site x y = false -> c = enumNothing) /\
    (inSite site x y = true -> fst (BuildingID cmap x y) <> 0 -> c = enumNothing) /\
    (inSite site x y = true -> fst (BuildingID cmap x y) = 0 ->
     isFortification cmap x y = true -> c = enumWall) /\
    (inSite site x y = true -> fst (BuildingID cmap x y) = 0 ->
     isFortification cmap x y = false -> CanBuildOn outline x y = true -> c = enumRoad) /\
    (inSite site x y = true -> fst (BuildingID cmap x y) = 0 ->
     isFortification cmap x y = false -> CanBuildOn outline x y = false ->
     CanBridgeOver outline x y = true -> c = enumBridge) /\
    (inSite site x y = true -> fst (BuildingID cmap x y) = 0 ->
     isFortification cmap x y = false -> CanBuildOn outline x y = false ->
     CanBridgeOver outline x y = false -> c = enumNothing).
Proof.
  split; [exact (lineSegments_runs cmap outline site a b)|].
  intros x y c. unfold c, classify, inSite.
  destruct (fst (BuildingID cmap x y) =? 0) eqn:Hb;
    [apply Z.eqb_eq in Hb | apply Z.eqb_neq in Hb].
  - destruct site as [contains|]; [destruct (contains x y)|]; cbn [negb];
      repeat split; intros; subst; try congruence;
      repeat match goal with H : _ = _ |- _ => rewrite H end; reflexivity.
  - destruct site as [contains|]; [destruct (contains x y)|]; cbn [negb];
      repeat split; intros; try congruence;
      rewrite (proj2 (Z.eqb_neq _ 0) Hb); reflexivity.
Qed.

(** Claim C2 (as amended): the runs of equal class cover the rasterized
    path left to right (every index in exactly one run, in order), every
    point of a run has its class, neighbouring runs differ (maximal runs);
    every run but the last is emitted as [emit] says (roads and walls
    always, bridges once a road was emitted, nothing-runs never); the last
    run adds at most its own sub-segment, to the list of its class. *)
Theorem lineSegments_runs_partition (cmap : imageMap) (outline : Outline)
    (site : Site) (a b : Point) :
  let path := Line.PointsBetween a b in
  let cls := map (classify cmap outline site) path in
  let rs := runs cls in
  flat_map runIdx rs = seq 0 (length path) /\
  Forall (runOk cls) rs /\
  noAdjDup (map runClass rs) /\
  let '(R, B, W) := lineSegments cmap outline site a b in
  let '(R0, B0, W0) := emit path (removelast rs) in
  let r := last rs (O, O, 0) in
  (exists tR, R = R0 ++ tR /\ (tR = [] \/ (tR = [segOf path r] /\ runClass r = enumRoad))) /\
  (exists tB, B = B0 ++ tB /\ (tB = [] \/ (tB = [segOf path r] /\ runClass r = enumBridge))) /\
  (exists tW, W = W0 ++ tW /\ (tW = [] \/ (tW = [segOf path r] /\ runClass r = enumWall))).
Proof.
  intros path cls rs.
  destruct (runs_spec cls) as (H1 & H2 & H3).
  unfold cls in H1. rewrite length_map in H1.
  split; [exact H1|]. split; [exact H2|]. split; [exact H3|].
  rewrite (lineSegments_runs cmap outline site a b).
  exact (emitAll_tails path rs).
Qed.

(** Claim C2 fails as stated: on the path (0,0)-(3,0) over [river1] the
    point (1,0) is bridgeable, but no road precedes it, so no bridge is
    emitted and the point lies in no emitted sub-segment, although its
    class is not "nothing". *)
Lemma lineSegments_partition_counterexample :
  classify map0 river1 None (1, 0) = enumBridge /\
  lineSegments map0 river1 None (0, 0) (3, 0) = ([((2, 0), (3, 0))], [], []).
Proof. split; vm_compute; reflexivity. Qed.

(** Claim C3 (as amended): every bridge run other than the last is
    emitted exactly when a road run precedes it, wherever it begins; the
    last run adds at most its own bridge sub-segment. *)
Theorem lineSegments_bridge_needs_road (cmap : imageMap) (outline : Outline)
    (site : Site) (a b : Point) :
  let path := Line.PointsBetween a b in
  let rs := runs (map (classify cmap outline site) path) in
  let r := last rs (O, O, 0) in
  exists tB,
    snd (fst (lineSegments cmap outline site a b)) =
    map (segOf path) (bridgesAfterRoad false (removelast rs)) ++ tB /\
    (tB = [] \/ (tB = [segOf path r] /\ runClass r = enumBridge)).
Proof.
  intros path rs r.
  rewrite (lineSegments_runs cmap outline site a b). fold path. fold rs.
  pose proof (emitAll_tails path rs) as H.
  destruct (emitAll path rs) as [[R B] W].
  pose proof (emit_bridges path (removelast rs)) as HB.
  destruct (emit path (removelast rs)) as [[R0 B0] W0].
  destruct H as (_ & (tB & -> & HtB) & _).
  exists tB. cbn [fst snd] in *. rewrite <- HB. split; [reflexivity | exact HtB].
Qed.

(** Claim C3 fails as stated: on the path (0,0)-(3,0) over [river1] the
    second run is a bridge run starting at index 1 (not the first point),
    and it is not emitted. *)
Lemma lineSegments_bridge_counterexample :
  runs (map (classify map0 river1 None) (Line.PointsBetween (0, 0) (3, 0))) =
    [(O, O, enumNothing); (1%nat, 1%nat, enumBridge); (2%nat, 3%nat, enumRoad)] /\
  snd (fst (lineSegments map0 river1 None (0, 0) (3, 0))) = [].
Proof. split; vm_compute; reflexivity. Qed.

(** The run still open at the end of the loop is dropped when it is a
    single point: the path (2,0)-(4,0) over a terrain buildable only at
    [x = 4] emits no road. *)
Lemma lineSegments_last_point_run :
  lineSegments map0 (mkOutline (fun x _ => x =? 4) (fun _ _ => false) (fun _ _ => false))
    None (2, 0) (4, 0) = ([], [], []).
Proof. vm_compute. reflexivity. Qed.

(** A path that is a bridge from end to end is emitted as a bridge with
    no road before it. *)
Lemma lineSegments_whole_bridge :
  lineSegments map0 river1 None (1, 0) (1, 3) = ([], [((1, 0), (1, 3))], []).
Proof. vm_compute. reflexivity. Qed.

End LineSegmentsClaims.

(** ** endDraw: pointwise effect of the commit loop *)
Module EndDrawFacts.
Import SpatialMap Encoding Bitmap EndDraw.

Lemma bounds_setBM c x y bm : bounds (setBM c x y bm) = bounds c.
Proof. unfold setBM, SetRGBA64. destruct (inRect _ _ _); reflexivity. Qed.

Lemma ctx_setBM c x y bm : ctx (setBM c x y bm) = ctx c.
Proof. unfold setBM, SetRGBA64. destruct (inRect _ _ _); reflexivity. Qed.

Lemma low_byte_Merge8 d n : Z.land (Z.land (Z.shiftl d 8 + Z.land n 255) 65535) 255 = Z.land n 255.
Proof.
  change 65535 with (Z.ones 16). change 255 with (Z.ones 8).
  rewrite !Z.land_ones by lia. rewrite Z.shiftl_mul_pow2 by lia.
  change (2 ^ 16) with 65536. change (2 ^ 8) with 256.
  rewrite Z.mod_mod_divide by (exists 256; reflexivity).
  rewrite Z.add_comm, Z.mod_add by lia.
  rewrite Z.mod_mod by lia. reflexivity.
Qed.

Lemma getBM_setBM c x0 y0 bm x y :
  inRect (bounds c) x y = true ->
  getBM (setBM c x0 y0 bm) x y =
  if (x =? x0) && (y =? y0) then Z.land bm 255 else getBM c x y.
Proof.
  intros Hin. unfold getBM, setBM, SetRGBA64, RGBA64At.
  destruct (inRect (bounds c) x0 y0) eqn:H0; cbn [bounds im].
  - rewrite Hin. destruct ((x =? x0) && (y =? y0)) eqn:E; [|reflexivity].
    cbn [cA Split16 snd]. unfold Merge8, FromBytes8. apply low_byte_Merge8.
  - destruct ((x =? x0) && (y =? y0)) eqn:E; [|reflexivity].
    apply andb_true_iff in E as [E1 E2]. apply Z.eqb_eq in E1, E2. subst.
    congruence.
Qed.

Lemma inRect_not_out c x y :
  inRect (bounds c) x y = true -> isOutOfBounds c x y = false.
Proof.
  unfold inRect, isOutOfBounds. intros H.
  repeat rewrite andb_true_iff in H. rewrite !Z.leb_le, !Z.ltb_lt in H.
  destruct H as [[[H1 H2] H3] H4].
  repeat rewrite orb_false_iff. rewrite !Z.ltb_ge, !Z.gtb_ltb, !Z.ltb_ge. lia.
Qed.

(** The three flags read from a flag byte. *)
Definition fortOK (v : Z) : bool :=
  (length (filter (fun b : bool => b) [Z.testbit v bitWall; Z.testbit v bitTower; Z.testbit v bitGate]) <=? 1)%nat.

Lemma atMostOneFort_getBM c x y :
  inRect (bounds c) x y = true -> atMostOneFort c x y = fortOK (getBM c x y).
Proof.
  intros H. unfold atMostOneFort, IsWall, IsTower, IsGatehouse.
  rewrite (inRect_not_out c x y H). reflexivity.
Qed.

Lemma endDrawStep_bounds temp w o c p : bounds (endDrawStep temp w o c p) = bounds c.
Proof. unfold endDrawStep. destruct (pixelBM _ _ _ _ _); [apply bounds_setBM|reflexivity]. Qed.

(** The flag byte after the loop over any list of pixels. *)
Lemma getBM_fold temp w o l c x y :
  inRect (bounds c) x y = true ->
  getBM (fold_left (endDrawStep temp w o) l c) x y =
  if existsb (fun p => (fst p =? x) && (snd p =? y)) l then
    match pixelBM temp w o x y with
    | Some bm => Z.land bm 255
    | None => getBM c x y
    end
  else getBM c x y.
Proof.
  revert c. induction l as [|p l IH]; intros c Hin; [reflexivity|].
  cbn [fold_left existsb]. rewrite IH by (rewrite endDrawStep_bounds; exact Hin).
  destruct p as [px py]. cbn [fst snd].
  assert (Hstep : getBM (endDrawStep temp w o c (px, py)) x y =
    if (px =? x) && (py =? y) then
      match pixelBM temp w o x y with Some bm => Z.land bm 255 | None => getBM c x y end
    else getBM c x y).
  { unfold endDrawStep. cbn [fst snd].
    destruct ((px =? x) && (py =? y)) eqn:E.
    - apply andb_true_iff in E as [E1 E2]. apply Z.eqb_eq in E1, E2. subst.
      destruct (pixelBM temp w o x y) eqn:Ep; [|reflexivity].
      rewrite getBM_setBM by exact Hin. rewrite !Z.eqb_refl. reflexivity.
    - destruct (pixelBM temp w o px py); [|reflexivity].
      rewrite getBM_setBM by exact Hin.
      replace ((x =? px) && (y =? py)) with false; [reflexivity|].
      rewrite Z.eqb_sym, (Z.eqb_sym y). congruence. }
  rewrite Hstep.
  destruct ((px =? x) && (py =? y)); cbn [orb];
    destruct (pixelBM temp w o x y);
    repeat match goal with |- context [if ?b then _ else _] => destruct b end;
    reflexivity.
Qed.

Lemma zrange_In lo hi i : In i (zrange lo hi) <-> lo <= i < hi.
Proof.
  unfold zrange. rewrite in_map_iff. split.
  - intros (k & <- & Hk). apply in_seq in Hk. lia.
  - intros H. exists (Z.to_nat (i - lo)). split; [lia|]. apply in_seq. lia.
Qed.

Lemma coords_In r x y : In (x, y) (coords r) <-> inRect r x y = true.
Proof.
  unfold coords, inRect, ptX, ptY. rewrite in_flat_map.
  repeat rewrite andb_true_iff. rewrite !Z.leb_le, !Z.ltb_lt. split.
  - intros (dy & Hy & Hx). apply in_map_iff in Hx as (dx & Heq & Hx).
    injection Heq as -> ->. apply zrange_In in Hx, Hy. lia.
  - intros [[[H1 H2] H3] H4]. exists y. split; [apply zrange_In; lia|].
    apply in_map_iff. exists x. split; [reflexivity|]. apply zrange_In; lia.
Qed.

Lemma existsb_coords r x y :
  inRect r x y = true ->
  existsb (fun p => (fst p =? x) && (snd p =? y)) (coords r) = true.
Proof.
  intros H. apply existsb_exists. exists (x, y). split.
  - apply coords_In. exact H.
  - cbn. rewrite !Z.eqb_refl. reflexivity.
Qed.

Lemma fortOK_SetTrue bit : bit = bitRoad \/ bit = bitBridge -> fortOK (Z.land (SetTrue New8 bit) 255) = true.
Proof. intros [-> | ->]; reflexivity. Qed.

Lemma fortOK_paintBM r g b : fortOK (Z.land (paintBM r g b) 255) = true.
Proof.
  unfold paintBM.
  destruct (0 <? g), (150 <=? b), (100 <=? b), (50 <=? b), (0 <? r); reflexivity.
Qed.

Lemma fortOK_pixelBM temp w o x y bm :
  pixelBM temp w o x y = Some bm -> fortOK (Z.land bm 255) = true.
Proof.
  unfold pixelBM. destruct (RGBA8_RGBA (temp x y)) as [[[r g] b] a].
  destruct (_ && _ && _).
  - destruct (_ && _); [|discriminate].
    intros H; injection H as <-. apply fortOK_SetTrue.
    destruct (CanBridgeOver o x y); auto.
  - intros H; injection H as <-. apply fortOK_paintBM.
Qed.

Lemma byte_SetTrue bit : bit = bitRoad \/ bit = bitBridge -> Z.land (SetTrue New8 bit) 255 = SetTrue New8 bit.
Proof. intros [-> | ->]; reflexivity. Qed.

Lemma byte_paintBM r g b : Z.land (paintBM r g b) 255 = paintBM r g b.
Proof.
  unfold paintBM.
  destruct (0 <? g), (150 <=? b), (100 <=? b), (50 <=? b), (0 <? r); reflexivity.
Qed.

Lemma pixelBM_byte temp w o x y bm :
  pixelBM temp w o x y = Some bm -> Z.land bm 255 = bm.
Proof.
  unfold pixelBM. destruct (RGBA8_RGBA (temp x y)) as [[[r g] b] a].
  destruct (_ && _ && _).
  - destruct (_ && _); [|discriminate].
    intros H; injection H as <-. apply byte_SetTrue.
    destruct (CanBridgeOver o x y); auto.
  - intros H; injection H as <-. apply byte_paintBM.
Qed.

Lemma endDraw_fold_bounds temp w o l c :
  bounds (fold_left (endDrawStep temp w o) l c) = bounds c.
Proof.
  revert c. induction l as [|p l IH]; intros c; [reflexivity|].
  cbn [fold_left]. rewrite IH. apply endDrawStep_bounds.
Qed.

End EndDrawFacts.

(** ** Claims on the spatial map (imageMap) *)
Module SpatialMapClaims.
Import SpatialMap Encoding Bitmap EndDraw EndDrawFacts Samples.

(** Claim C8 (as amended): outside the map's rectangle the flag readers
    IsRoad, IsBridge, IsWall, IsTower and IsGatehouse answer false; where
    the bounds check fails (x < Min.X, x > Max.X, y < Min.Y or
    y > Max.Y), District answers (Empty, -1) and BuildingID answers -1,
    each together with an out-of-bounds error. *)
Theorem readers_out_of_bounds (c : imageMap) (x y : Z) :
  (inRect (bounds c) x y = false ->
   IsRoad c x y = false /\ IsBridge c x y = false /\ IsWall c x y = false /\
   IsTower c x y = false /\ IsGatehouse c x y = false) /\
  (isOutOfBounds c x y = true ->
   District c x y = (Empty, -1, Some (ErrOutOfBounds x y)) /\
   BuildingID c x y = (-1, Some (ErrOutOfBounds x y))).
Proof.
  split.
  - intros Hout. unfold IsRoad, IsBridge, IsWall, IsTower, IsGatehouse, getBM, RGBA64At.
    rewrite Hout. destruct (isOutOfBounds c x y); repeat split.
  - intros Hout. unfold District, BuildingID. rewrite Hout. split; reflexivity.
Qed.

Lemma readers_out_of_bounds_witness :
  inRect (bounds map0) (-1) 3 = false /\ isOutOfBounds map0 (-1) 3 = true /\
  (IsRoad map0 (-1) 3 = false /\ IsBridge map0 (-1) 3 = false /\ IsWall map0 (-1) 3 = false /\
   IsTower map0 (-1) 3 = false /\ IsGatehouse map0 (-1) 3 = false) /\
  (District map0 (-1) 3 = (Empty, -1, Some (ErrOutOfBounds (-1) 3)) /\
   BuildingID map0 (-1) 3 = (-1, Some (ErrOutOfBounds (-1) 3))).
Proof.
  split; [reflexivity|]. split; [reflexivity|]. split.
  - apply (proj1 (readers_out_of_bounds map0 (-1) 3)). reflexivity.
  - apply (proj2 (readers_out_of_bounds map0 (-1) 3)). reflexivity.
Defined.

(** Claim C8 fails as stated: District and BuildingID do report an error
    for an out-of-bounds coordinate, here (-1, 3) on the 10x10 map. *)
Lemma District_out_of_bounds_error :
  District map0 (-1) 3 = (Empty, -1, Some (ErrOutOfBounds (-1) 3)) /\
  BuildingID map0 (-1) 3 = (-1, Some (ErrOutOfBounds (-1) 3)).
Proof. split; reflexivity. Qed.

(** The bounds check compares with [>] against Max: the column x = Max.X,
    outside the rectangle, passes it and reads the zero pixel. *)
Lemma District_at_max_edge :
  isOutOfBounds map0 10 3 = false /\ inRect (bounds map0) 10 3 = false /\
  District map0 10 3 = (Empty, 0, None) /\ BuildingID map0 10 3 = (0, None).
Proof. repeat split; reflexivity. Qed.

(** Claim C10: if before endDraw every pixel of the map carries at most
    one of the wall, tower and gatehouse flags (as the zero map does),
    then after endDraw every in-bounds pixel carries at most one of them;
    and every pixel endDraw commits gets exactly the decoded flag byte,
    replacing the prior one, while the pixels it skips keep theirs. *)
Theorem endDraw_fortifications_exclusive (c : imageMap) (wallBorderRoadWidth : Z)
    (outline : Outline) :
  forallb (fun p => atMostOneFort c (fst p) (snd p)) (coords (bounds c)) = true ->
  forall x y, inRect (bounds c) x y = true ->
  atMostOneFort (endDraw c wallBorderRoadWidth outline) x y = true /\
  getBM (endDraw c wallBorderRoadWidth outline) x y =
    match pixelBM (ctxAt c) wallBorderRoadWidth outline x y with
    | Some bm => bm
    | None => getBM c x y
    end.
Proof.
  intros Hpre x y Hin.
  assert (Hb : bounds (endDraw c wallBorderRoadWidth outline) = bounds c)
    by apply endDraw_fold_bounds.
  assert (Hbm : getBM (endDraw c wallBorderRoadWidth outline) x y =
    match pixelBM (ctxAt c) wallBorderRoadWidth outline x y with
    | Some bm => bm | None => getBM c x y end).
  { unfold endDraw. rewrite getBM_fold by exact Hin.
    rewrite existsb_coords by exact Hin.
    destruct (pixelBM (ctxAt c) wallBorderRoadWidth outline x y) eqn:E; [|reflexivity].
    exact (pixelBM_byte _ _ _ _ _ _ E). }
  split; [|exact Hbm].
  rewrite atMostOneFort_getBM by (rewrite Hb; exact Hin). rewrite Hbm.
  destruct (pixelBM (ctxAt c) wallBorderRoadWidth outline x y) eqn:E.
  - rewrite <- (pixelBM_byte _ _ _ _ _ _ E). exact (fortOK_pixelBM _ _ _ _ _ _ E).
  - rewrite <- atMostOneFort_getBM by exact Hin.
    rewrite forallb_forall in Hpre. apply (Hpre (x, y)). apply coords_In. exact Hin.
Qed.

(** A drawing surface with a gatehouse pixel at (1,1) and a road-and-wall
    pixel at (2,1) on the 10x10 map. *)
Definition drawn1 : imageMap :=
  mkImageMap (bounds map0) (im map0)
    (fun x y => if (x =? 1) && (y =? 1) then mkRGBA8 0 0 150 255
                else if (x =? 2) && (y =? 1) then mkRGBA8 1 0 60 255
                else zeroRGBA8).

Lemma endDraw_fortifications_exclusive_witness :
  forallb (fun p => atMostOneFort drawn1 (fst p) (snd p)) (coords (bounds drawn1)) = true /\
  inRect (bounds drawn1) 2 1 = true /\
  atMostOneFort (endDraw drawn1 0 river1) 2 1 = true /\
  getBM (endDraw drawn1 0 river1) 2 1 =
    match pixelBM (ctxAt drawn1) 0 river1 2 1 with
    | Some bm => bm
    | None => getBM drawn1 2 1
    end.
Proof.
  split; [vm_compute; reflexivity|]. split; [reflexivity|].
  apply (endDraw_fortifications_exclusive drawn1 0 river1); [vm_compute|]; reflexivity.
Defined.

End SpatialMapClaims.

(** ** Claims on the Voronoi queries *)
Module VoronoiClaims.
Import Voronoi.

(** Claim C5 (code bug): [SiteFor] tests [dist == 0] on the best distance
    found so far rather than on the current site's [sdist]; with a site
    exactly at the query point first, the scan returns the next site, at
    distance sqrt 200, not the site at distance 0. *)
Lemma SiteFor_skips_zero_distance_site :
  dist2 0 0 0 0 = 0 /\ SiteFor [(0, 0); (10, 10)] 0 0 = Some (10, 10).
Proof. split; reflexivity. Qed.

End VoronoiClaims.

(** ** deletionMethod: the maps and the two loops *)
Module CellFacts.
Import Cell.

Lemma ptEqb_true a b : ptEqb a b = true <-> a = b.
Proof.
  destruct a as [a1 a2], b as [b1 b2]. unfold ptEqb. cbn [fst snd].
  rewrite andb_true_iff, !Z.eqb_eq. split; [intros [-> ->]; reflexivity|].
  intros H; injection H as -> ->; auto.
Qed.

Lemma ptEqb_refl a : ptEqb a a = true.
Proof. apply ptEqb_true. reflexivity. Qed.

Lemma ptEqb_sym a b : ptEqb a b = ptEqb b a.
Proof.
  destruct (ptEqb a b) eqn:E, (ptEqb b a) eqn:F; try reflexivity;
    apply ptEqb_true in E || apply ptEqb_true in F; subst;
    rewrite ptEqb_refl in *; congruence.
Qed.

Lemma edgeEqb_true a b : edgeEqb a b = true <-> a = b.
Proof.
  destruct a as [a1 a2], b as [b1 b2]. unfold edgeEqb. cbn [fst snd].
  rewrite andb_true_iff, !ptEqb_true. split; [intros [-> ->]; reflexivity|].
  intros H; injection H as -> ->; auto.
Qed.

Lemma edgeEqb_sym a b : edgeEqb a b = edgeEqb b a.
Proof. unfold edgeEqb. rewrite (ptEqb_sym (fst a)), (ptEqb_sym (snd a)). reflexivity. Qed.

(** A fold that only ever sets keys to [true]. *)
Lemma fold_flags {A K} (step : (K -> bool) -> A -> K -> bool) (P : K -> A -> bool)
    (Hstep : forall m a k, step m a k = P k a || m k) (l : list A) m k :
  fold_left step l m k = existsb (P k) l || m k.
Proof.
  revert m. induction l as [|a l IH]; intros m; [reflexivity|].
  cbn [fold_left existsb]. rewrite IH, Hstep.
  destruct (P k a), (existsb (P k) l), (m k); reflexivity.
Qed.

(** A fold that only ever sets pairs of keys to [Some true]. *)
Lemma fold_links {A} (step : Neighbours -> A -> Neighbours) (P : Point -> Point -> A -> bool)
    (Hstep : forall m a x y, step m a x y = if P x y a then Some true else m x y)
    (l : list A) m x y :
  fold_left step l m x y = if existsb (P x y) l then Some true else m x y.
Proof.
  revert m. induction l as [|a l IH]; intros m; [reflexivity|].
  cbn [fold_left existsb]. rewrite IH, Hstep.
  destruct (P x y a), (existsb (P x y) l); reflexivity.
Qed.

Definition isVert (outside : list (list Edge)) (p : Point) : bool :=
  existsb (fun site => existsb (fun e => ptEqb (fst e) p || ptEqb (snd e) p) site) outside.

Definition isEdge (outside : list (list Edge)) (id : Edge) : bool :=
  existsb (fun site => existsb (fun e => edgeEqb (toEdgeID (fst e) (snd e)) id) site) outside.

Lemma vertOwnedOutside_spec outside p : vertOwnedOutside outside p = isVert outside p.
Proof.
  unfold vertOwnedOutside, isVert.
  rewrite (fold_flags _ (fun k site => existsb (fun e => ptEqb (fst e) k || ptEqb (snd e) k) site)).
  - apply orb_false_r.
  - intros m site k.
    rewrite (fold_flags _ (fun k e => ptEqb (fst e) k || ptEqb (snd e) k)); [reflexivity|].
    intros m' e k'. rewrite (ptEqb_sym (fst e)), (ptEqb_sym (snd e)).
    destruct (ptEqb k' (snd e)), (ptEqb k' (fst e)); reflexivity.
Qed.

Lemma edgeOwnedOutside_spec outside id : edgeOwnedOutside outside id = isEdge outside id.
Proof.
  unfold edgeOwnedOutside, isEdge.
  rewrite (fold_flags _ (fun k site => existsb (fun e => edgeEqb (toEdgeID (fst e) (snd e)) k) site)).
  - apply orb_false_r.
  - intros m site k.
    rewrite (fold_flags _ (fun k e => edgeEqb (toEdgeID (fst e) (snd e)) k)); [reflexivity|].
    intros m' e k'. rewrite edgeEqb_sym. reflexivity.
Qed.

Lemma buildNeighbours_spec inside v n :
  buildNeighbours inside v n = if insideLink inside v n then Some true else None.
Proof.
  unfold buildNeighbours, insideLink.
  rewrite (fold_links _ (fun x y site => existsb (fun e => edgeEqb e (x, y) || edgeEqb e (y, x)) site)).
  - reflexivity.
  - intros m site x y.
    apply (fold_links _ (fun x y e => edgeEqb e (x, y) || edgeEqb e (y, x))).
    intros m' [a b] x' y'. unfold setLink, edgeEqb. cbn [fst snd].
    rewrite (ptEqb_sym a x'), (ptEqb_sym b y'), (ptEqb_sym a y'), (ptEqb_sym b x').
    destruct (ptEqb x' b), (ptEqb y' a), (ptEqb x' a), (ptEqb y' b); reflexivity.
Qed.

Lemma toEdgeID_sym a b : toEdgeID a b = toEdgeID b a.
Proof.
  destruct a as [a1 a2], b as [b1 b2]. unfold toEdgeID, ptX, ptY. cbn [fst snd].
  destruct (b1 <? a1) eqn:E1, (a1 <? b1) eqn:E2, (a1 =? b1) eqn:E3, (b1 =? a1) eqn:E4,
    (b2 <? a2) eqn:E5, (a2 <? b2) eqn:E6; cbn [andb];
    rewrite ?Z.ltb_lt, ?Z.ltb_ge, ?Z.eqb_eq, ?Z.eqb_neq in *; try lia; try reflexivity;
    assert (a1 = b1) by lia; assert (a2 = b2) by lia; subst; reflexivity.
Qed.

Lemma existsb_ext_pw {A} (f g : A -> bool) (l : list A) :
  (forall x, f x = g x) -> existsb f l = existsb g l.
Proof. intros H. induction l as [|x l IH]; cbn; [reflexivity|]. rewrite H, IH. reflexivity. Qed.

Lemma insideLink_sym inside v n : insideLink inside v n = insideLink inside n v.
Proof.
  unfold insideLink. apply existsb_ext_pw. intros site.
  apply existsb_ext_pw. intros e. apply orb_comm.
Qed.

Lemma keepLink_eq bnds outside v n :
  keepLink bnds outside v n =
  (isVert outside v && isVert outside n && isEdge outside (toEdgeID v n)) ||
  (onBorder bnds v && onBorder bnds n).
Proof. reflexivity. Qed.

Lemma keepLink_sym bnds outside v n : keepLink bnds outside v n = keepLink bnds outside n v.
Proof.
  rewrite !keepLink_eq, (toEdgeID_sym v n).
  destruct (isVert outside v), (isVert outside n), (onBorder bnds v), (onBorder bnds n);
    reflexivity.
Qed.

(** The deletion loop's step, with the survival test abstracted. *)
Definition dstep (keep : Point -> Point -> bool) (nb : Neighbours) (vn : Edge) : Neighbours :=
  let '(v, n) := vn in
  match nb v n with
  | Some true => if keep v n then nb else setLink (setLink nb n v false) v n false
  | _ => nb
  end.

Lemma deleteStep_dstep bnds outside nb vn :
  deleteStep bnds (vertOwnedOutside outside) (edgeOwnedOutside outside) nb vn =
  dstep (keepLink bnds outside) nb vn.
Proof.
  destruct vn as [v n]. unfold deleteStep, dstep.
  destruct (nb v n) as [[|]|]; try reflexivity.
  rewrite !vertOwnedOutside_spec, edgeOwnedOutside_spec.
  rewrite keepLink_eq.
  destruct (isVert outside v && isVert outside n && isEdge outside (toEdgeID v n)); [reflexivity|].
  cbn [orb]. rewrite andb_comm. reflexivity.
Qed.

Section DeleteLoop.
Variables (link keep : Point -> Point -> bool).
Hypothesis link_sym : forall v n, link v n = link n v.
Hypothesis keep_sym : forall v n, keep v n = keep n v.

Definition visited (l : list Edge) (v n : Point) : bool :=
  existsb (edgeEqb (v, n)) l || existsb (edgeEqb (n, v)) l.

Definition delInv (nb : Neighbours) (l : list Edge) : Prop :=
  forall v n, nb v n = if link v n then Some (keep v n || negb (visited l v n)) else None.

Lemma visited_snoc l a b v n :
  visited (l ++ [(a, b)]) v n =
  visited l v n || edgeEqb (v, n) (a, b) || edgeEqb (n, v) (a, b).
Proof.
  unfold visited. rewrite !existsb_app. cbn [existsb]. rewrite !orb_false_r.
  unfold Edge. btauto.
Qed.

Lemma visited_sym l v n : visited l v n = visited l n v.
Proof. unfold visited. apply orb_comm. Qed.

Lemma dstep_inv nb l a b : delInv nb l -> delInv (dstep keep nb (a, b)) (l ++ [(a, b)]).
Proof.
  intros H v n. rewrite visited_snoc.
  pose proof (H a b) as Hab. unfold dstep.
  destruct (edgeEqb (v, n) (a, b)) eqn:E1;
    [apply edgeEqb_true in E1; injection E1 as -> ->|];
    [|destruct (edgeEqb (n, v) (a, b)) eqn:E2;
      [apply edgeEqb_true in E2; injection E2 as -> ->|]].
  - rewrite !orb_true_r. cbn [negb]. rewrite orb_false_r.
    destruct (nb a b) as [[|]|] eqn:Enb.
    + destruct (link a b); [|discriminate].
      destruct (keep a b) eqn:K; [exact Enb|].
      unfold setLink. rewrite !ptEqb_refl. reflexivity.
    + rewrite Enb. destruct (link a b); [|discriminate].
      destruct (keep a b); [discriminate|reflexivity].
    + rewrite Enb. destruct (link a b); [discriminate|reflexivity].
  - rewrite !orb_true_r. cbn [negb]. rewrite orb_false_r.
    rewrite (link_sym b a), (keep_sym b a).
    destruct (nb a b) as [[|]|] eqn:Enb.
    + destruct (keep a b) eqn:K.
      * rewrite H, (link_sym b a), (keep_sym b a), K. reflexivity.
      * unfold setLink. rewrite !ptEqb_refl. cbn [andb].
        destruct (ptEqb b a && ptEqb a b); destruct (link a b); try reflexivity; discriminate.
    + rewrite H, (link_sym b a), (keep_sym b a), (visited_sym l b a).
      destruct (link a b); [|discriminate].
      destruct (keep a b), (visited l a b); cbn in *; congruence.
    + rewrite H, (link_sym b a). destruct (link a b); [discriminate|reflexivity].
  - rewrite !orb_false_r.
    assert (Hother : forall nb', setLink (setLink nb' b a false) a b false v n = nb' v n).
    { intros nb'. unfold setLink.
      destruct (ptEqb v a && ptEqb n b) eqn:F1.
      - apply andb_true_iff in F1 as [F1 F2]. apply ptEqb_true in F1, F2. subst.
        unfold edgeEqb in E1. cbn [fst snd] in E1. rewrite !ptEqb_refl in E1. discriminate.
      - destruct (ptEqb v b && ptEqb n a) eqn:F3; [|reflexivity].
        apply andb_true_iff in F3 as [F3 F4]. apply ptEqb_true in F3, F4. subst.
        unfold edgeEqb in E2. cbn [fst snd] in E2. rewrite !ptEqb_refl in E2. discriminate. }
    destruct (nb a b) as [[|]|]; try apply H.
    destruct (keep a b); [apply H|]. rewrite Hother. apply H.
Qed.

Lemma delete_loop_inv nb l : delInv nb [] -> delInv (fold_left (dstep keep) l nb) l.
Proof.
  intros H0. induction l as [|x l IH] using rev_ind; [exact H0|].
  destruct x as [a b]. rewrite fold_left_app. cbn [fold_left]. apply dstep_inv. exact IH.
Qed.

End DeleteLoop.

Lemma collect_In nb l acc x :
  In x (fold_left (collectStep nb) l acc) <->
  In x acc \/ (In x l /\ nb (fst x) (snd x) = Some true).
Proof.
  revert acc. induction l as [|y l IH]; intros acc; cbn [fold_left].
  - split; [auto|]. intros [H|[[] _]]; exact H.
  - rewrite IH. unfold collectStep.
    destruct (nb (fst y) (snd y)) as [[|]|] eqn:E; cbn [In];
      rewrite ?in_app_iff; cbn [In]; intuition (subst; try congruence).
Qed.

Lemma insideLink_key inside v n :
  insideLink inside v n = true -> In (v, n) (linkKeys inside).
Proof.
  unfold insideLink, linkKeys. intros H.
  apply existsb_exists in H as (site & Hs & H). apply existsb_exists in H as (e & He & H).
  apply in_flat_map. exists site. split; [exact Hs|]. apply in_flat_map. exists e.
  split; [exact He|]. destruct e as [a b]. cbn [fst snd In].
  apply orb_true_iff in H as [H|H]; apply edgeEqb_true in H; injection H as -> ->; auto.
Qed.

Lemma coversKeys_In inside order v n :
  coversKeys inside order = true -> insideLink inside v n = true -> In (v, n) order.
Proof.
  unfold coversKeys. intros Hc Hl. rewrite forallb_forall in Hc.
  specialize (Hc _ (insideLink_key _ _ _ Hl)).
  apply existsb_exists in Hc as (k & Hk & E). apply edgeEqb_true in E. subst. exact Hk.
Qed.

Lemma In_visited l v n : In (v, n) l -> visited l v n = true.
Proof.
  intros H. unfold visited. apply orb_true_iff. left. apply existsb_exists.
  exists (v, n). split; [exact H|]. apply edgeEqb_true. reflexivity.
Qed.

Lemma fold_deleteStep bnds outside l nb :
  fold_left (deleteStep bnds (vertOwnedOutside outside) (edgeOwnedOutside outside)) l nb =
  fold_left (dstep (keepLink bnds outside)) l nb.
Proof.
  revert nb. induction l as [|vn l IH]; intros nb; [reflexivity|].
  cbn [fold_left]. rewrite deleteStep_dstep. apply IH.
Qed.

End CellFacts.

(** ** Claims on the boundary extractor *)
Module CellClaims.
Import Cell CellFacts.

(** Claim C4: whatever orders the runtime gives to the iterations over
    [neighbours] (each loop visiting every key), the links [(v, n)]
    returned by deletionMethod (Circut) are exactly the links of edges of
    inside sites, in either direction, that (a) have both ends among the
    outside sites' vertices and the edge among the outside sites' edges,
    or (b) have both ends within one unit of the map boundary. *)
Theorem deletionMethod_links (bnds : Rectangle) (inside outside : list (list Edge))
    (order order2 : list Edge) :
  coversKeys inside order = true ->
  coversKeys inside order2 = true ->
  forall v n,
    In (v, n) (deletionMethod bnds inside outside order order2) <->
    insideLink inside v n = true /\ keepLink bnds outside v n = true.
Proof.
  intros Hc1 Hc2 v n. unfold deletionMethod.
  rewrite fold_deleteStep, collect_In. cbn [fst snd In].
  assert (Hinv := delete_loop_inv (insideLink inside) (keepLink bnds outside)
    (insideLink_sym inside) (keepLink_sym bnds outside)
    (buildNeighbours inside) order).
  rewrite Hinv.
  2: { intros x y. rewrite buildNeighbours_spec. unfold visited. cbn [existsb orb negb].
       rewrite orb_true_r. reflexivity. }
  split.
  - intros [[]|[_ H]].
    destruct (insideLink inside v n) eqn:L; [|discriminate].
    rewrite (In_visited _ _ _ (coversKeys_In _ _ _ _ Hc1 L)) in H.
    rewrite orb_false_r in H. injection H as H. auto.
  - intros [L K]. right. split; [exact (coversKeys_In _ _ _ _ Hc2 L)|].
    rewrite L, K. reflexivity.
Qed.

(** Two unit squares side by side inside a 10x10 frame: the left one
    inside, the right one outside; the shared edge survives by (a), the
    edges along the frame edge x = 1 and y = 9 by (b) only where both ends
    lie within one unit of the frame. *)
Definition squareL : list Edge := [((1, 8), (2, 8)); ((2, 8), (2, 9)); ((2, 9), (1, 9)); ((1, 9), (1, 8))].
Definition squareR : list Edge := [((2, 8), (3, 8)); ((3, 8), (3, 9)); ((3, 9), (2, 9)); ((2, 9), (2, 8))].

Lemma deletionMethod_links_witness :
  coversKeys [squareL] (linkKeys [squareL]) = true /\
  coversKeys [squareL] (rev (linkKeys [squareL])) = true /\
  (In ((2, 8), (2, 9)) (deletionMethod (Rect (0, 0) (10, 10)) [squareL] [squareR]
       (linkKeys [squareL]) (rev (linkKeys [squareL]))) <->
   insideLink [squareL] (2, 8) (2, 9) = true /\
   keepLink (Rect (0, 0) (10, 10)) [squareR] (2, 8) (2, 9) = true).
Proof.
  split; [vm_compute; reflexivity|]. split; [vm_compute; reflexivity|].
  apply deletionMethod_links; vm_compute; reflexivity.
Defined.

End CellClaims.

(** ** addWalls: the partition, the sort and the promotion *)
Module WallsFacts.
Import Walls.

Definition isOutside (ds : list District) (i : nat) : bool :=
  negb (HasCurtainFortifications (distAt ds i)) && negb (HasFortifications (distAt ds i)).
Definition isInside (ds : list District) (i : nat) : bool :=
  negb (HasCurtainFortifications (distAt ds i)) && HasFortifications (distAt ds i).

Lemma partition_fold ds l c0 i0 o0 :
  fold_left (fun acc i =>
    let '(curtain, inside, outside) := acc in
    let d := distAt ds i in
    if HasCurtainFortifications d then (curtain ++ [i], inside, outside)
    else if HasFortifications d then (curtain, inside ++ [i], outside)
    else (curtain, inside, outside ++ [i])) l (c0, i0, o0) =
  (c0 ++ filter (fun i => HasCurtainFortifications (distAt ds i)) l,
   i0 ++ filter (isInside ds) l, o0 ++ filter (isOutside ds) l).
Proof.
  revert c0 i0 o0. induction l as [|i l IH]; intros c0 i0 o0.
  - cbn. rewrite !app_nil_r. reflexivity.
  - cbn [fold_left filter]. unfold isInside, isOutside.
    destruct (HasCurtainFortifications (distAt ds i)), (HasFortifications (distAt ds i));
      cbn [negb andb]; rewrite IH; unfold isInside, isOutside; rewrite <- ?app_assoc; reflexivity.
Qed.

Lemma partitionDists_eq ds :
  partitionDists ds =
  (filter (fun i => HasCurtainFortifications (distAt ds i)) (seq 0 (length ds)),
   filter (isInside ds) (seq 0 (length ds)), filter (isOutside ds) (seq 0 (length ds))).
Proof. unfold partitionDists. rewrite partition_fold. reflexivity. Qed.

Lemma outside_In ds i :
  In i (filter (isOutside ds) (seq 0 (length ds))) ->
  (i < length ds)%nat /\ HasFortifications (distAt ds i) = false.
Proof.
  rewrite filter_In, in_seq. unfold isOutside. intros [H1 H2].
  apply andb_true_iff in H2 as [_ H2]. apply negb_true_iff in H2. split; [lia|exact H2].
Qed.

Lemma isPermb_Permutation l l' : isPermb l l' = true -> Permutation l l'.
Proof.
  unfold isPermb. intros H. apply (Permutation_count_occ Nat.eq_dec). intros x.
  rewrite forallb_forall in H.
  destruct (in_dec Nat.eq_dec x (l ++ l')) as [Hin|Hout].
  - apply Nat.eqb_eq. apply H. exact Hin.
  - rewrite in_app_iff in Hout.
    rewrite (proj1 (count_occ_not_In Nat.eq_dec l x)) by tauto.
    rewrite (proj1 (count_occ_not_In Nat.eq_dec l' x)) by tauto. reflexivity.
Qed.

Lemma sortedb_head key a l : sortedb key (a :: l) = true -> Forall (fun j => key a <= key j) l.
Proof.
  revert a. induction l as [|b l IH]; intros a H; [constructor|].
  cbn [sortedb] in H. apply andb_true_iff in H as [Hab Hl]. apply Z.leb_le in Hab.
  constructor; [exact Hab|].
  specialize (IH b Hl). eapply Forall_impl; [|exact IH]. cbn. lia.
Qed.

Lemma sortedb_tail key a l : sortedb key (a :: l) = true -> sortedb key l = true.
Proof. destruct l as [|b l]; [reflexivity|]. cbn [sortedb]. intros H. apply andb_true_iff in H. apply H. Qed.

Lemma sortedb_split key l k i j :
  sortedb key l = true -> In i (firstn k l) -> In j (skipn k l) -> key i <= key j.
Proof.
  revert k. induction l as [|a l IH]; intros k Hs Hi Hj.
  - destruct k; contradiction.
  - destruct k as [|k]; [contradiction|]. cbn [firstn skipn In] in Hi, Hj.
    destruct Hi as [<-|Hi].
    + apply sortedb_head in Hs. rewrite Forall_forall in Hs. apply Hs.
      rewrite <- (firstn_skipn k l). apply in_or_app. right. exact Hj.
    + apply (IH k); [apply (sortedb_tail key a)|..]; assumption.
Qed.

Lemma nth_error_setNth {A} (l : list A) i f j :
  nth_error (setNth l i f) j = if Nat.eqb i j then option_map f (nth_error l j) else nth_error l j.
Proof.
  revert i j. induction l as [|x l IH]; intros i j.
  - destruct i, j; cbn; try destruct (Nat.eqb i j); reflexivity.
  - destruct i as [|i], j as [|j]; cbn [setNth nth_error Nat.eqb]; try reflexivity.
    apply IH.
Qed.

Lemma promote_fold l ds j :
  nth_error (fold_left (fun ds i => setNth ds i setFortified) l ds) j =
  if existsb (Nat.eqb j) l then option_map setFortified (nth_error ds j) else nth_error ds j.
Proof.
  revert ds. induction l as [|a l IH]; intros ds; [reflexivity|].
  cbn [fold_left existsb]. rewrite IH, nth_error_setNth, (Nat.eqb_sym a j).
  destruct (Nat.eqb j a), (existsb (Nat.eqb j) l); cbn [orb]; try reflexivity.
  destruct (nth_error ds j); reflexivity.
Qed.

Lemma existsb_eqb_In j l : existsb (Nat.eqb j) l = true <-> In j l.
Proof.
  rewrite existsb_exists. split.
  - intros (x & Hx & E). apply Nat.eqb_eq in E. subst. exact Hx.
  - intros H. exists j. split; [exact H|]. apply Nat.eqb_refl.
Qed.

Lemma distAt_promoted l ds i :
  (i < length ds)%nat -> In i l ->
  HasFortifications (distAt (fold_left (fun ds i => setNth ds i setFortified) l ds) i) = true.
Proof.
  intros Hlt Hin. unfold distAt.
  destruct (nth_error ds i) as [d|] eqn:E; [|apply nth_error_None in E; lia].
  assert (H : nth_error (fold_left (fun ds i => setNth ds i setFortified) l ds) i =
    Some (setFortified d)).
  { rewrite promote_fold, (proj2 (existsb_eqb_In _ _) Hin), E. reflexivity. }
  rewrite (nth_error_nth _ _ emptyDistrict H). reflexivity.
Qed.

End WallsFacts.

(** ** Claims on addWalls *)
Module WallsClaims.
Import Walls WallsFacts.

Definition insideOf (ds : list District) : list nat := snd (fst (partitionDists ds)).
Definition outsideOf (ds : list District) : list nat := snd (partitionDists ds).

(** Claim C7: with [MinFortifiedSites = m], [f < m] districts flagged
    inside, and more than [m - f] outside districts, addWalls promotes
    exactly [m - f] outside districts: they are appended to the inside
    districts, their [HasFortifications] flag (false before) is set in
    the store and no other district changes; the promoted and the
    remaining outside districts are together the former outside ones, and
    no promoted district is farther from the centre than a remaining one
    (ties at the cut may go either way, as [sort.Slice] is not stable). *)
Theorem addWalls_promotes_nearest (ds : list District) (centre : Point) (m : Z)
    (sortByDistance : list nat -> list nat) :
  Z.of_nat (length (insideOf ds)) < m ->
  m - Z.of_nat (length (insideOf ds)) < Z.of_nat (length (outsideOf ds)) ->
  isPermb (outsideOf ds) (sortByDistance (outsideOf ds)) = true ->
  sortedb (distKey ds centre) (sortByDistance (outsideOf ds)) = true ->
  let r := chooseInside ds centre m sortByDistance in
  let ds' := fst (fst (fst r)) in
  let inside' := snd (fst (fst r)) in
  let outside' := snd (fst r) in
  exists promoted,
    Z.of_nat (length promoted) = m - Z.of_nat (length (insideOf ds)) /\
    inside' = insideOf ds ++ promoted /\
    Permutation (promoted ++ outside') (outsideOf ds) /\
    (forall i, In i promoted ->
       HasFortifications (distAt ds i) = false /\ HasFortifications (distAt ds' i) = true) /\
    (forall i, ~ In i promoted -> nth_error ds' i = nth_error ds i) /\
    (forall i j, In i promoted -> In j outside' -> distKey ds centre i <= distKey ds centre j).
Proof.
  unfold insideOf, outsideOf. intros Hf Hn Hp Hs. cbv zeta. unfold chooseInside.
  destruct (partitionDists ds) as [[curtain inside] outside] eqn:Ep. cbn [fst snd] in *.
  rewrite (proj2 (Z.ltb_lt 0 _)) by lia.
  rewrite (proj2 (Z.leb_gt _ _)) by lia. cbn [fst snd].
  set (k := Z.to_nat (m - Z.of_nat (length inside))).
  set (sorted := sortByDistance outside).
  apply isPermb_Permutation in Hp. fold sorted in Hp, Hs.
  assert (Hout : forall i, In i outside -> (i < length ds)%nat /\ HasFortifications (distAt ds i) = false).
  { intros i Hi. rewrite partitionDists_eq in Ep. injection Ep as _ _ <-. apply outside_In. exact Hi. }
  assert (Hlen : length sorted = length outside) by (symmetry; apply Permutation_length; exact Hp).
  assert (Hprom : forall i, In i (firstn k sorted) -> In i outside).
  { intros i Hi. apply (Permutation_in _ (Permutation_sym Hp)).
    rewrite <- (firstn_skipn k sorted). apply in_or_app. left. exact Hi. }
  exists (firstn k sorted). split; [|split; [|split; [|split; [|split]]]].
  - rewrite length_firstn. unfold k. lia.
  - reflexivity.
  - rewrite firstn_skipn. symmetry. exact Hp.
  - intros i Hi. destruct (Hout i (Hprom i Hi)) as [Hlt Hf0].
    split; [exact Hf0|]. apply distAt_promoted; assumption.
  - intros i Hi. rewrite promote_fold.
    destruct (existsb (Nat.eqb i) (firstn k sorted)) eqn:E; [|reflexivity].
    apply existsb_eqb_In in E. contradiction.
  - intros i j Hi Hj. apply (sortedb_split _ sorted k); assumption.
Qed.

(** Four districts flagged inside, three outside and one curtain-walled
    district, centre (50, 50), [MinFortifiedSites = 6]. *)
Definition sampleDistricts : list District :=
  [mkDistrict 0 Fortress (10, 10) true false; mkDistrict 1 Civic (20, 20) true false;
   mkDistrict 2 Temple (30, 30) true false; mkDistrict 3 Market (40, 40) true false;
   mkDistrict 4 Fields (90, 90) false false; mkDistrict 5 Park (55, 50) false false;
   mkDistrict 6 Docks (50, 70) false false; mkDistrict 7 Prison (0, 0) false true].

Definition sampleSort : list nat -> list nat := insertionSort (distKey sampleDistricts (50, 50)).

Lemma addWalls_promotes_nearest_witness :
  (Z.of_nat (length (insideOf sampleDistricts)) < 6 /\
   6 - Z.of_nat (length (insideOf sampleDistricts)) < Z.of_nat (length (outsideOf sampleDistricts)) /\
   isPermb (outsideOf sampleDistricts) (sampleSort (outsideOf sampleDistricts)) = true /\
   sortedb (distKey sampleDistricts (50, 50)) (sampleSort (outsideOf sampleDistricts)) = true) /\
  (let r := chooseInside sampleDistricts (50, 50) 6 sampleSort in
   let ds' := fst (fst (fst r)) in
   let inside' := snd (fst (fst r)) in
   let outside' := snd (fst r) in
   exists promoted,
     Z.of_nat (length promoted) = 6 - Z.of_nat (length (insideOf sampleDistricts)) /\
     inside' = insideOf sampleDistricts ++ promoted /\
     Permutation (promoted ++ outside') (outsideOf sampleDistricts) /\
     (forall i, In i promoted ->
        HasFortifications (distAt sampleDistricts i) = false /\ HasFortifications (distAt ds' i) = true) /\
     (forall i, ~ In i promoted -> nth_error ds' i = nth_error sampleDistricts i) /\
     (forall i j, In i promoted -> In j outside' ->
        distKey sampleDistricts (50, 50) i <= distKey sampleDistricts (50, 50) j)).
Proof.
  split; [vm_compute; repeat split; reflexivity|].
  apply addWalls_promotes_nearest; vm_compute; reflexivity.
Defined.

(** On this sample the two outside districts nearest the centre, 5 and
    6, are promoted and flagged. *)
Lemma addWalls_sample_promotion :
  snd (fst (fst (chooseInside sampleDistricts (50, 50) 6 sampleSort))) = [0; 1; 2; 3; 5; 6]%nat /\
  snd (fst (chooseInside sampleDistricts (50, 50) 6 sampleSort)) = [4%nat] /\
  map HasFortifications (fst (fst (fst (chooseInside sampleDistricts (50, 50) 6 sampleSort)))) =
    [true; true; true; true; false; true; true; false].
Proof. vm_compute. repeat split; reflexivity. Qed.

End WallsClaims.

(** ** Tower placement: one placement, and the loop along a path *)
Module TowersFacts.
Import Towers.

Lemma centre_mkRect px py hw hh :
  centre (mkRect (px - hw) (py - hh) (px + hw) (py + hh)) = (px, py).
Proof.
  unfold centre, mkRect, ptX, ptY. cbn [rMin rMax fst snd].
  replace (Z.max (px - hw) (px + hw) + Z.min (px - hw) (px + hw)) with (px * 2) by lia.
  replace (Z.max (py - hh) (py + hh) + Z.min (py - hh) (py + hh)) with (py * 2) by lia.
  rewrite !Z.quot_mul by lia. reflexivity.
Qed.

Lemma centre_towerFits cmap outline twr px py :
  centre (fst (towerFits cmap outline twr px py)) = (px, py).
Proof. apply centre_mkRect. Qed.

Lemma intDist_nonneg a b : 0 <= intDist a b.
Proof. apply Z.sqrt_nonneg. Qed.

Lemma tryPlaceTower_spec cmap outline twr allTowers towers p s :
  tryPlaceTower cmap outline twr allTowers towers p s = towers \/
  exists t, tryPlaceTower cmap outline twr allTowers towers p s = towers ++ [t] /\
    centre t = p /\
    forall u, In u (allTowers ++ towers) -> s <= intDist (centre u) (centre t).
Proof.
  unfold tryPlaceTower.
  pose proof (centre_towerFits cmap outline twr (ptX p) (ptY p)) as Hc.
  destruct (towerFits cmap outline twr (ptX p) (ptY p)) as [tower ok].
  cbn [fst] in Hc. destruct p as [px py]. cbn [ptX ptY] in Hc.
  destruct ok; cbn [negb]; [|left; reflexivity].
  destruct ((0 <? s) && existsb _ _) eqn:E; [left; reflexivity|].
  right. exists tower. split; [reflexivity|]. split; [exact Hc|].
  intros u Hu. rewrite Hc.
  destruct (0 <? s) eqn:Hs; cbn [andb] in E.
  - apply Z.ltb_lt in Hs.
    assert (Hn : existsb (fun t => intDist (centre t) (px, py) <? s) (allTowers ++ towers) = false) by exact E.
    destruct (intDist (centre u) (px, py) <? s) eqn:F.
    + assert (existsb (fun t => intDist (centre t) (px, py) <? s) (allTowers ++ towers) = true)
        by (apply existsb_exists; exists u; split; [exact Hu|exact F]). congruence.
    + apply Z.ltb_ge in F. exact F.
  - apply Z.ltb_ge in Hs. apply Z.le_trans with 0; [exact Hs|apply intDist_nonneg].
Qed.

Lemma fillLoop_spec cmap outline twr allTowers pnts mdbt fuel i towers :
  0 <= i -> 0 < mdbt ->
  exists mids,
    fillLoop cmap outline twr allTowers pnts mdbt fuel i towers = towers ++ mids /\
    Forall (fun t => In (centre t) pnts) mids /\
    spaced mdbt (allTowers ++ towers) mids.
Proof.
  revert i towers. induction fuel as [|fuel IH]; intros i towers Hi Hm.
  - exists []. rewrite app_nil_r. repeat split; constructor.
  - cbn [fillLoop]. destruct (i <? Z.of_nat (length pnts)) eqn:Hlt.
    2: { exists []. rewrite app_nil_r. repeat split; constructor. }
    apply Z.ltb_lt in Hlt.
    destruct (tryPlaceTower_spec cmap outline twr allTowers towers
                (nth (Z.to_nat i) pnts (0, 0)) mdbt) as [E|(t & E & Hc & Hsp)];
      rewrite E.
    + apply IH; lia.
    + destruct (IH (i + mdbt) (towers ++ [t]) ltac:(lia) Hm) as (mids & E' & Hin & Hs).
      exists (t :: mids). rewrite E', <- app_assoc. split; [reflexivity|]. split.
      * constructor; [|exact Hin]. rewrite Hc. apply nth_In. lia.
      * split; [exact Hsp|]. rewrite <- app_assoc. exact Hs.
Qed.

End TowersFacts.

(** ** Claims on tower placement *)
Module TowersClaims.
Import Towers TowersFacts.

(** Claim C6: for [MinDistBetweenTowers = mdbt > 0], the towers a call
    [fillWithTowers a b] adds are first at most two endpoint towers
    (centred on [a] or [b]), each at integer distance at least [mdbt/2]
    (Go's integer half) from the centre of every tower placed before it,
    then towers centred on points of the path, each at integer distance
    at least [mdbt] from the centre of every tower placed before it
    (those of earlier walls, earlier calls, and this call). *)
Theorem fillWithTowers_spacing (cmap : imageMap) (outline : Outline) (twr : Rectangle)
    (mdbt : Z) (allTowers towers : list Rectangle) (a b : Point) :
  0 < mdbt ->
  exists ends mids,
    fillWithTowers cmap outline twr mdbt allTowers towers a b = towers ++ ends ++ mids /\
    (length ends <= 2)%nat /\
    Forall (fun t => centre t = a \/ centre t = b) ends /\
    spaced (Z.quot mdbt 2) (allTowers ++ towers) ends /\
    Forall (fun t => In (centre t) (Line.PointsBetween a b)) mids /\
    spaced mdbt (allTowers ++ towers ++ ends) mids.
Proof.
  intros Hm. unfold fillWithTowers.
  set (s := Z.quot mdbt 2).
  destruct (tryPlaceTower_spec cmap outline twr allTowers towers a s)
    as [E1|(t1 & E1 & Hc1 & Hs1)]; rewrite E1.
  - destruct (tryPlaceTower_spec cmap outline twr allTowers towers b s)
      as [E2|(t2 & E2 & Hc2 & Hs2)]; rewrite E2.
    + destruct (fillLoop_spec cmap outline twr allTowers (Line.PointsBetween a b) mdbt
        (length (Line.PointsBetween a b)) mdbt towers ltac:(lia) Hm) as (mids & E & Hin & Hs).
      exists [], mids. rewrite E. repeat split; auto; rewrite app_nil_r; assumption.
    + destruct (fillLoop_spec cmap outline twr allTowers (Line.PointsBetween a b) mdbt
        (length (Line.PointsBetween a b)) mdbt (towers ++ [t2]) ltac:(lia) Hm) as (mids & E & Hin & Hs).
      exists [t2], mids. rewrite E, <- app_assoc. repeat split; auto.
  - destruct (tryPlaceTower_spec cmap outline twr allTowers (towers ++ [t1]) b s)
      as [E2|(t2 & E2 & Hc2 & Hs2)]; rewrite E2.
    + destruct (fillLoop_spec cmap outline twr allTowers (Line.PointsBetween a b) mdbt
        (length (Line.PointsBetween a b)) mdbt (towers ++ [t1]) ltac:(lia) Hm) as (mids & E & Hin & Hs).
      exists [t1], mids. rewrite E, <- app_assoc. repeat split; auto.
    + destruct (fillLoop_spec cmap outline twr allTowers (Line.PointsBetween a b) mdbt
        (length (Line.PointsBetween a b)) mdbt ((towers ++ [t1]) ++ [t2]) ltac:(lia) Hm)
        as (mids & E & Hin & Hs).
      exists [t1; t2], mids. rewrite E, <- !app_assoc. cbn [app].
      repeat split; auto.
      * intros u Hu. apply Hs2. rewrite app_assoc. exact Hu.
      * rewrite <- !app_assoc in Hs. exact Hs.
Qed.

(** A 2x2 tower, [MinDistBetweenTowers = 3], a wall from (2,5) to (9,5)
    over buildable ground, one earlier tower centred at (4,5). *)
Definition twr2 : Rectangle := Rect (0, 0) (2, 2).
Definition earlierTowers : list Rectangle := [Rect (3, 4) (5, 6)].

Lemma fillWithTowers_spacing_witness :
  0 < 3 /\
  exists ends mids,
    fillWithTowers Samples.map0 Samples.river1 twr2 3 earlierTowers [] (2, 5) (9, 5) = [] ++ ends ++ mids /\
    (length ends <= 2)%nat /\
    Forall (fun t => centre t = (2, 5) \/ centre t = (9, 5)) ends /\
    spaced (Z.quot 3 2) (earlierTowers ++ []) ends /\
    Forall (fun t => In (centre t) (Line.PointsBetween (2, 5) (9, 5))) mids /\
    spaced 3 (earlierTowers ++ [] ++ ends) mids.
Proof. split; [reflexivity|]. apply fillWithTowers_spacing. reflexivity. Defined.

(** On this sample both endpoint towers are placed, the one at (2,5) at
    distance 2 from the earlier tower (half spacing 1), and the path
    candidates (5,5) and (8,5) are refused. *)
Lemma fillWithTowers_sample :
  map centre (fillWithTowers Samples.map0 Samples.river1 twr2 3 earlierTowers [] (2, 5) (9, 5)) =
    [(2, 5); (9, 5)].
Proof. vm_compute. reflexivity. Qed.

End TowersClaims.

(** ** Facts about the district type assignment *)
Module AssignFacts.
Import Walls Assign.

Lemma dt_eqb_true a b : dt_eqb a b = true <-> a = b.
Proof. unfold dt_eqb. destruct (DistrictType_eq_dec a b); split; congruence. Qed.

Ltac dt_cases :=
  unfold dt_eqb in *; repeat destruct DistrictType_eq_dec; subst; try congruence.

Lemma countType_nil t : countType [] t = 0.
Proof. reflexivity. Qed.

Lemma countType_cons a l t :
  countType (a :: l) t = (if dt_eqb t a then 1 else 0) + countType l t.
Proof.
  unfold countType; cbn [count_occ]. dt_cases; lia.
Qed.

Lemma countType_app l1 l2 t : countType (l1 ++ l2) t = countType l1 t + countType l2 t.
Proof. unfold countType. rewrite count_occ_app. lia. Qed.

Lemma countType_repeat a k t :
  countType (repeat a k) t = if dt_eqb t a then Z.of_nat k else 0.
Proof.
  unfold countType. dt_cases.
  - rewrite count_occ_repeat_eq; reflexivity.
  - rewrite count_occ_repeat_neq; auto.
Qed.

Lemma countType_perm l l' t : Permutation l l' -> countType l t = countType l' t.
Proof. intros H. unfold countType. rewrite (proj1 (Permutation_count_occ _ l l') H). reflexivity. Qed.

Lemma countType_nonneg l t : 0 <= countType l t.
Proof. unfold countType. lia. Qed.

Lemma length_setNth {A} (l : list A) i f : length (setNth l i f) = length l.
Proof. revert i; induction l as [|x l IH]; intros [|i]; cbn; auto. Qed.

Lemma nth_setNth_same {A} (l : list A) i f d :
  (i < length l)%nat -> nth i (setNth l i f) d = f (nth i l d).
Proof.
  revert i; induction l as [|x l IH]; intros [|i] Hi; cbn in *; try lia; auto.
  apply IH. lia.
Qed.

Lemma nth_setNth_other {A} (l : list A) i j f d :
  i <> j -> nth j (setNth l i f) d = nth j l d.
Proof.
  revert i j; induction l as [|x l IH]; intros [|i] [|j] Hij; cbn; auto; try congruence.
Qed.

Lemma countType_setNth l i x t :
  (i < length l)%nat ->
  countType (setNth l i (fun _ => x)) t =
  countType l t - (if dt_eqb t (nth i l Empty) then 1 else 0) + (if dt_eqb t x then 1 else 0).
Proof.
  revert i; induction l as [|a l IH]; intros [|i] Hi; cbn [length] in Hi; try lia.
  - cbn [setNth nth]. rewrite !countType_cons. lia.
  - cbn [setNth nth]. rewrite !countType_cons, IH by lia. lia.
Qed.

Lemma fold_increment types s t :
  fold_left increment types s t = s t + countType types t.
Proof.
  revert s; induction types as [|a l IH]; intros s; cbn [fold_left].
  - rewrite countType_nil. lia.
  - rewrite IH, countType_cons. unfold increment. dt_cases; lia.
Qed.

(** Every named type occurs once in [allDistricts]. *)
Lemma count_allDistricts t :
  In t allDistricts -> count_occ DistrictType_eq_dec allDistricts t = 1%nat.
Proof. destruct t; intros H; try reflexivity. cbn in H. intuition discriminate. Qed.

Definition minCount (cfg : Config) (stats : CityStats) (t : DistrictType) : Z :=
  match cfg t with
  | Some dc => Z.of_nat (Z.to_nat (MinInCity dc - stats t))
  | None => 0
  end.

Lemma minTypes_fold cfg stats l d0 tmp0 :
  (forall t, tmp0 t = countType d0 t) ->
  forall t,
    snd (fold_left (minStep cfg stats) l (d0, tmp0)) t =
      countType (fst (fold_left (minStep cfg stats) l (d0, tmp0))) t /\
    countType (fst (fold_left (minStep cfg stats) l (d0, tmp0))) t =
      countType d0 t + Z.of_nat (count_occ DistrictType_eq_dec l t) * minCount cfg stats t.
Proof.
  revert d0 tmp0; induction l as [|a l IH]; intros d0 tmp0 Htmp t.
  - cbn. split; [apply Htmp | lia].
  - cbn [fold_left]. destruct (cfg a) as [dc|] eqn:Ea.
    + replace (minStep cfg stats (d0, tmp0) a) with
        (d0 ++ repeat a (Z.to_nat (MinInCity dc - stats a)),
         fun u => if dt_eqb u a then tmp0 u + Z.of_nat (Z.to_nat (MinInCity dc - stats a))
                  else tmp0 u) by (unfold minStep; rewrite Ea; reflexivity).
      destruct (IH (d0 ++ repeat a (Z.to_nat (MinInCity dc - stats a)))
        (fun u => if dt_eqb u a then tmp0 u + Z.of_nat (Z.to_nat (MinInCity dc - stats a))
                  else tmp0 u)) with (t := t) as [H1 H2].
      { intros u. rewrite countType_app, countType_repeat, Htmp. dt_cases; lia. }
      split; [exact H1|]. rewrite H2, countType_app, countType_repeat.
      unfold minCount. cbn [count_occ]. dt_cases; rewrite ?Ea; lia.
    + replace (minStep cfg stats (d0, tmp0) a) with (d0, tmp0)
        by (unfold minStep; rewrite Ea; reflexivity).
      destruct (IH d0 tmp0 Htmp t) as [H1 H2]. split; [exact H1|].
      rewrite H2. unfold minCount. cbn [count_occ]. dt_cases; rewrite ?Ea; lia.
Qed.

Lemma minTypes_spec cfg stats t :
  snd (minTypes cfg stats) t = countType (fst (minTypes cfg stats)) t /\
  countType (fst (minTypes cfg stats)) t =
    Z.of_nat (count_occ DistrictType_eq_dec allDistricts t) * minCount cfg stats t.
Proof.
  unfold minTypes.
  destruct (minTypes_fold cfg stats allDistricts [] (fun _ => 0)
    (fun t => eq_sym (countType_nil t)) t) as [H1 H2].
  split; [exact H1|]. rewrite H2, countType_nil. lia.
Qed.

(** The per-type bounds of the claim. *)
Definition bounds (cfg : Config) (types : list DistrictType) : Prop :=
  forall t dc, cfg t = Some dc ->
    (0 < MaxInCity dc -> countType types t <= MaxInCity dc) /\
    MinInCity dc <= countType types t.

Lemma pickType_spec cfg stats tmp rng t rng' :
  pickType cfg stats tmp rng = Some (t, rng') ->
  exists dc, cfg t = Some dc /\ (MaxInCity dc <= 0 \/ stats t + tmp t < MaxInCity dc).
Proof.
  induction rng as [|a rng IH]; cbn [pickType]; [discriminate|].
  destruct (cfg a) as [dc|] eqn:Ea; [|exact IH].
  destruct ((0 <? MaxInCity dc) && (MaxInCity dc <=? stats a + tmp a)) eqn:Eb; [exact IH|].
  intros H. injection H as <- <-. exists dc. split; [exact Ea|].
  apply andb_false_iff in Eb. destruct Eb as [Eb|Eb]; [apply Z.ltb_ge in Eb | apply Z.leb_gt in Eb]; lia.
Qed.

Lemma fillTypes_spec n cfg stats d tmp rng d' tmp' rng' :
  fillTypes n cfg stats d tmp rng = Some (d', tmp', rng') ->
  (forall t, stats t = 0) ->
  (forall t, tmp t = countType d t) ->
  (forall t, tmp' t = countType d' t) /\
  (forall t, countType d t <= countType d' t) /\
  (forall t dc, cfg t = Some dc -> 0 < MaxInCity dc ->
     countType d t <= MaxInCity dc -> countType d' t <= MaxInCity dc).
Proof.
  revert d tmp rng; induction n as [|n IH]; intros d tmp rng Hf H0 Htmp; cbn [fillTypes] in Hf.
  - injection Hf as <- <- <-. repeat split; auto; intros; lia.
  - destruct (pickType cfg stats tmp rng) as [[t0 r]|] eqn:Ep; [|discriminate].
    destruct (pickType_spec _ _ _ _ _ _ Ep) as [dc0 [Ec0 Hm0]].
    destruct (IH _ _ _ Hf H0) as [H1 [H2 H3]].
    { intros u. unfold increment. rewrite countType_app, countType_cons, countType_nil, Htmp.
      dt_cases; lia. }
    split; [exact H1|]. split.
    + intros u. specialize (H2 u). rewrite countType_app in H2.
      pose proof (countType_nonneg [t0] u). lia.
    + intros u dc Ec Hpos Hle. apply H3 with (1 := Ec) (2 := Hpos).
      rewrite countType_app, countType_cons, countType_nil.
      dt_cases; [|lia]. rewrite Ec0 in Ec. injection Ec as <-.
      rewrite H0, Htmp in Hm0. lia.
Qed.

Lemma randomDistricts_spec cfg desired attempts rng sortTypes types stats rng' :
  0 < desired ->
  (forall t dc, In t allDistricts -> cfg t = Some dc -> 0 < MaxInCity dc ->
     MinInCity dc <= MaxInCity dc) ->
  (forall t dc, cfg t = Some dc -> ~ In t allDistricts -> MinInCity dc <= 0) ->
  (forall l, Permutation l (sortTypes l)) ->
  randomDistricts cfg statsEmpty O desired attempts rng sortTypes = Ok (types, stats, rng') ->
  (forall t, stats t = countType types t) /\ bounds cfg types.
Proof.
  intros Hd Hcfg Hoth Hsort H. unfold randomDistricts in H.
  replace (desired <=? Z.of_nat 0) with false in H by (symmetry; apply Z.leb_gt; lia).
  destruct (minTypes cfg statsEmpty) as [d0 tmp0] eqn:Em.
  pose proof (fun t => minTypes_spec cfg statsEmpty t) as Hm. rewrite Em in Hm. cbn [fst snd] in Hm.
  destruct (_ <? _)%nat; [discriminate|].
  destruct (fillTypes _ cfg statsEmpty d0 tmp0 rng) as [[[d1 tmp1] r]|] eqn:Ef; [|discriminate].
  injection H as <- <- <-.
  destruct (fillTypes_spec _ _ _ _ _ _ _ _ _ Ef (fun _ => eq_refl) (fun t => proj1 (Hm t)))
    as [_ [Hgrow Hmax]].
  split.
  - intros t. rewrite fold_increment. unfold statsEmpty. lia.
  - intros t dc Ec. rewrite <- (countType_perm _ _ t (Hsort d1)).
    pose proof (proj2 (Hm t)) as Hmin. unfold minCount in Hmin. rewrite Ec in Hmin.
    unfold statsEmpty in Hmin.
    destruct (in_dec DistrictType_eq_dec t allDistricts) as [Hin | Hnin].
    + rewrite (count_allDistricts t Hin) in Hmin. split.
      * intros Hpos. apply (Hmax t dc Ec Hpos). rewrite Hmin.
        specialize (Hcfg t dc Hin Ec Hpos). lia.
      * specialize (Hgrow t). lia.
    + rewrite (proj1 (count_occ_not_In DistrictType_eq_dec allDistricts t) Hnin) in Hmin.
      cbn [Z.of_nat Z.mul] in Hmin. split.
      * intros Hpos. apply (Hmax t dc Ec Hpos). lia.
      * specialize (Hoth t dc Ec Hnin). pose proof (countType_nonneg d1 t). lia.
Qed.

(** The docks still to move are docks, the candidates are not, and no
    district is listed twice. *)
Definition DockInv (types : list DistrictType) (docks potentialdock : list nat) : Prop :=
  NoDup (docks ++ potentialdock) /\
  (forall i, In i docks -> (i < length types)%nat /\ nth i types Empty = Docks) /\
  (forall i, In i potentialdock -> (i < length types)%nat /\ nth i types Empty <> Docks).

Lemma dockStep_fold types dockOK m a docks pot :
  (a + m <= length types)%nat ->
  (forall i, In i (docks ++ pot) -> (i < a)%nat) ->
  DockInv types docks pot ->
  DockInv types (fst (fold_left (dockStep types dockOK) (seq a m) (docks, pot)))
                (snd (fold_left (dockStep types dockOK) (seq a m) (docks, pot))).
Proof.
  revert a docks pot; induction m as [|m IH]; intros a docks pot Hm Hlt [Hnd [Hd Hp]].
  - cbn [seq fold_left fst snd]. exact (conj Hnd (conj Hd Hp)).
  - cbn [seq fold_left].
    replace (dockStep types dockOK (docks, pot) a) with
      (if dt_eqb (nth a types Empty) Docks && negb (nth a dockOK false)
       then (docks ++ [a], pot)
       else if negb (dt_eqb (nth a types Empty) Docks) && nth a dockOK false
       then (docks, pot ++ [a]) else (docks, pot)) by reflexivity.
    assert (Hnew : ~ In a (docks ++ pot)) by (intros Hin; specialize (Hlt a Hin); lia).
    destruct (dt_eqb (nth a types Empty) Docks && negb (nth a dockOK false)) eqn:E1;
      [|destruct (negb (dt_eqb (nth a types Empty) Docks) && nth a dockOK false) eqn:E2];
      apply IH; try lia.
    + intros i Hi. rewrite <- app_assoc in Hi. apply in_app_or in Hi.
      destruct Hi as [Hi|[<-|Hi]]; [| lia |]; specialize (Hlt i); rewrite in_app_iff in Hlt;
        specialize (Hlt (or_introl Hi) ) || specialize (Hlt (or_intror Hi)); lia.
    + apply andb_true_iff in E1. destruct E1 as [E1 _]. apply dt_eqb_true in E1.
      split; [|split; [|exact Hp]].
      * apply Permutation_NoDup with (l := a :: docks ++ pot).
        -- rewrite <- app_assoc. cbn [app]. apply Permutation_middle.
        -- constructor; assumption.
      * intros i Hi. apply in_app_or in Hi. destruct Hi as [Hi|[<-|[]]]; [apply Hd, Hi|].
        split; [lia | exact E1].
    + intros i Hi. rewrite app_assoc in Hi. apply in_app_or in Hi.
      destruct Hi as [Hi|[<-|[]]]; [|lia]. specialize (Hlt i Hi). lia.
    + apply andb_true_iff in E2. destruct E2 as [E2 _]. apply negb_true_iff in E2.
      split; [|split; [exact Hd|]].
      * apply Permutation_NoDup with (l := a :: docks ++ pot).
        -- rewrite app_assoc. apply Permutation_cons_append.
        -- constructor; assumption.
      * intros i Hi. apply in_app_or in Hi. destruct Hi as [Hi|[<-|[]]]; [apply Hp, Hi|].
        split; [lia|]. intros E. rewrite E in E2. discriminate.
    + intros i Hi. specialize (Hlt i Hi). lia.
    + exact (conj Hnd (conj Hd Hp)).
Qed.

Lemma collectDocks_spec types dockOK :
  DockInv types (fst (collectDocks types dockOK)) (snd (collectDocks types dockOK)).
Proof.
  unfold collectDocks. apply dockStep_fold; [lia | intros i [] |].
  split; [constructor | split; intros i []].
Qed.

Lemma pickNonDock_spec cfg stats rng t rng' :
  pickNonDock cfg stats rng = Some (t, rng') ->
  t <> Docks /\
  exists dc, cfg t = Some dc /\ (MaxInCity dc <= 0 \/ stats t < MaxInCity dc).
Proof.
  induction rng as [|a rng IH]; cbn [pickNonDock]; [discriminate|].
  destruct (dt_eqb a Docks) eqn:Ed; [exact IH|].
  destruct (cfg a) as [dc|] eqn:Ea; [|exact IH].
  destruct ((0 <? MaxInCity dc) && (MaxInCity dc <=? stats a)) eqn:Eb; [exact IH|].
  intros H. injection H as <- <-. split.
  - intros E. subst. discriminate.
  - exists dc. split; [exact Ea|].
    apply andb_false_iff in Eb. destruct Eb as [Eb|Eb];
      [apply Z.ltb_ge in Eb | apply Z.leb_gt in Eb]; lia.
Qed.

Lemma nodup_last1 (D P : list nat) d :
  NoDup ((D ++ [d]) ++ P) -> NoDup (D ++ P) /\ ~ In d (D ++ P).
Proof.
  intros H. apply Permutation_NoDup with (l' := d :: D ++ P) in H.
  - apply NoDup_cons_iff in H. tauto.
  - rewrite <- app_assoc. cbn [app]. symmetry. apply Permutation_middle.
Qed.

Lemma nodup_last2 (D P : list nat) d l :
  NoDup ((D ++ [d]) ++ P ++ [l]) ->
  NoDup (D ++ P) /\ ~ In d (D ++ P ++ [l]) /\ ~ In l (D ++ P).
Proof.
  intros H. apply nodup_last1 in H. destruct H as [H1 H2].
  rewrite app_assoc in H1. apply Permutation_NoDup with (l' := l :: D ++ P) in H1.
  - apply NoDup_cons_iff in H1. tauto.
  - symmetry. apply Permutation_cons_append.
Qed.

Lemma fixDocks_spec fuel cfg docks pot types stats rng types' stats' :
  DockInv types docks pot ->
  (forall t, stats t = countType types t) ->
  bounds cfg types ->
  fixDocks fuel cfg docks pot types stats rng = Ok (types', stats') ->
  bounds cfg types'.
Proof.
  revert docks pot types stats rng.
  induction fuel as [|fuel IH]; intros docks pot types stats rng Hinv Hst Hb H.
  - cbn [fixDocks] in H. injection H as <- <-. exact Hb.
  - destruct docks as [|x xs]; cbn [fixDocks] in H; [injection H as <- <-; exact Hb|].
    remember (x :: xs) as D eqn:ED.
    assert (HD : D = removelast D ++ [last D O]) by (apply app_removelast_last; congruence).
    remember (last D O) as d eqn:Ed. remember (removelast D) as D' eqn:ED'.
    destruct Hinv as [Hnd [Hd Hp]].
    assert (HinD : forall i, In i D' \/ i = d -> In i D).
    { intros i Hi. rewrite HD. apply in_or_app. destruct Hi as [Hi|Hi]; [left; exact Hi|].
      right; left; congruence. }
    destruct (Hd d (HinD d (or_intror eq_refl))) as [Hdlen Hdty].
    destruct pot as [|y ys].
    + destruct (_ <? stats Docks) eqn:Emin; [|discriminate].
      destruct (pickNonDock cfg stats rng) as [[t0 r]|] eqn:Ep; [|discriminate].
      destruct (pickNonDock_spec _ _ _ _ _ Ep) as [Hne [dc0 [Ec0 Hm0]]].
      rewrite HD in Hnd. destruct (nodup_last1 D' [] d Hnd) as [Hnd' Hnin].
      rewrite app_nil_r in Hnin.
      apply (IH D' [] (setNth types d (fun _ => t0)) (decrement (increment stats t0) Docks) r);
        [| | |exact H].
      * split; [exact Hnd'|split; [|intros i []]].
        intros i Hi. assert (Hid : d <> i) by (intros E; subst; contradiction).
        rewrite length_setNth, nth_setNth_other by exact Hid.
        apply Hd, HinD. left; exact Hi.
      * intros u. unfold decrement, increment. rewrite countType_setNth by exact Hdlen.
        rewrite Hdty, <- Hst. dt_cases; lia.
      * intros u dc Ec. rewrite countType_setNth by exact Hdlen. rewrite Hdty.
        destruct (Hb u dc Ec) as [Hmax Hmin].
        destruct (dt_eqb u Docks) eqn:E1; [apply dt_eqb_true in E1; subst u|].
        -- rewrite Ec in Emin. apply Z.ltb_lt in Emin. rewrite Hst in Emin.
           destruct (dt_eqb Docks t0) eqn:E2; [apply dt_eqb_true in E2; congruence|].
           split; [intros; specialize (Hmax ltac:(assumption))|]; lia.
        -- destruct (dt_eqb u t0) eqn:E2; [apply dt_eqb_true in E2; subst u|split; lia].
           rewrite Ec0 in Ec. injection Ec as <-. rewrite Hst in Hm0. split; lia.
    + remember (y :: ys) as P eqn:EP.
      assert (HP : P = removelast P ++ [last P O]) by (apply app_removelast_last; congruence).
      remember (last P O) as lst eqn:Elst. remember (removelast P) as P' eqn:EP'.
      assert (HinP : forall i, In i P' \/ i = lst -> In i P).
      { intros i Hi. rewrite HP. apply in_or_app. destruct Hi as [Hi|Hi]; [left; exact Hi|].
        right; left; congruence. }
      destruct (Hp lst (HinP lst (or_intror eq_refl))) as [Hllen Hlty].
      rewrite HD, HP in Hnd. destruct (nodup_last2 D' P' d lst Hnd) as [Hnd' [Hdn Hln]].
      assert (Hdl : lst <> d) by (intros E; apply Hdn; rewrite E; apply in_or_app; right;
        apply in_or_app; right; left; reflexivity).
      assert (Hcount : forall u,
        countType (setNth (setNth types lst (fun _ => Docks)) d
                    (fun _ => nth lst types Empty)) u = countType types u).
      { intros u. rewrite countType_setNth by (rewrite length_setNth; exact Hdlen).
        rewrite nth_setNth_other by exact Hdl. rewrite Hdty.
        rewrite countType_setNth by exact Hllen. dt_cases; lia. }
      apply (IH D' P' (setNth (setNth types lst (fun _ => Docks)) d
                    (fun _ => nth lst types Empty)) stats rng); [| | |exact H].
      * split; [exact Hnd'|split].
        -- intros i Hi. assert (Hid : d <> i) by (intros E; subst; apply Hdn;
             apply in_or_app; left; exact Hi).
           assert (Hil : lst <> i) by (intros E; subst; apply Hln; apply in_or_app; left; exact Hi).
           rewrite !length_setNth, !nth_setNth_other by assumption.
           apply Hd, HinD. left; exact Hi.
        -- intros i Hi. assert (Hid : d <> i) by (intros E; subst; apply Hdn;
             apply in_or_app; right; apply in_or_app; left; exact Hi).
           assert (Hil : lst <> i) by (intros E; subst; apply Hln; apply in_or_app; right; exact Hi).
           rewrite !length_setNth, !nth_setNth_other by assumption.
           apply Hp, HinP. left; exact Hi.
      * intros u. rewrite Hcount. apply Hst.
      * intros u dc Ec. rewrite Hcount. apply (Hb u dc Ec).
Qed.

Lemma minWithinMax_spec cfg :
  minWithinMax cfg = true ->
  forall t dc, In t allDistricts -> cfg t = Some dc -> 0 < MaxInCity dc ->
    MinInCity dc <= MaxInCity dc.
Proof.
  unfold minWithinMax. rewrite forallb_forall. intros H t dc Hin Ec Hpos.
  specialize (H t Hin). rewrite Ec in H. apply orb_true_iff in H.
  destruct H as [H|H]; [apply Z.leb_le in H; lia | apply Z.leb_le in H; exact H].
Qed.

Lemma verifyDistrictLocations_spec cfg types stats dockOK rng types' stats' :
  (forall t, stats t = countType types t) ->
  bounds cfg types ->
  verifyDistrictLocations cfg types stats dockOK rng = Ok (types', stats') ->
  bounds cfg types'.
Proof.
  intros Hst Hb H. unfold verifyDistrictLocations in H.
  pose proof (collectDocks_spec types dockOK) as Hinv.
  destruct (collectDocks types dockOK) as [docks pot]. cbn [fst snd] in Hinv.
  destruct docks as [|x xs].
  - injection H as <- <-. exact Hb.
  - exact (fixDocks_spec _ _ _ _ _ _ _ _ _ Hinv Hst Hb H).
Qed.

End AssignFacts.

(** ** Claims about the district type assignment *)
Module AssignClaims.
Import Assign AssignFacts.

(** C9 (amended): with no caller-supplied sites, [MinInCity <= MaxInCity]
    for every named type configured with a positive [MaxInCity], and no
    positive [MinInCity] for a configured type outside [allDistricts]:
    whenever [randomDistricts], the Voronoi step and then
    [verifyDistrictLocations] (swap and reassignment) return without error,
    every configured type's final count is at most its [MaxInCity] when that
    is positive, and at least its [MinInCity]. *)
Theorem assignDistricts_min_max cfg desired attempts rng sortTypes dockOK types stats :
  minWithinMax cfg = true ->
  (forall t dc, cfg t = Some dc -> ~ In t allDistricts -> MinInCity dc <= 0) ->
  (forall l, Permutation l (sortTypes l)) ->
  assignDistricts cfg desired attempts rng sortTypes dockOK = Ok (types, stats) ->
  forall t dc, cfg t = Some dc ->
    (0 < MaxInCity dc -> countType types t <= MaxInCity dc) /\
    MinInCity dc <= countType types t.
Proof.
  intros Hcfg Hoth Hsort H. unfold assignDistricts in H.
  destruct (randomDistricts cfg statsEmpty O desired attempts rng sortTypes)
    as [[[types0 stats0] rng0]| | |] eqn:Er; try discriminate.
  destruct types0 as [|t0 ts0]; [discriminate|].
  assert (Hd : 0 < desired).
  { destruct (Z.lt_ge_cases 0 desired) as [Hlt | Hge]; [exact Hlt|].
    unfold randomDistricts in Er.
    replace (desired <=? Z.of_nat 0) with true in Er by (symmetry; apply Z.leb_le; lia).
    congruence. }
  destruct (randomDistricts_spec _ _ _ _ _ _ _ _ Hd (minWithinMax_spec _ Hcfg) Hoth Hsort Er)
    as [Hst Hb].
  exact (verifyDistrictLocations_spec _ _ _ _ _ _ _ Hst Hb H).
Qed.

(** A configuration: at least one dock and at most three, at most one park,
    civic districts unbounded. *)
Definition cfgDocks : Config := fun t =>
  match t with
  | Docks => Some (mkDistrictConfig 1 3)
  | Park => Some (mkDistrictConfig 0 1)
  | Civic => Some (mkDistrictConfig 0 0)
  | _ => None
  end.

Lemma cfgDocks_named t dc : cfgDocks t = Some dc -> ~ In t allDistricts -> MinInCity dc <= 0.
Proof. destruct t; cbn; intros E Hn; try discriminate; exfalso; apply Hn; tauto. Qed.

(** On it, with [DesiredDistricts = 8] four sites are placed (each new
    district counts twice in the loop's test) and typed
    [Docks; Docks; Park; Docks]; the last dock swaps with the park, the two
    others become civic. *)
Lemma assignDistricts_min_max_witness :
  minWithinMax cfgDocks = true /\
  (forall t dc, cfgDocks t = Some dc -> ~ In t allDistricts -> MinInCity dc <= 0) /\
  (forall l : list DistrictType, Permutation l ((fun l => l) l)) /\
  (exists stats, assignDistricts cfgDocks 8 (repeat true 40)
     [Docks; Park; Park; Docks; Civic; Civic] (fun l => l) [false; false; true; false] =
     Ok ([Civic; Civic; Docks; Park], stats)) /\
  forall t dc, cfgDocks t = Some dc ->
    (0 < MaxInCity dc -> countType [Civic; Civic; Docks; Park] t <= MaxInCity dc) /\
    MinInCity dc <= countType [Civic; Civic; Docks; Park] t.
Proof.
  assert (Hrun : exists stats, assignDistricts cfgDocks 8 (repeat true 40)
     [Docks; Park; Park; Docks; Civic; Civic] (fun l => l) [false; false; true; false] =
     Ok ([Civic; Civic; Docks; Park], stats)).
  { assert (E : match assignDistricts cfgDocks 8 (repeat true 40)
       [Docks; Park; Park; Docks; Civic; Civic] (fun l => l) [false; false; true; false] with
       | Ok (ty, _) => ty = [Civic; Civic; Docks; Park]
       | _ => False
       end) by (vm_compute; reflexivity).
    revert E.
    destruct (assignDistricts cfgDocks 8 (repeat true 40)
       [Docks; Park; Park; Docks; Civic; Civic] (fun l => l) [false; false; true; false])
      as [[ty st]| | |]; intros E; [subst ty; exists st; reflexivity | destruct E | destruct E | destruct E]. }
  destruct Hrun as [st Hst].
  split; [vm_compute; reflexivity|]. split; [exact cfgDocks_named|].
  split; [intros l; apply Permutation_refl|]. split; [exists st; exact Hst|].
  apply (assignDistricts_min_max cfgDocks 8 (repeat true 40)
    [Docks; Park; Park; Docks; Civic; Civic] (fun l => l) [false; false; true; false]
    [Civic; Civic; Docks; Park] st).
  - vm_compute. reflexivity.
  - exact cfgDocks_named.
  - intros l. apply Permutation_refl.
  - exact Hst.
Defined.

(** Two temples at least but at most one. *)
Definition cfgTemple : Config := fun t =>
  match t with
  | Temple => Some (mkDistrictConfig 2 1)
  | _ => None
  end.

(** A [DistrictType] string that is none of the named types. *)
Definition foo : DistrictType := Other "foo"%string eq_refl.

(** Parks unbounded, and at least one [foo] district. *)
Definition cfgFoo : Config := fun t =>
  if dt_eqb t foo then Some (mkDistrictConfig 1 0)
  else match t with
       | Park => Some (mkDistrictConfig 0 0)
       | _ => None
       end.

(** C9 fails as stated: with [MinInCity = 2 > MaxInCity = 1] and
    [DesiredDistricts = 4] the assignment places two sites and succeeds
    with two temples, over the maximum; a configured type that is not in
    [allDistricts] gets no [MinInCity] copies, so with [DesiredDistricts = 2]
    the assignment succeeds with one park and no [foo], under the minimum. *)
Lemma assignDistricts_min_max_counterexample :
  ((exists stats, assignDistricts cfgTemple 4 (repeat true 20) [] (fun l => l)
      [false; false] = Ok ([Temple; Temple], stats)) /\
   cfgTemple Temple = Some (mkDistrictConfig 2 1) /\
   1 < countType [Temple; Temple] Temple) /\
  ((exists stats, assignDistricts cfgFoo 2 (repeat true 10) [Park] (fun l => l)
      [false] = Ok ([Park], stats)) /\
   cfgFoo foo = Some (mkDistrictConfig 1 0) /\
   countType [Park] foo < 1).
Proof.
  split; split; try split; try reflexivity.
  - assert (E : match assignDistricts cfgTemple 4 (repeat true 20) [] (fun l => l)
        [false; false] with
        | Ok (ty, _) => ty = [Temple; Temple]
        | _ => False
        end) by (vm_compute; reflexivity).
    revert E.
    destruct (assignDistricts cfgTemple 4 (repeat true 20) [] (fun l => l) [false; false])
      as [[ty st]| | |]; intros E; [subst ty; exists st; reflexivity | destruct E | destruct E | destruct E].
  - assert (E : match assignDistricts cfgFoo 2 (repeat true 10) [Park] (fun l => l) [false] with
        | Ok (ty, _) => ty = [Park]
        | _ => False
        end) by (vm_compute; reflexivity).
    revert E.
    destruct (assignDistricts cfgFoo 2 (repeat true 10) [Park] (fun l => l) [false])
      as [[ty st]| | |]; intros E; [subst ty; exists st; reflexivity | destruct E | destruct E | destruct E].
Qed.

End AssignClaims.

(** ** Encoding: arithmetic form of the byte and word operations *)
Module EncodingFacts.
Import Encoding.

Lemma land_255 x : Z.land x 255 = x mod 256.
Proof. change 255 with (Z.ones 8). rewrite Z.land_ones by lia. reflexivity. Qed.

Lemma land_65535 x : Z.land x 65535 = x mod 65536.
Proof. change 65535 with (Z.ones 16). rewrite Z.land_ones by lia. reflexivity. Qed.

Lemma land_4294967295 x : Z.land x 4294967295 = x mod 4294967296.
Proof. change 4294967295 with (Z.ones 32). rewrite Z.land_ones by lia. reflexivity. Qed.

Lemma shiftr_8 x : Z.shiftr x 8 = x / 256.
Proof. rewrite Z.shiftr_div_pow2 by lia. reflexivity. Qed.

Lemma shiftr_16 x : Z.shiftr x 16 = x / 65536.
Proof. rewrite Z.shiftr_div_pow2 by lia. reflexivity. Qed.

Lemma shiftl_8 x : Z.shiftl x 8 = x * 256.
Proof. rewrite Z.shiftl_mul_pow2 by lia. reflexivity. Qed.

Lemma shiftl_16 x : Z.shiftl x 16 = x * 65536.
Proof. rewrite Z.shiftl_mul_pow2 by lia. reflexivity. Qed.

(** A [lor] with a value shifted past the bits of the other is a sum. *)
Lemma lor_shiftl_small a b k :
  0 <= k -> 0 <= b < 2 ^ k -> Z.lor b (Z.shiftl a k) = a * 2 ^ k + b.
Proof.
  intros Hk Hb.
  assert (Hl : Z.land b (Z.shiftl a k) = 0).
  { apply Z.bits_inj'. intros n Hn. rewrite Z.land_spec, Z.bits_0.
    destruct (Z.lt_ge_cases n k) as [Hlt | Hge].
    - rewrite Z.shiftl_spec_low by exact Hlt. apply andb_false_r.
    - rewrite <- (Z.mod_small b (2 ^ k)) by exact Hb.
      rewrite Z.mod_pow2_bits_high by lia. reflexivity. }
  rewrite <- Z.lxor_lor by exact Hl. rewrite <- Z.add_nocarry_lxor by exact Hl.
  rewrite Z.shiftl_mul_pow2 by exact Hk. lia.
Qed.

Lemma Split16_eq v : Split16 v = ((v / 256) mod 256, v mod 256).
Proof. unfold Split16. rewrite !land_255, shiftr_8. reflexivity. Qed.

Lemma Merge8_eq a b : Merge8 a b = (a * 256 + b) mod 65536.
Proof. unfold Merge8. rewrite land_65535, shiftl_8. reflexivity. Qed.

Lemma Split32_eq v : Split32 v = ((v / 65536) mod 65536, v mod 65536).
Proof. unfold Split32. rewrite !land_65535, shiftr_16. reflexivity. Qed.

Lemma Merge16_eq a b : Merge16 a b = (a * 65536 + b) mod 4294967296.
Proof. unfold Merge16. rewrite land_4294967295, shiftl_16. reflexivity. Qed.

(** Splitting [hi * B + lo] with [lo] below the base [B]. *)
Lemma split_digits B hi lo :
  0 < B -> 0 <= hi < B -> 0 <= lo < B ->
  ((hi * B + lo) mod (B * B) = hi * B + lo) /\
  (((hi * B + lo) / B) mod B = hi) /\ ((hi * B + lo) mod B = lo).
Proof.
  intros HB Hh Hl.
  assert (Hd : (hi * B + lo) / B = hi).
  { rewrite Z.add_comm, Z.div_add by lia. rewrite Z.div_small by lia. lia. }
  split; [apply Z.mod_small; nia|]. split.
  - rewrite Hd. apply Z.mod_small. lia.
  - rewrite Z.add_comm, Z.mod_add by lia. apply Z.mod_small. lia.
Qed.

Lemma join_digits B v :
  0 < B -> 0 <= v < B * B ->
  ((v / B) mod B) * B + v mod B = v.
Proof.
  intros HB Hv. rewrite (Z.mod_small (v / B) B).
  - rewrite Z.mul_comm. symmetry. apply Z.div_mod. lia.
  - split; [apply Z.div_pos; lia|]. apply Z.div_lt_upper_bound; lia.
Qed.

Lemma Merge8_Split16 v :
  0 <= v < 65536 -> Merge8 (fst (Split16 v)) (snd (Split16 v)) = v.
Proof.
  intros Hv. rewrite Split16_eq, Merge8_eq. cbn [fst snd].
  rewrite (join_digits 256 v) by lia. apply Z.mod_small. lia.
Qed.

Lemma Split16_Merge8 a b :
  0 <= a < 256 -> 0 <= b < 256 -> Split16 (Merge8 a b) = (a, b).
Proof.
  intros Ha Hb. rewrite Merge8_eq, Split16_eq.
  destruct (split_digits 256 a b) as [H1 [H2 H3]]; try lia.
  change 65536 with (256 * 256). rewrite H1, H2, H3. reflexivity.
Qed.

Lemma Merge16_Split32 v :
  0 <= v < 4294967296 -> Merge16 (fst (Split32 v)) (snd (Split32 v)) = v.
Proof.
  intros Hv. rewrite Split32_eq, Merge16_eq. cbn [fst snd].
  rewrite (join_digits 65536 v) by lia. apply Z.mod_small. lia.
Qed.

Lemma Split32_Merge16 a b :
  0 <= a < 65536 -> 0 <= b < 65536 -> Split32 (Merge16 a b) = (a, b).
Proof.
  intros Ha Hb. rewrite Merge16_eq, Split32_eq.
  destruct (split_digits 65536 a b) as [H1 [H2 H3]]; try lia.
  change 4294967296 with (65536 * 65536). rewrite H1, H2, H3. reflexivity.
Qed.

Lemma Merge8_range a b : 0 <= Merge8 a b < 65536.
Proof. rewrite Merge8_eq. apply Z.mod_pos_bound. lia. Qed.

Lemma Split16_range v :
  0 <= fst (Split16 v) < 256 /\ 0 <= snd (Split16 v) < 256.
Proof. rewrite Split16_eq. cbn [fst snd]. split; apply Z.mod_pos_bound; lia. Qed.

Lemma Split32_range v :
  0 <= fst (Split32 v) < 65536 /\ 0 <= snd (Split32 v) < 65536.
Proof. rewrite Split32_eq. cbn [fst snd]. split; apply Z.mod_pos_bound; lia. Qed.

End EncodingFacts.

(** ** Extra properties of internal/encoding *)
Module EncodingProps.
Import Encoding EncodingFacts.

(** [Split16] and [Merge8] are inverse: merging the two bytes of a
    [uint16] gives it back, and splitting the merge of two bytes gives the
    two bytes back. *)
Theorem Split16_Merge8_roundtrip a b v :
  0 <= a < 256 -> 0 <= b < 256 -> 0 <= v < 65536 ->
  Split16 (Merge8 a b) = (a, b) /\
  Merge8 (fst (Split16 v)) (snd (Split16 v)) = v.
Proof. intros Ha Hb Hv. split; [apply Split16_Merge8 | apply Merge8_Split16]; assumption. Qed.

Lemma Split16_Merge8_roundtrip_witness :
  (0 <= 18 < 256 /\ 0 <= 52 < 256 /\ 0 <= 4660 < 65536) /\
  Split16 (Merge8 18 52) = (18, 52) /\
  Merge8 (fst (Split16 4660)) (snd (Split16 4660)) = 4660.
Proof.
  split; [lia|]. apply (Split16_Merge8_roundtrip 18 52 4660); lia.
Defined.

(** [Split32] and [Merge16] are inverse: merging the two halves of a
    [uint32] gives it back, and splitting the merge of two [uint16] gives
    them back. *)
Theorem Split32_Merge16_roundtrip a b v :
  0 <= a < 65536 -> 0 <= b < 65536 -> 0 <= v < 4294967296 ->
  Split32 (Merge16 a b) = (a, b) /\
  Merge16 (fst (Split32 v)) (snd (Split32 v)) = v.
Proof. intros Ha Hb Hv. split; [apply Split32_Merge16 | apply Merge16_Split32]; assumption. Qed.

Lemma Split32_Merge16_roundtrip_witness :
  (0 <= 4660 < 65536 /\ 0 <= 22136 < 65536 /\ 0 <= 305419896 < 4294967296) /\
  Split32 (Merge16 4660 22136) = (4660, 22136) /\
  Merge16 (fst (Split32 305419896)) (snd (Split32 305419896)) = 305419896.
Proof.
  split; [lia|]. apply (Split32_Merge16_roundtrip 4660 22136 305419896); lia.
Defined.

(** [FromBytes16] reads back what [ToBytes16] wrote, for every [uint16];
    on a slice of fewer than two bytes it panics. *)
Theorem FromBytes16_ToBytes16 v data :
  0 <= v < 65536 -> (length data < 2)%nat ->
  Bytes.FromBytes16 (Bytes.ToBytes16 v) = Some v /\ Bytes.FromBytes16 data = None.
Proof.
  intros Hv Hd. split.
  - unfold Bytes.FromBytes16, Bytes.ToBytes16, Bytes.Uint16. f_equal.
    rewrite lor_shiftl_small by (try rewrite land_255; first [lia | apply Z.mod_pos_bound; lia]).
    rewrite !land_255, shiftr_8. change (2 ^ 8) with 256.
    apply join_digits; lia.
  - destruct data as [|b0 [|b1 rest]]; cbn in Hd |- *; [reflexivity | reflexivity | lia].
Qed.

Lemma FromBytes16_ToBytes16_witness :
  (0 <= 4660 < 65536 /\ (length [7] < 2)%nat) /\
  Bytes.FromBytes16 (Bytes.ToBytes16 4660) = Some 4660 /\ Bytes.FromBytes16 [7] = None.
Proof. split; [split; [lia | cbn; lia]|]. apply (FromBytes16_ToBytes16 4660 [7]); [lia | cbn; lia]. Defined.

(** [FromBytes8] reads back the byte [ToBytes8] wrote (for any integer,
    its low byte, which is the model's [Encoding.FromBytes8]); on two or
    more bytes it gives the second byte, and on an empty slice it panics. *)
Theorem FromBytes8_cases b b0 b1 rest :
  0 <= b0 < 256 -> 0 <= b1 < 256 ->
  Bytes.FromBytes8 (Bytes.ToBytes8 b) = Some (Encoding.FromBytes8 b) /\
  Bytes.FromBytes8 (b0 :: b1 :: rest) = Some b1 /\
  Bytes.FromBytes8 [] = None.
Proof.
  intros H0 H1. split; [|split; [|reflexivity]].
  - unfold Bytes.FromBytes8, Bytes.ToBytes8, Bytes.Uint16, Encoding.FromBytes8.
    rewrite Z.shiftl_0_l, Z.lor_0_r. reflexivity.
  - unfold Bytes.FromBytes8, Bytes.Uint16. f_equal.
    rewrite lor_shiftl_small by (change (2 ^ 8) with 256; lia).
    rewrite land_255. change (2 ^ 8) with 256.
    rewrite Z.add_comm, Z.mod_add by lia. apply Z.mod_small. exact H1.
Qed.

Lemma FromBytes8_cases_witness :
  (0 <= 1 < 256 /\ 0 <= 200 < 256) /\
  Bytes.FromBytes8 (Bytes.ToBytes8 300) = Some (Encoding.FromBytes8 300) /\
  Bytes.FromBytes8 [1; 200; 9] = Some 200 /\
  Bytes.FromBytes8 [] = None.
Proof. split; [lia|]. apply (FromBytes8_cases 300 1 200 [9]); lia. Defined.

End EncodingProps.

(** ** The map's writers: how each one changes the pixels *)
Module MapWritersFacts.
Import Encoding SpatialMap MapWriters EncodingFacts.

Lemma bounds_SetRGBA64 c x y v : bounds (SetRGBA64 c x y v) = bounds c.
Proof. unfold SetRGBA64. destruct (inRect _ _ _); reflexivity. Qed.

Lemma SetRGBA64_out c x y v : inRect (bounds c) x y = false -> SetRGBA64 c x y v = c.
Proof. unfold SetRGBA64. intros H. rewrite H. reflexivity. Qed.

Lemma RGBA64At_SetRGBA64 c x y v px py :
  RGBA64At (SetRGBA64 c x y v) px py =
  if inRect (bounds c) x y && (px =? x) && (py =? y) then v else RGBA64At c px py.
Proof.
  unfold RGBA64At, SetRGBA64.
  destruct (inRect (bounds c) x y) eqn:Hxy; cbn [andb bounds im]; [|reflexivity].
  destruct ((px =? x) && (py =? y)) eqn:E.
  - apply andb_true_iff in E as [E1 E2]. apply Z.eqb_eq in E1, E2. subst.
    rewrite Hxy. reflexivity.
  - reflexivity.
Qed.

Lemma eq_pixel x y px py :
  (px =? x) && (py =? y) = true -> px = x /\ py = y.
Proof. intros E. apply andb_true_iff in E as [E1 E2]. apply Z.eqb_eq in E1, E2. auto. Qed.

Lemma land_255_range v : 0 <= Z.land v 255 < 256.
Proof. rewrite land_255. apply Z.mod_pos_bound. lia. Qed.

Lemma land_65535_range v : 0 <= Z.land v 65535 < 65536.
Proof. rewrite land_65535. apply Z.mod_pos_bound. lia. Qed.

(** The readers at a pixel depend only on the rectangle and on the
    channels they decode. *)
Lemma isOutOfBounds_ext c c' x y :
  bounds c' = bounds c -> isOutOfBounds c' x y = isOutOfBounds c x y.
Proof. unfold isOutOfBounds. intros ->. reflexivity. Qed.

Lemma District_ext c c' x y :
  bounds c' = bounds c ->
  cR (RGBA64At c' x y) = cR (RGBA64At c x y) ->
  fst (Split16 (cA (RGBA64At c' x y))) = fst (Split16 (cA (RGBA64At c x y))) ->
  District c' x y = District c x y.
Proof.
  intros Hb HR HA. unfold District. rewrite (isOutOfBounds_ext c c' x y Hb).
  rewrite HR, HA. reflexivity.
Qed.

Lemma BuildingID_ext c c' x y :
  bounds c' = bounds c ->
  cG (RGBA64At c' x y) = cG (RGBA64At c x y) ->
  cB (RGBA64At c' x y) = cB (RGBA64At c x y) ->
  BuildingID c' x y = BuildingID c x y.
Proof.
  intros Hb HG HB. unfold BuildingID. rewrite (isOutOfBounds_ext c c' x y Hb).
  rewrite HG, HB. reflexivity.
Qed.

Lemma getBM_ext c c' x y :
  snd (Split16 (cA (RGBA64At c' x y))) = snd (Split16 (cA (RGBA64At c x y))) ->
  getBM c' x y = getBM c x y.
Proof. unfold getBM. auto. Qed.

(** The five flag readers, all at once. *)
Definition flags (c : imageMap) (x y : Z) : bool * bool * bool * bool * bool :=
  (IsRoad c x y, IsBridge c x y, IsWall c x y, IsTower c x y, IsGatehouse c x y).

Lemma flags_ext c c' x y :
  bounds c' = bounds c -> getBM c' x y = getBM c x y -> flags c' x y = flags c x y.
Proof.
  intros Hb Hg. unfold flags, IsRoad, IsBridge, IsWall, IsTower, IsGatehouse.
  rewrite (isOutOfBounds_ext c c' x y Hb), Hg. reflexivity.
Qed.

Lemma RGBA64At_setBM c x y bm px py :
  RGBA64At (setBM c x y bm) px py =
  if inRect (bounds c) x y && (px =? x) && (py =? y) then
    mkRGBA64 (cR (RGBA64At c x y)) (cG (RGBA64At c x y)) (cB (RGBA64At c x y))
      (Merge8 (fst (Split16 (cA (RGBA64At c x y)))) (FromBytes8 bm))
  else RGBA64At c px py.
Proof. unfold setBM. cbv zeta. apply RGBA64At_SetRGBA64. Qed.

Lemma bounds_setBM' c x y bm : bounds (setBM c x y bm) = bounds c.
Proof. unfold setBM. cbv zeta. apply bounds_SetRGBA64. Qed.

(** [setBM] changes no district and no building id, anywhere. *)
Ltac pixel_cases E :=
  destruct (_ && _ && _) eqn:E;
  [ apply andb_true_iff in E as [E ?Ey]; apply andb_true_iff in E as [?Ein ?Ex];
    apply Z.eqb_eq in Ex, Ey; subst | ].

Lemma District_setBM c x y bm px py :
  District (setBM c x y bm) px py = District c px py.
Proof.
  apply District_ext; [apply bounds_setBM'| |]; rewrite RGBA64At_setBM;
    pixel_cases E; try reflexivity.
  cbn [cA]. rewrite Split16_Merge8; [reflexivity | apply Split16_range | ].
  unfold FromBytes8. apply land_255_range.
Qed.

Lemma BuildingID_setBM c x y bm px py :
  BuildingID (setBM c x y bm) px py = BuildingID c px py.
Proof.
  apply BuildingID_ext; [apply bounds_setBM'| |]; rewrite RGBA64At_setBM;
    pixel_cases E; reflexivity.
Qed.

Lemma testbit_set g k i :
  0 <= i < 8 -> 0 <= k ->
  Z.testbit (Z.land (Z.lor g (Z.shiftl 1 k)) 255) i = Z.testbit g i || (k =? i).
Proof.
  intros Hi Hk. rewrite Z.land_spec, Z.lor_spec, Z.shiftl_1_l, Z.pow2_bits_eqb by exact Hk.
  change 255 with (Z.ones 8). rewrite Z.testbit_ones by lia.
  replace ((0 <=? i) && (i <? 8)) with true by (symmetry; apply andb_true_iff; lia).
  apply andb_true_r.
Qed.

Lemma flags_at c x y :
  inRect (bounds c) x y = true ->
  flags c x y =
  (Z.testbit (getBM c x y) 0, Z.testbit (getBM c x y) 1, Z.testbit (getBM c x y) 2,
   Z.testbit (getBM c x y) 3, Z.testbit (getBM c x y) 4).
Proof.
  intros H. unfold flags, IsRoad, IsBridge, IsWall, IsTower, IsGatehouse.
  rewrite (EndDrawFacts.inRect_not_out c x y H). reflexivity.
Qed.

Lemma setRoad_eq c x y : setRoad c x y = setBM c x y (Bitmap.SetTrue (getBM c x y) bitRoad).
Proof. reflexivity. Qed.

Lemma setBridge_eq c x y : setBridge c x y = setBM c x y (Bitmap.SetTrue (getBM c x y) bitBridge).
Proof. reflexivity. Qed.

(** Setting one flag at an in-image pixel: that flag reads [true] there,
    the other four read as before. *)
Lemma flags_set_at c x y k :
  inRect (bounds c) x y = true -> 0 <= k ->
  flags (setBM c x y (Bitmap.SetTrue (getBM c x y) k)) x y =
  (Z.testbit (getBM c x y) 0 || (k =? 0), Z.testbit (getBM c x y) 1 || (k =? 1),
   Z.testbit (getBM c x y) 2 || (k =? 2), Z.testbit (getBM c x y) 3 || (k =? 3),
   Z.testbit (getBM c x y) 4 || (k =? 4)).
Proof.
  intros H Hk. rewrite flags_at by (rewrite bounds_setBM'; exact H).
  rewrite (EndDrawFacts.getBM_setBM c x y _ x y H), !Z.eqb_refl. cbn [andb].
  unfold Bitmap.SetTrue. rewrite !testbit_set by lia. reflexivity.
Qed.

Lemma flags_setBM_other c x y bm px py :
  (px, py) <> (x, y) -> flags (setBM c x y bm) px py = flags c px py.
Proof.
  intros Hne. apply flags_ext; [apply bounds_setBM'|].
  apply getBM_ext. rewrite RGBA64At_setBM. pixel_cases E; [congruence | reflexivity].
Qed.

Lemma setDistrict_eq c x y t id :
  setDistrict c x y t id =
  (SetRGBA64 c x y
     (mkRGBA64 (Z.land id 65535) (cG (RGBA64At c x y)) (cB (RGBA64At c x y))
        (Merge8 (Z.land (DistrictID t) 255) (snd (Split16 (cA (RGBA64At c x y)))))),
   None).
Proof. unfold setDistrict. cbv zeta. destruct (Split16 (cA (RGBA64At c x y))). reflexivity. Qed.

Lemma setBuildingID_eq c x y id :
  setBuildingID c x y id =
  SetRGBA64 c x y
    (mkRGBA64 (cR (RGBA64At c x y)) (fst (Split32 (Z.land id 4294967295)))
       (snd (Split32 (Z.land id 4294967295))) (cA (RGBA64At c x y))).
Proof. unfold setBuildingID. cbv zeta. destruct (Split32 _). reflexivity. Qed.

Lemma DistrictID_byte t : Z.land (DistrictID t) 255 = DistrictID t.
Proof. destruct t; reflexivity. Qed.

Lemma districtForID_DistrictID t :
  districtForID (DistrictID t) = if existsb (dt_eqb t) allDistricts then t else Empty.
Proof. destruct t; reflexivity. Qed.

Lemma not_out_at c c' x y :
  bounds c' = bounds c -> inRect (bounds c) x y = true -> isOutOfBounds c' x y = false.
Proof.
  intros Hb H. rewrite (isOutOfBounds_ext c c' x y Hb).
  exact (EndDrawFacts.inRect_not_out c x y H).
Qed.

Lemma RGBA64At_SetRGBA64_same c x y v :
  inRect (bounds c) x y = true -> RGBA64At (SetRGBA64 c x y v) x y = v.
Proof. intros H. rewrite RGBA64At_SetRGBA64, H, !Z.eqb_refl. reflexivity. Qed.

Lemma Merge16_Split32_land id :
  Merge16 (fst (Split32 (Z.land id 4294967295))) (snd (Split32 (Z.land id 4294967295)))
  = id mod 4294967296.
Proof.
  rewrite Merge16_Split32; [apply land_4294967295|].
  rewrite land_4294967295. apply Z.mod_pos_bound. lia.
Qed.

(** The zero pixel read by every reader at an in-bounds pixel outside the
    image rectangle (the row and column at [Max]). *)
Lemma readers_outside c x y :
  isOutOfBounds c x y = false -> inRect (bounds c) x y = false ->
  District c x y = (Empty, 0, None) /\ BuildingID c x y = (0, None) /\
  flags c x y = (false, false, false, false, false).
Proof.
  intros Ho Hi.
  unfold District, BuildingID, flags, IsRoad, IsBridge, IsWall, IsTower, IsGatehouse,
    getBM, RGBA64At. rewrite Ho, Hi. split; [|split]; reflexivity.
Qed.

End MapWritersFacts.

(** ** Extra properties of the map's readers and writers *)
Module MapWritersProps.
Import Encoding SpatialMap MapWriters EncodingFacts MapWritersFacts.

(** [setDistrict] at an in-image pixel returns [nil], and [District] then
    reads there the type written if it is one of the named types in
    [allDistricts], and [Empty] for any other string, with the id as a
    [uint16]; the district at every other pixel, the building id and the
    five flags at every pixel are left as they were. *)
Theorem setDistrict_effect c x y t id px py :
  inRect (bounds c) x y = true ->
  snd (setDistrict c x y t id) = None /\
  District (fst (setDistrict c x y t id)) x y =
    (if existsb (dt_eqb t) allDistricts then t else Empty, id mod 65536, None) /\
  ((px, py) <> (x, y) -> District (fst (setDistrict c x y t id)) px py = District c px py) /\
  BuildingID (fst (setDistrict c x y t id)) px py = BuildingID c px py /\
  flags (fst (setDistrict c x y t id)) px py = flags c px py.
Proof.
  intros H. rewrite setDistrict_eq. cbn [fst snd].
  split; [reflexivity|]. split; [|split; [|split]].
  - unfold District. rewrite (not_out_at c _ x y (bounds_SetRGBA64 _ _ _ _) H).
    rewrite RGBA64At_SetRGBA64_same by exact H. cbn [cA cR].
    rewrite Split16_Merge8; [| apply land_255_range | apply Split16_range].
    cbn [fst]. rewrite DistrictID_byte, districtForID_DistrictID, land_65535. reflexivity.
  - intros Hne. apply District_ext; [apply bounds_SetRGBA64| |];
      rewrite RGBA64At_SetRGBA64; pixel_cases E; (congruence || reflexivity).
  - apply BuildingID_ext; [apply bounds_SetRGBA64| |];
      rewrite RGBA64At_SetRGBA64; pixel_cases E; reflexivity.
  - apply flags_ext; [apply bounds_SetRGBA64|]. apply getBM_ext.
    rewrite RGBA64At_SetRGBA64; pixel_cases E; [|reflexivity]. cbn [cA].
    rewrite Split16_Merge8; [reflexivity | apply land_255_range | apply Split16_range].
Qed.

Lemma setDistrict_effect_witness :
  inRect (bounds Samples.map0) 2 3 = true /\
  snd (setDistrict Samples.map0 2 3 Market 70000) = None /\
  District (fst (setDistrict Samples.map0 2 3 Market 70000)) 2 3 =
    (if existsb (dt_eqb Market) allDistricts then Market else Empty, 70000 mod 65536, None) /\
  ((4, 5) <> (2, 3) -> District (fst (setDistrict Samples.map0 2 3 Market 70000)) 4 5 = District Samples.map0 4 5) /\
  BuildingID (fst (setDistrict Samples.map0 2 3 Market 70000)) 4 5 = BuildingID Samples.map0 4 5 /\
  flags (fst (setDistrict Samples.map0 2 3 Market 70000)) 4 5 = flags Samples.map0 4 5.
Proof.
  split; [reflexivity|]. apply (setDistrict_effect Samples.map0 2 3 Market 70000 4 5). reflexivity.
Defined.

(** [setBuildingID] at an in-image pixel makes [BuildingID] read there
    the id as a [uint32]; the building id at every other pixel, the
    district and the five flags at every pixel are left as they were. *)
Theorem setBuildingID_effect c x y id px py :
  inRect (bounds c) x y = true ->
  BuildingID (setBuildingID c x y id) x y = (id mod 4294967296, None) /\
  ((px, py) <> (x, y) -> BuildingID (setBuildingID c x y id) px py = BuildingID c px py) /\
  District (setBuildingID c x y id) px py = District c px py /\
  flags (setBuildingID c x y id) px py = flags c px py.
Proof.
  intros H. rewrite setBuildingID_eq. split; [|split; [|split]].
  - unfold BuildingID. rewrite (not_out_at c _ x y (bounds_SetRGBA64 _ _ _ _) H).
    rewrite RGBA64At_SetRGBA64_same by exact H. cbn [cG cB].
    rewrite Merge16_Split32_land. reflexivity.
  - intros Hne. apply BuildingID_ext; [apply bounds_SetRGBA64| |];
      rewrite RGBA64At_SetRGBA64; pixel_cases E; (congruence || reflexivity).
  - apply District_ext; [apply bounds_SetRGBA64| |];
      rewrite RGBA64At_SetRGBA64; pixel_cases E; reflexivity.
  - apply flags_ext; [apply bounds_SetRGBA64|]. apply getBM_ext.
    rewrite RGBA64At_SetRGBA64; pixel_cases E; reflexivity.
Qed.

Lemma setBuildingID_effect_witness :
  inRect (bounds Samples.map0) 2 3 = true /\
  BuildingID (setBuildingID Samples.map0 2 3 (-1)) 2 3 = ((-1) mod 4294967296, None) /\
  ((4, 5) <> (2, 3) -> BuildingID (setBuildingID Samples.map0 2 3 (-1)) 4 5 = BuildingID Samples.map0 4 5) /\
  District (setBuildingID Samples.map0 2 3 (-1)) 4 5 = District Samples.map0 4 5 /\
  flags (setBuildingID Samples.map0 2 3 (-1)) 4 5 = flags Samples.map0 4 5.
Proof.
  split; [reflexivity|]. apply (setBuildingID_effect Samples.map0 2 3 (-1) 4 5). reflexivity.
Defined.

(** [setRoad] (resp. [setBridge]) at an in-image pixel makes [IsRoad]
    (resp. [IsBridge]) read [true] there and leaves the other four flags
    there, the flags at every other pixel, and the district and building
    id at every pixel as they were. *)
Theorem setRoad_setBridge_effect c x y px py :
  inRect (bounds c) x y = true ->
  (let '(r, b, w, t, g) := flags c x y in
   flags (setRoad c x y) x y = (true, b, w, t, g) /\
   flags (setBridge c x y) x y = (r, true, w, t, g)) /\
  ((px, py) <> (x, y) ->
   flags (setRoad c x y) px py = flags c px py /\
   flags (setBridge c x y) px py = flags c px py) /\
  District (setRoad c x y) px py = District c px py /\
  District (setBridge c x y) px py = District c px py /\
  BuildingID (setRoad c x y) px py = BuildingID c px py /\
  BuildingID (setBridge c x y) px py = BuildingID c px py.
Proof.
  intros H. rewrite setRoad_eq, setBridge_eq. split; [|split; [|split; [|split; [|split]]]].
  - rewrite (flags_at c x y H), !flags_set_at by (exact H || discriminate).
    unfold bitRoad, bitBridge. cbn [Z.eqb Pos.eqb]. rewrite !orb_false_r, !orb_true_r.
    split; reflexivity.
  - intros Hne. split; apply flags_setBM_other; exact Hne.
  - apply District_setBM.
  - apply District_setBM.
  - apply BuildingID_setBM.
  - apply BuildingID_setBM.
Qed.

Lemma setRoad_setBridge_effect_witness :
  inRect (bounds Samples.map0) 2 3 = true /\
  (let '(r, b, w, t, g) := flags Samples.map0 2 3 in
   flags (setRoad Samples.map0 2 3) 2 3 = (true, b, w, t, g) /\
   flags (setBridge Samples.map0 2 3) 2 3 = (r, true, w, t, g)) /\
  ((4, 5) <> (2, 3) ->
   flags (setRoad Samples.map0 2 3) 4 5 = flags Samples.map0 4 5 /\
   flags (setBridge Samples.map0 2 3) 4 5 = flags Samples.map0 4 5) /\
  District (setRoad Samples.map0 2 3) 4 5 = District Samples.map0 4 5 /\
  District (setBridge Samples.map0 2 3) 4 5 = District Samples.map0 4 5 /\
  BuildingID (setRoad Samples.map0 2 3) 4 5 = BuildingID Samples.map0 4 5 /\
  BuildingID (setBridge Samples.map0 2 3) 4 5 = BuildingID Samples.map0 4 5.
Proof.
  split; [reflexivity|]. apply (setRoad_setBridge_effect Samples.map0 2 3 4 5). reflexivity.
Defined.

(** At a pixel outside the image rectangle every writer leaves the map as
    it was; on the row and column at [Max], which [isOutOfBounds] does not
    reject, the readers answer the zero pixel: district [Empty] with id 0,
    building id 0, and no flag, all without an error. *)
Theorem writers_outside_rect c x y t id :
  isOutOfBounds c x y = false ->
  (x = ptX (rMax (bounds c)) \/ y = ptY (rMax (bounds c))) ->
  setDistrict c x y t id = (c, None) /\ setBuildingID c x y id = c /\
  setRoad c x y = c /\ setBridge c x y = c /\
  District c x y = (Empty, 0, None) /\ BuildingID c x y = (0, None) /\
  flags c x y = (false, false, false, false, false).
Proof.
  intros Ho Hedge.
  assert (Hi : inRect (bounds c) x y = false).
  { unfold inRect. destruct Hedge as [-> | ->];
      rewrite Z.ltb_irrefl; rewrite ?andb_false_r, ?andb_false_l; reflexivity. }
  rewrite setDistrict_eq, setBuildingID_eq, setRoad_eq, setBridge_eq.
  unfold setBM. cbv zeta. rewrite !SetRGBA64_out by exact Hi.
  destruct (readers_outside c x y Ho Hi) as [H1 [H2 H3]].
  repeat split; assumption.
Qed.

Lemma writers_outside_rect_witness :
  (isOutOfBounds Samples.map0 10 4 = false /\
   (10 = ptX (rMax (bounds Samples.map0)) \/ 4 = ptY (rMax (bounds Samples.map0)))) /\
  setDistrict Samples.map0 10 4 Docks 5 = (Samples.map0, None) /\
  setBuildingID Samples.map0 10 4 5 = Samples.map0 /\
  setRoad Samples.map0 10 4 = Samples.map0 /\ setBridge Samples.map0 10 4 = Samples.map0 /\
  District Samples.map0 10 4 = (Empty, 0, None) /\ BuildingID Samples.map0 10 4 = (0, None) /\
  flags Samples.map0 10 4 = (false, false, false, false, false).
Proof.
  split; [split; [reflexivity | left; reflexivity]|].
  apply (writers_outside_rect Samples.map0 10 4 Docks 5); [reflexivity | left; reflexivity].
Defined.

End MapWritersProps.

(** ** setBuilding: the footprint written by the two loops *)
Module SetBuildingFacts.
Import Encoding SpatialMap MapWriters EncodingFacts MapWritersFacts.

Lemma bounds_setBuildingID c x y id : bounds (setBuildingID c x y id) = bounds c.
Proof. rewrite setBuildingID_eq. apply bounds_SetRGBA64. Qed.

Lemma BuildingID_setBuildingID c x y id px py :
  BuildingID (setBuildingID c x y id) px py =
  if inRect (bounds c) px py && (px =? x) && (py =? y)
  then (id mod 4294967296, None) else BuildingID c px py.
Proof.
  destruct ((px =? x) && (py =? y)) eqn:Exy.
  - apply eq_pixel in Exy as [-> ->]. rewrite !Z.eqb_refl, !andb_true_r.
    destruct (inRect (bounds c) x y) eqn:H.
    + unfold BuildingID. rewrite (not_out_at c _ x y (bounds_setBuildingID _ _ _ _) H).
      rewrite setBuildingID_eq, RGBA64At_SetRGBA64_same by exact H. cbn [cG cB].
      rewrite Merge16_Split32_land. reflexivity.
    + rewrite setBuildingID_eq, SetRGBA64_out by exact H. reflexivity.
  - rewrite <- andb_assoc, Exy, andb_false_r.
    apply BuildingID_ext; [apply bounds_setBuildingID| |];
      rewrite setBuildingID_eq, RGBA64At_SetRGBA64; rewrite <- andb_assoc, Exy, andb_false_r;
      reflexivity.
Qed.

Lemma District_setBuildingID c x y id px py :
  District (setBuildingID c x y id) px py = District c px py.
Proof.
  apply District_ext; [apply bounds_setBuildingID| |];
    rewrite setBuildingID_eq, RGBA64At_SetRGBA64; pixel_cases E; reflexivity.
Qed.

Lemma flags_setBuildingID c x y id px py :
  flags (setBuildingID c x y id) px py = flags c px py.
Proof.
  apply flags_ext; [apply bounds_setBuildingID|]. apply getBM_ext.
  rewrite setBuildingID_eq, RGBA64At_SetRGBA64; pixel_cases E; reflexivity.
Qed.

Section Footprint.
Variables (x y id px py : Z).

Definition column (dx : Z) (c : imageMap) (L : list Z) : imageMap :=
  fold_left (fun c dy => setBuildingID c (x + dx) (y + dy) id) L c.

Lemma column_bounds dx L c : bounds (column dx c L) = bounds c.
Proof.
  unfold column. revert c. induction L as [|a L IH]; intros c; [reflexivity|].
  cbn [fold_left]. rewrite IH. apply bounds_setBuildingID.
Qed.

Lemma column_BuildingID dx L c :
  BuildingID (column dx c L) px py =
  if inRect (bounds c) px py && (px =? x + dx) && existsb (fun dy => py =? y + dy) L
  then (id mod 4294967296, None) else BuildingID c px py.
Proof.
  unfold column. revert c. induction L as [|a L IH]; intros c.
  - cbn. rewrite andb_false_r. reflexivity.
  - cbn [fold_left existsb]. rewrite IH, bounds_setBuildingID, BuildingID_setBuildingID.
    destruct (inRect (bounds c) px py), (px =? x + dx), (py =? y + a),
      (existsb (fun dy => py =? y + dy) L); reflexivity.
Qed.

Lemma column_District dx L c : District (column dx c L) px py = District c px py.
Proof.
  unfold column. revert c. induction L as [|a L IH]; intros c; [reflexivity|].
  cbn [fold_left]. rewrite IH. apply District_setBuildingID.
Qed.

Lemma column_flags dx L c : flags (column dx c L) px py = flags c px py.
Proof.
  unfold column. revert c. induction L as [|a L IH]; intros c; [reflexivity|].
  cbn [fold_left]. rewrite IH. apply flags_setBuildingID.
Qed.

Lemma columns_BuildingID Ly L c :
  BuildingID (fold_left (fun c dx => column dx c Ly) L c) px py =
  if inRect (bounds c) px py &&
     existsb (fun dx => (px =? x + dx) && existsb (fun dy => py =? y + dy) Ly) L
  then (id mod 4294967296, None) else BuildingID c px py.
Proof.
  revert c. induction L as [|a L IH]; intros c.
  - cbn. rewrite andb_false_r. reflexivity.
  - cbn [fold_left existsb]. rewrite IH, column_bounds, column_BuildingID.
    set (e := existsb (fun dy => py =? y + dy) Ly).
    destruct (inRect (bounds c) px py), (px =? x + a),
      (existsb (fun dx => (px =? x + dx) && e) L), e; reflexivity.
Qed.

Lemma columns_District Ly L c :
  District (fold_left (fun c dx => column dx c Ly) L c) px py = District c px py.
Proof.
  revert c. induction L as [|a L IH]; intros c; [reflexivity|].
  cbn [fold_left]. rewrite IH. apply column_District.
Qed.

Lemma columns_flags Ly L c :
  flags (fold_left (fun c dx => column dx c Ly) L c) px py = flags c px py.
Proof.
  revert c. induction L as [|a L IH]; intros c; [reflexivity|].
  cbn [fold_left]. rewrite IH. apply column_flags.
Qed.

End Footprint.

Lemma existsb_zrange p q lo hi :
  existsb (fun d => p =? q + d) (EndDraw.zrange lo hi) = (lo <=? p - q) && (p - q <? hi).
Proof.
  destruct (existsb _ _) eqn:E; symmetry.
  - apply existsb_exists in E as [d [Hd Hp]]. apply EndDrawFacts.zrange_In in Hd.
    apply Z.eqb_eq in Hp. apply andb_true_iff. lia.
  - apply not_true_iff_false. intros Hc. apply andb_true_iff in Hc as [H1 H2].
    apply Z.leb_le in H1. apply Z.ltb_lt in H2.
    assert (Hin : In (p - q) (EndDraw.zrange lo hi)) by (apply EndDrawFacts.zrange_In; lia).
    assert (existsb (fun d => p =? q + d) (EndDraw.zrange lo hi) = true) as Ht.
    { apply existsb_exists. exists (p - q). split; [exact Hin | apply Z.eqb_eq; lia]. }
    congruence.
Qed.

Lemma existsb_and_r {A} (g : A -> bool) (f : bool) L :
  existsb (fun d => g d && f) L = existsb g L && f.
Proof.
  induction L as [|a L IH]; cbn; [reflexivity|]. rewrite IH.
  destruct (g a), f, (existsb g L); reflexivity.
Qed.

Lemma setBuilding_columns c x y b :
  setBuilding c x y (Some b) =
  fold_left (fun c0 dx => column x y (bID b) dx c0
                (EndDraw.zrange (ptY (rMin (bArea b))) (ptY (rMax (bArea b)))))
    (EndDraw.zrange (ptX (rMin (bArea b))) (ptX (rMax (bArea b)))) c.
Proof. reflexivity. Qed.

Lemma setBuilding_BuildingID c x y b px py :
  BuildingID (setBuilding c x y (Some b)) px py =
  (if inRect (bounds c) px py &&
      (ptX (rMin (bArea b)) <=? px - x) && (px - x <? ptX (rMax (bArea b))) &&
      (ptY (rMin (bArea b)) <=? py - y) && (py - y <? ptY (rMax (bArea b)))
   then (bID b mod 4294967296, None) else BuildingID c px py).
Proof.
  rewrite setBuilding_columns, columns_BuildingID, existsb_zrange.
  rewrite (existsb_and_r (fun dx => px =? x + dx)), existsb_zrange.
  rewrite !andb_assoc. reflexivity.
Qed.

Lemma setBuilding_District c x y b px py :
  District (setBuilding c x y (Some b)) px py = District c px py.
Proof. rewrite setBuilding_columns. apply columns_District. Qed.

Lemma setBuilding_flags c x y b px py :
  flags (setBuilding c x y (Some b)) px py = flags c px py.
Proof. rewrite setBuilding_columns. apply columns_flags. Qed.

Lemma bounds_setBuilding c x y b : bounds (setBuilding c x y b) = bounds c.
Proof.
  destruct b as [b|]; [|reflexivity]. rewrite setBuilding_columns.
  generalize (EndDraw.zrange (ptX (rMin (bArea b))) (ptX (rMax (bArea b)))) as L.
  intros L. revert c. induction L as [|a L IH]; intros c; [reflexivity|].
  cbn [fold_left]. rewrite IH. apply column_bounds.
Qed.

End SetBuildingFacts.

(** ** Extra properties of setBuilding *)
Module SetBuildingProps.
Import SpatialMap MapWriters MapWritersFacts SetBuildingFacts.

(** [setBuilding] with a building at [(x, y)] gives every in-image pixel
    [(x+dx, y+dy)] with [dx, dy] in the building's area the building's id
    as a [uint32], and leaves the building id of every other pixel, and
    the district and the flags of every pixel, as they were. *)
Theorem setBuilding_footprint c x y b px py :
  BuildingID (setBuilding c x y (Some b)) px py =
  (if inRect (bounds c) px py &&
      (ptX (rMin (bArea b)) <=? px - x) && (px - x <? ptX (rMax (bArea b))) &&
      (ptY (rMin (bArea b)) <=? py - y) && (py - y <? ptY (rMax (bArea b)))
   then (bID b mod 4294967296, None) else BuildingID c px py) /\
  District (setBuilding c x y (Some b)) px py = District c px py /\
  flags (setBuilding c x y (Some b)) px py = flags c px py.
Proof.
  split; [apply setBuilding_BuildingID|].
  split; [apply setBuilding_District | apply setBuilding_flags].
Qed.

End SetBuildingProps.

(** ** CustomImage: each pixel coloured by its own contents *)
Module RenderFacts.
Import SpatialMap Render MapWritersFacts.

Section WithColour.
Variable Color : Type.
Variable toRGBA : Color -> RGBA8.

(** The colour [CustomImage] gives one pixel, read off its loop body:
    gate, tower, wall, bridge, road, building, then the district's entry
    in the scheme, if any. *)
Definition pixelColour (c : imageMap) (s : ColourScheme Color) (x y : Z) : option Color :=
  let bm := getBM c x y in
  if Bitmap.Get bm bitGate then Some (Gates _ s)
  else if Bitmap.Get bm bitTower then Some (Towers _ s)
  else if Bitmap.Get bm bitWall then Some (Walls _ s)
  else if Bitmap.Get bm bitBridge then Some (Bridges _ s)
  else if Bitmap.Get bm bitRoad then Some (Roads _ s)
  else if negb (fst (BuildingID c x y) =? 0) then Some (Buildings _ s)
  else Districts _ s (fst (fst (District c x y))).

Definition paint (c : imageMap) (s : ColourScheme Color) (x y : Z) (v : RGBA8) : RGBA8 :=
  match pixelColour c s x y with Some col => toRGBA col | None => v end.

Lemma paint_idem c s x y v : paint c s x y (paint c s x y v) = paint c s x y v.
Proof. unfold paint. destruct (pixelColour c s x y); reflexivity. Qed.

Lemma RGBAAt_SetRGBA m dx dy col x y :
  inRect (rbounds m) dx dy = true ->
  RGBAAt (SetRGBA _ toRGBA m dx dy col) x y =
  if (x =? dx) && (y =? dy) then toRGBA col else RGBAAt m x y.
Proof.
  intros H. unfold RGBAAt, SetRGBA. rewrite H. cbn [rbounds rpix].
  destruct ((x =? dx) && (y =? dy)) eqn:E; [|reflexivity].
  apply eq_pixel in E as [-> ->]. rewrite H. reflexivity.
Qed.

Lemma rbounds_SetRGBA m dx dy col : rbounds (SetRGBA _ toRGBA m dx dy col) = rbounds m.
Proof. unfold SetRGBA. destruct (inRect _ _ _); reflexivity. Qed.

Lemma customPixel_ok c s m dx dy :
  inRect (bounds c) dx dy = true -> rbounds m = bounds c ->
  exists m', customPixel _ toRGBA c s m dx dy = inr m' /\ rbounds m' = bounds c /\
  forall x y, RGBAAt m' x y =
    if (x =? dx) && (y =? dy) then paint c s x y (RGBAAt m x y) else RGBAAt m x y.
Proof.
  intros H Hb.
  assert (Hm : inRect (rbounds m) dx dy = true) by (rewrite Hb; exact H).
  assert (Ho : isOutOfBounds c dx dy = false) by exact (EndDrawFacts.inRect_not_out c dx dy H).
  assert (Hset : forall col, exists m', @inr MapError _ (SetRGBA _ toRGBA m dx dy col) = inr m' /\
            rbounds m' = bounds c /\
            forall x y, RGBAAt m' x y =
              if (x =? dx) && (y =? dy) then toRGBA col else RGBAAt m x y).
  { intros col. eexists. split; [reflexivity|]. split; [rewrite rbounds_SetRGBA; exact Hb|].
    intros x y. apply RGBAAt_SetRGBA. exact Hm. }
  unfold customPixel. cbv zeta. unfold paint.
  assert (HB : BuildingID c dx dy = (fst (BuildingID c dx dy), None))
    by (unfold BuildingID; rewrite Ho; reflexivity).
  assert (HD : District c dx dy = (fst (District c dx dy), None))
    by (unfold District; rewrite Ho; reflexivity).
  destruct (Bitmap.Get (getBM c dx dy) bitGate) eqn:G1;
  [|destruct (Bitmap.Get (getBM c dx dy) bitTower) eqn:G2;
  [|destruct (Bitmap.Get (getBM c dx dy) bitWall) eqn:G3;
  [|destruct (Bitmap.Get (getBM c dx dy) bitBridge) eqn:G4;
  [|destruct (Bitmap.Get (getBM c dx dy) bitRoad) eqn:G5]]]];
  try (match goal with |- exists m', inr (SetRGBA _ _ _ _ _ ?col) = _ /\ _ =>
         destruct (Hset col) as [m' [E [Hb' Hp]]] end; exists m'; split; [exact E|];
       split; [exact Hb'|]; intros x y; rewrite Hp;
       destruct ((x =? dx) && (y =? dy)) eqn:E'; [|reflexivity];
       unfold pixelColour; apply eq_pixel in E' as [-> ->];
       rewrite ?G1, ?G2, ?G3, ?G4, ?G5; reflexivity).
  rewrite HB. destruct (negb (fst (BuildingID c dx dy) =? 0)) eqn:G6.
  - destruct (Hset (Buildings _ s)) as [m' [E [Hb' Hp]]]. exists m'. split; [exact E|].
    split; [exact Hb'|]. intros x y. rewrite Hp.
    destruct ((x =? dx) && (y =? dy)) eqn:E'; [|reflexivity].
    unfold pixelColour. apply eq_pixel in E' as [-> ->].
    rewrite G1, G2, G3, G4, G5, G6. reflexivity.
  - rewrite HD. destruct (fst (District c dx dy)) as [dt did] eqn:ED. cbv beta iota.
    destruct (Districts _ s dt) as [col|] eqn:G7.
    + destruct (Hset col) as [m' [E [Hb' Hp]]]. exists m'. split; [exact E|].
      split; [exact Hb'|]. intros x y. rewrite Hp.
      destruct ((x =? dx) && (y =? dy)) eqn:E'; [|reflexivity].
      unfold pixelColour. apply eq_pixel in E' as [-> ->].
      rewrite G1, G2, G3, G4, G5, G6, ED. cbn [fst]. rewrite G7. reflexivity.
    + exists m. split; [reflexivity|]. split; [exact Hb|]. intros x y.
      destruct ((x =? dx) && (y =? dy)) eqn:E'; [|reflexivity].
      unfold pixelColour. apply eq_pixel in E' as [-> ->].
      rewrite G1, G2, G3, G4, G5, G6, ED. cbn [fst]. rewrite G7. reflexivity.
Qed.

Definition pixelStep (c : imageMap) (s : ColourScheme Color) (dy : Z)
    (acc : MapError + RGBAImage) (dx : Z) : MapError + RGBAImage :=
  match acc with
  | inl e => inl e
  | inr m => customPixel _ toRGBA c s m dx dy
  end.

Lemma row_ok c s dy L m :
  (forall dx, In dx L -> inRect (bounds c) dx dy = true) -> rbounds m = bounds c ->
  exists m', fold_left (pixelStep c s dy) L (inr m) = inr m' /\ rbounds m' = bounds c /\
  forall x y, RGBAAt m' x y =
    if (y =? dy) && existsb (fun dx => x =? dx) L then paint c s x y (RGBAAt m x y)
    else RGBAAt m x y.
Proof.
  revert m. induction L as [|a L IH]; intros m Hin Hb.
  - exists m. split; [reflexivity|]. split; [exact Hb|]. intros x y.
    rewrite andb_false_r. reflexivity.
  - destruct (customPixel_ok c s m a dy) as [m1 [E1 [Hb1 Hp1]]];
      [apply Hin; left; reflexivity | exact Hb |].
    destruct (IH m1) as [m2 [E2 [Hb2 Hp2]]]; [intros dx Hdx; apply Hin; right; exact Hdx | exact Hb1 |].
    exists m2. split; [cbn [fold_left]; unfold pixelStep at 2; rewrite E1; exact E2|].
    split; [exact Hb2|]. intros x y. rewrite Hp2, Hp1. cbn [existsb].
    destruct (y =? dy), (x =? a), (existsb (fun dx => x =? dx) L); cbn;
      rewrite ?paint_idem; reflexivity.
Qed.

Lemma rows_ok c s Lx Ly m :
  (forall dx dy, In dx Lx -> In dy Ly -> inRect (bounds c) dx dy = true) ->
  rbounds m = bounds c ->
  exists m', fold_left (fun acc dy => fold_left (pixelStep c s dy) Lx acc) Ly (inr m) = inr m' /\
  rbounds m' = bounds c /\
  forall x y, RGBAAt m' x y =
    if existsb (fun dy => y =? dy) Ly && existsb (fun dx => x =? dx) Lx
    then paint c s x y (RGBAAt m x y) else RGBAAt m x y.
Proof.
  revert m. induction Ly as [|a Ly IH]; intros m Hin Hb.
  - exists m. split; [reflexivity|]. split; [exact Hb|]. intros x y. reflexivity.
  - destruct (row_ok c s a Lx m) as [m1 [E1 [Hb1 Hp1]]];
      [intros dx Hdx; apply Hin; [exact Hdx | left; reflexivity] | exact Hb |].
    destruct (IH m1) as [m2 [E2 [Hb2 Hp2]]];
      [intros dx dy Hdx Hdy; apply Hin; [exact Hdx | right; exact Hdy] | exact Hb1 |].
    exists m2. split; [cbn [fold_left]; rewrite E1; exact E2|].
    split; [exact Hb2|]. intros x y. rewrite Hp2, Hp1. cbn [existsb].
    destruct (y =? a), (existsb (fun dy => y =? dy) Ly), (existsb (fun dx => x =? dx) Lx); cbn;
      rewrite ?paint_idem; reflexivity.
Qed.

End WithColour.

Lemma existsb_eq_zrange p lo hi :
  existsb (fun d => p =? d) (EndDraw.zrange lo hi) = (lo <=? p) && (p <? hi).
Proof.
  destruct (existsb _ _) eqn:E; symmetry.
  - apply existsb_exists in E as [d [Hd Hp]]. apply EndDrawFacts.zrange_In in Hd.
    apply Z.eqb_eq in Hp. apply andb_true_iff. lia.
  - apply not_true_iff_false. intros Hc. apply andb_true_iff in Hc as [H1 H2].
    apply Z.leb_le in H1. apply Z.ltb_lt in H2.
    assert (existsb (fun d => p =? d) (EndDraw.zrange lo hi) = true) as Ht.
    { apply existsb_exists. exists p. split; [apply EndDrawFacts.zrange_In; lia | apply Z.eqb_refl]. }
    congruence.
Qed.

End RenderFacts.

(** ** Extra properties of CustomImage *)
Module RenderProps.
Import SpatialMap Render RenderFacts.

(** [CustomImage] never returns an error, and the image it returns has the
    map's rectangle, with each pixel coloured from that pixel alone: the
    scheme's gate, tower, wall, bridge or road colour for the first of
    these flags set there, else the building colour for a nonzero building
    id, else the district type's colour in the scheme; a pixel with none
    of these, and every pixel outside the rectangle, stays zero. *)
Theorem CustomImage_colours (Color : Type) (toRGBA : Color -> RGBA8)
    (c : imageMap) (s : ColourScheme Color) :
  exists m, CustomImage _ toRGBA c s = inr m /\ rbounds m = bounds c /\
  forall x y, RGBAAt m x y =
    if inRect (bounds c) x y then
      match pixelColour Color c s x y with Some col => toRGBA col | None => zeroRGBA8 end
    else zeroRGBA8.
Proof.
  destruct (rows_ok Color toRGBA c s
              (EndDraw.zrange (ptX (rMin (bounds c))) (ptX (rMax (bounds c))))
              (EndDraw.zrange (ptY (rMin (bounds c))) (ptY (rMax (bounds c))))
              (NewRGBA (bounds c))) as [m [E [Hb Hp]]].
  - intros dx dy Hx Hy. apply EndDrawFacts.zrange_In in Hx, Hy.
    unfold inRect. apply andb_true_iff; split; [apply andb_true_iff; split|]; [apply andb_true_iff; split|..];
      first [apply Z.leb_le | apply Z.ltb_lt]; lia.
  - reflexivity.
  - exists m. split; [exact E|]. split; [exact Hb|]. intros x y. rewrite Hp.
    rewrite !existsb_eq_zrange. unfold paint, RGBAAt, NewRGBA. cbn [rbounds rpix].
    unfold inRect.
    destruct (ptX (rMin (bounds c)) <=? x), (x <? ptX (rMax (bounds c))),
      (ptY (rMin (bounds c)) <=? y), (y <? ptY (rMax (bounds c))); cbn [andb];
      destruct (pixelColour Color c s x y); reflexivity.
Qed.

End RenderProps.

(** ** districtBuilder: what a fitting building guarantees *)
Module DistrictBuilderFacts.
Import SpatialMap MapWriters MapWritersFacts SetBuildingFacts DistrictBuilder.

(** A pixel [buildingFits] accepts. *)
Definition freePixel (d : districtBuilder) (cm : imageMap) (px py : Z) : Prop :=
  isOutOfBounds cm px py = false /\ BuildingID cm px py = (0, None) /\
  flags cm px py = (false, false, false, false, false) /\
  CanBuildOn (outline d) px py = true /\ siteContains d px py = true.

Lemma buildingFits_true d cm ox oy b x y :
  buildingFits d cm ox oy b = true ->
  ptX (rMin (bArea b)) <= x < ptX (rMax (bArea b)) ->
  ptY (rMin (bArea b)) - 1 <= y < ptY (rMax (bArea b)) + 1 ->
  freePixel d cm (x + ox) (y + oy).
Proof.
  intros H Hx Hy. unfold buildingFits in H. rewrite forallb_forall in H.
  specialize (H x (proj2 (EndDrawFacts.zrange_In _ _ _) Hx)).
  rewrite forallb_forall in H. specialize (H y (proj2 (EndDrawFacts.zrange_In _ _ _) Hy)).
  cbv zeta in H. set (px := x + ox) in *. set (py := y + oy) in *.
  destruct (IsRoad cm px py || IsBridge cm px py || IsWall cm px py ||
            IsTower cm px py || IsGatehouse cm px py) eqn:F; [discriminate|].
  repeat rewrite orb_false_iff in F. destruct F as [[[[F1 F2] F3] F4] F5].
  destruct (negb (fst (BuildingID cm px py) =? 0)) eqn:B; [discriminate|].
  apply andb_true_iff in H as [H1 H2].
  assert (Ho : isOutOfBounds cm px py = false).
  { destruct (isOutOfBounds cm px py) eqn:O; [|reflexivity].
    unfold BuildingID in B. rewrite O in B. discriminate. }
  assert (HB : BuildingID cm px py = (fst (BuildingID cm px py), None))
    by (unfold BuildingID; rewrite Ho; reflexivity).
  apply negb_false_iff, Z.eqb_eq in B.
  split; [exact Ho|]. split; [rewrite HB, B; reflexivity|].
  split; [unfold flags; rewrite F1, F2, F3, F4, F5; reflexivity|]. split; assumption.
Qed.

Lemma firstFit_first (f : BuildingConfig -> bool) l i b :
  nth_error l i = Some b -> f b = true ->
  (forall j b', (j < i)%nat -> nth_error l j = Some b' -> f b' = false) ->
  firstFit f l = Some (i, b).
Proof.
  revert i. induction l as [|a l IH]; intros i Hi Hb Hbefore; [destruct i; discriminate|].
  destruct i as [|i]; cbn in Hi |- *.
  - injection Hi as ->. rewrite Hb. reflexivity.
  - rewrite (Hbefore O a) by (lia || reflexivity).
    rewrite (IH i Hi Hb); [reflexivity|].
    intros j b' Hj Hn. apply (Hbefore (S j)); [lia | exact Hn].
Qed.

Lemma firstFit_some (f : BuildingConfig -> bool) l i b :
  firstFit f l = Some (i, b) -> nth_error l i = Some b /\ f b = true.
Proof.
  revert i. induction l as [|a l IH]; intros i H; [discriminate|]. cbn in H.
  destruct (f a) eqn:Fa.
  - injection H as <- <-. split; [reflexivity | exact Fa].
  - destruct (firstFit f l) as [[i' b']|] eqn:E; [|discriminate].
    injection H as <- <-. apply IH. reflexivity.
Qed.

Lemma firstFit_none (f : BuildingConfig -> bool) l :
  firstFit f l = None -> forall b, In b l -> f b = false.
Proof.
  induction l as [|a l IH]; intros H b Hb; [destruct Hb|]. cbn in H.
  destruct (f a) eqn:Fa; [discriminate|].
  destruct (firstFit f l) as [[i' b']|]; [discriminate|].
  destruct Hb as [<- | Hb]; [exact Fa | apply IH; auto].
Qed.

Lemma removeAt_perm {A} (l : list A) i b :
  nth_error l i = Some b -> Permutation l (b :: removeAt i l).
Proof.
  intros H. unfold removeAt.
  rewrite <- (firstn_skipn i l) at 1.
  assert (Hs : skipn i l = b :: skipn (S i) l).
  { revert i H. induction l as [|a l IH]; intros i H; [destruct i; discriminate|].
    destruct i as [|i]; cbn in H |- *; [injection H as ->; reflexivity | apply IH; exact H]. }
  rewrite Hs. symmetry. apply Permutation_middle.
Qed.

Lemma pickRandom_spec fits count total rv sofar l b :
  pickRandom fits count total rv sofar l = Some b ->
  In b l /\ fits b = true /\ (bProbability b <=? 0)%float = false /\
  (bMaxInDistrict b <= 0 \/ count (bID b) < bMaxInDistrict b).
Proof.
  revert sofar. induction l as [|a l IH]; intros sofar H; [discriminate|].
  cbn [pickRandom] in H.
  destruct (bProbability a <=? 0)%float eqn:P;
    [destruct (IH _ H) as [? ?]; split; [right|]; auto|].
  cbv zeta in H.
  destruct ((0 <? bMaxInDistrict a) && (bMaxInDistrict a <=? count (bID a))) eqn:M;
    [destruct (IH _ H) as [? ?]; split; [right|]; auto|].
  destruct (negb (fits a)) eqn:F;
    [destruct (IH _ H) as [? ?]; split; [right|]; auto|].
  destruct (rv <? _)%float;
    [|destruct (IH _ H) as [? ?]; split; [right|]; auto].
  injection H as <-. split; [left; reflexivity|]. split; [apply negb_false_iff; exact F|].
  split; [exact P|].
  apply andb_false_iff in M as [M | M]; [left; apply Z.ltb_ge in M; lia | right; apply Z.leb_gt in M; lia].
Qed.

End DistrictBuilderFacts.

(** ** Extra properties of the district builder *)
Module DistrictBuilderProps.
Import SpatialMap MapWriters MapWritersFacts SetBuildingFacts DistrictBuilder DistrictBuilderFacts.

(** A building that [buildingFits] accepted at [(ox, oy)] and that
    [setBuilding] then writes at [(ox, oy + s)] with [s] in [-1, 1] (as
    [addBuildingsToDistrict] does along a district's bottom edge) changes
    the building id only of pixels that had building id 0, no road,
    bridge or fortification, and were buildable and inside the site. *)
Theorem fitted_building_overwrites_nothing d cm ox oy s b px py :
  buildingFits d cm ox oy b = true -> -1 <= s <= 1 ->
  BuildingID (setBuilding cm ox (oy + s) (Some b)) px py <> BuildingID cm px py ->
  BuildingID cm px py = (0, None) /\ flags cm px py = (false, false, false, false, false) /\
  CanBuildOn (outline d) px py = true /\ siteContains d px py = true.
Proof.
  intros Hf Hs Hne. rewrite setBuilding_BuildingID in Hne.
  destruct (_ && _ && _ && _ && _) eqn:C; [|congruence].
  repeat rewrite andb_true_iff in C. rewrite !Z.leb_le, !Z.ltb_lt in C.
  destruct C as [[[[_ C1] C2] C3] C4].
  destruct (buildingFits_true d cm ox oy b (px - ox) (py - oy) Hf) as [_ [H1 [H2 [H3 H4]]]];
    [lia | lia |].
  replace (px - ox + ox) with px in * by lia. replace (py - oy + oy) with py in * by lia.
  auto.
Qed.

Definition site_all (_ _ : Z) : bool := true.
Definition house : BuildingConfig :=
  mkBuildingConfig 7 (Rect (0, 0) (2, 2)) 0 0 0 1%float.
Definition builder0 : districtBuilder :=
  newDistrictBuilder Samples.river1 site_all [house].

Lemma fitted_building_overwrites_nothing_witness :
  (buildingFits builder0 Samples.map0 3 3 house = true /\ -1 <= 1 <= 1 /\
   BuildingID (setBuilding Samples.map0 3 (3 + 1) (Some house)) 4 5 <> BuildingID Samples.map0 4 5) /\
  BuildingID Samples.map0 4 5 = (0, None) /\
  flags Samples.map0 4 5 = (false, false, false, false, false) /\
  CanBuildOn (outline builder0) 4 5 = true /\ siteContains builder0 4 5 = true.
Proof.
  assert (Hf : buildingFits builder0 Samples.map0 3 3 house = true) by (vm_compute; reflexivity).
  assert (Hne : BuildingID (setBuilding Samples.map0 3 (3 + 1) (Some house)) 4 5 <>
                BuildingID Samples.map0 4 5) by (vm_compute; discriminate).
  split; [split; [exact Hf | split; [lia | exact Hne]]|].
  apply (fitted_building_overwrites_nothing builder0 Samples.map0 3 3 1 house 4 5 Hf); [lia | exact Hne].
Defined.

(** Once a building with a nonzero [uint32] id has been written, a
    building that [buildingFits] accepts on the updated map shares no
    in-image pixel with it, and is not directly above or below it: no
    pixel of the first building lies in the second one's area padded by
    one row. *)
Theorem fitted_buildings_disjoint d cm x1 y1 b1 x2 y2 b2 :
  bID b1 mod 4294967296 <> 0 ->
  buildingFits d (setBuilding cm x1 y1 (Some b1)) x2 y2 b2 = true ->
  forall px py, inRect (bounds cm) px py = true ->
  ptX (rMin (bArea b1)) <= px - x1 < ptX (rMax (bArea b1)) ->
  ptY (rMin (bArea b1)) <= py - y1 < ptY (rMax (bArea b1)) ->
  ~ (ptX (rMin (bArea b2)) <= px - x2 < ptX (rMax (bArea b2)) /\
     ptY (rMin (bArea b2)) - 1 <= py - y2 < ptY (rMax (bArea b2)) + 1).
Proof.
  intros Hid Hf px py Hin Hx1 Hy1 [Hx2 Hy2].
  destruct (buildingFits_true d _ x2 y2 b2 (px - x2) (py - y2) Hf Hx2 Hy2) as [_ [HB _]].
  replace (px - x2 + x2) with px in HB by lia. replace (py - y2 + y2) with py in HB by lia.
  rewrite setBuilding_BuildingID, Hin in HB.
  replace (ptX (rMin (bArea b1)) <=? px - x1) with true in HB by (symmetry; apply Z.leb_le; lia).
  replace (px - x1 <? ptX (rMax (bArea b1))) with true in HB by (symmetry; apply Z.ltb_lt; lia).
  replace (ptY (rMin (bArea b1)) <=? py - y1) with true in HB by (symmetry; apply Z.leb_le; lia).
  replace (py - y1 <? ptY (rMax (bArea b1))) with true in HB by (symmetry; apply Z.ltb_lt; lia).
  cbn in HB. injection HB as HB. contradiction.
Qed.

Lemma fitted_buildings_disjoint_witness :
  (7 mod 4294967296 <> 0 /\
   buildingFits builder0 (setBuilding Samples.map0 2 2 (Some house)) 5 2 house = true) /\
  forall px py, inRect (bounds Samples.map0) px py = true ->
  ptX (rMin (bArea house)) <= px - 2 < ptX (rMax (bArea house)) ->
  ptY (rMin (bArea house)) <= py - 2 < ptY (rMax (bArea house)) ->
  ~ (ptX (rMin (bArea house)) <= px - 5 < ptX (rMax (bArea house)) /\
     ptY (rMin (bArea house)) - 1 <= py - 2 < ptY (rMax (bArea house)) + 1).
Proof.
  assert (Hid : 7 mod 4294967296 <> 0) by (vm_compute; discriminate).
  assert (Hf : buildingFits builder0 (setBuilding Samples.map0 2 2 (Some house)) 5 2 house = true)
    by (vm_compute; reflexivity).
  split; [split; [exact Hid | exact Hf]|].
  exact (fitted_buildings_disjoint builder0 Samples.map0 2 2 house 5 2 house Hid Hf).
Defined.

(** [chooseBuilding] either returns [nil], leaving the builder as it was,
    and then no building of [must] fits; or it returns a building that
    [buildingFits] accepts at [(x, y)], whose count (and no other) goes up
    by one, and which is either taken out of [must] or, when no building
    of [must] fits, is a configured building of positive probability whose
    [MaxInDistrict], if positive, its count had not reached. *)
Theorem chooseBuilding_result d cm x y rv :
  match chooseBuilding d cm x y rv with
  | (None, d') =>
      d' = d /\ forall b, In b (must d) -> buildingFits d cm x y b = false
  | (Some b, d') =>
      buildingFits d cm x y b = true /\
      count d' (bID b) = count d (bID b) + 1 /\
      (forall k, k <> bID b -> count d' k = count d k) /\
      outline d' = outline d /\ siteContains d' = siteContains d /\
      cfgBuildings d' = cfgBuildings d /\
      ((In b (must d) /\ Permutation (must d) (b :: must d')) \/
       ((forall b', In b' (must d) -> buildingFits d cm x y b' = false) /\
        must d' = must d /\ In b (cfgBuildings d) /\
        (bProbability b <=? 0)%float = false /\
        (bMaxInDistrict b <= 0 \/ count d (bID b) < bMaxInDistrict b)))
  end.
Proof.
  unfold chooseBuilding.
  destruct (firstFit (buildingFits d cm x y) (must d)) as [[i b]|] eqn:F.
  - destruct (firstFit_some _ _ _ _ F) as [Hn Hb]. cbn [count outline siteContains cfgBuildings must].
    split; [exact Hb|]. split; [unfold setCount; rewrite Z.eqb_refl; reflexivity|].
    split; [intros k Hk; unfold setCount; apply Z.eqb_neq in Hk; rewrite Hk; reflexivity|].
    split; [reflexivity|]. split; [reflexivity|]. split; [reflexivity|].
    left. split; [apply nth_error_In in Hn; exact Hn | apply removeAt_perm; exact Hn].
  - pose proof (firstFit_none _ _ F) as Hnone.
    destruct (pickRandom _ _ _ _ _ _) as [b|] eqn:P.
    + destruct (pickRandom_spec _ _ _ _ _ _ _ P) as [Hin [Hb [Hp Hm]]].
      cbn [count outline siteContains cfgBuildings must].
      split; [exact Hb|]. split; [unfold setCount; rewrite Z.eqb_refl; reflexivity|].
      split; [intros k Hk; unfold setCount; apply Z.eqb_neq in Hk; rewrite Hk; reflexivity|].
      split; [reflexivity|]. split; [reflexivity|]. split; [reflexivity|].
      right. repeat split; auto.
    + split; [reflexivity | exact Hnone].
Qed.

(** When a building of [must] fits at [(x, y)], [chooseBuilding] returns
    the first such one, whatever the random draw, and removes exactly
    that entry from [must]. *)
Theorem chooseBuilding_must_first d cm x y rv i b :
  nth_error (must d) i = Some b -> buildingFits d cm x y b = true ->
  (forall j b', (j < i)%nat -> nth_error (must d) j = Some b' -> buildingFits d cm x y b' = false) ->
  fst (chooseBuilding d cm x y rv) = Some b /\
  must (snd (chooseBuilding d cm x y rv)) = removeAt i (must d).
Proof.
  intros Hn Hb Hbefore. unfold chooseBuilding.
  rewrite (firstFit_first _ _ _ _ Hn Hb Hbefore). split; reflexivity.
Qed.

Definition shed : BuildingConfig :=
  mkBuildingConfig 8 (Rect (0, 0) (1, 1)) 0 0 2 1%float.
Definition builder1 : districtBuilder :=
  newDistrictBuilder Samples.river1 site_all [house; shed].

Lemma chooseBuilding_must_first_witness :
  (nth_error (must builder1) 0 = Some shed /\
   buildingFits builder1 Samples.map0 3 3 shed = true /\
   (forall j b', (j < 0)%nat -> nth_error (must builder1) j = Some b' ->
      buildingFits builder1 Samples.map0 3 3 b' = false)) /\
  fst (chooseBuilding builder1 Samples.map0 3 3 0.5%float) = Some shed /\
  must (snd (chooseBuilding builder1 Samples.map0 3 3 0.5%float)) = removeAt 0 (must builder1).
Proof.
  assert (Hn : nth_error (must builder1) 0 = Some shed) by reflexivity.
  assert (Hb : buildingFits builder1 Samples.map0 3 3 shed = true) by (vm_compute; reflexivity).
  assert (Hbefore : forall j b', (j < 0)%nat -> nth_error (must builder1) j = Some b' ->
      buildingFits builder1 Samples.map0 3 3 b' = false) by (intros j b' Hj; lia).
  split; [split; [exact Hn | split; [exact Hb | exact Hbefore]]|].
  exact (chooseBuilding_must_first builder1 Samples.map0 3 3 0.5%float 0 shed Hn Hb Hbefore).
Defined.

End DistrictBuilderProps.

(** ** District types: index round trip and desirability order *)
Module DistrictTypeProps.
Import Desirability.

Lemma DistrictID_range t : 0 <= DistrictID t <= 20.
Proof. destruct t; cbn; lia. Qed.

Lemma find_none_all {A} (f : A -> bool) l :
  (forall a, In a l -> f a = false) -> find f l = None.
Proof.
  induction l as [|a l IH]; intros H; [reflexivity|]. cbn.
  rewrite (H a (or_introl eq_refl)). apply IH. intros b Hb. apply H. right. exact Hb.
Qed.

(** [districtForID] inverts [ID] on the named types of [allDistricts];
    any other [DistrictType] string has [ID] 0 and comes back as [Empty].
    [districtForID] answers [Empty] for every integer that is no type's
    index. *)
Theorem districtForID_ID t i :
  (i < 0 \/ 20 < i) ->
  districtForID (DistrictID t) = (if existsb (dt_eqb t) allDistricts then t else Empty) /\
  districtForID i = Empty.
Proof.
  intros Hi. split; [destruct t; reflexivity|].
  unfold districtForID. rewrite find_none_all; [reflexivity|].
  intros a _. apply Z.eqb_neq. pose proof (DistrictID_range a). lia.
Qed.

Lemma districtForID_ID_witness :
  (21 < 0 \/ 20 < 21) /\
  districtForID (DistrictID Docks) = (if existsb (dt_eqb Docks) allDistricts then Docks else Empty) /\
  districtForID 21 = Empty.
Proof. split; [right; lia|]. apply (districtForID_ID Docks 21). right. lia. Defined.

Lemma desirability_inj a b :
  In a allDistricts -> In b allDistricts -> desirability a = desirability b -> a = b.
Proof.
  destruct a, b; intros Ha Hb H; try reflexivity; try discriminate H;
    cbn in Ha, Hb; intuition discriminate.
Qed.

(** What [sort.Slice] with [lessDesirability] guarantees of neighbours
    [a] then [b]: [less(b, a)] is false. *)
Definition desLe (a b : DistrictType) : Prop := lessDesirability b a = false.

Lemma desLe_iff a b : desLe a b <-> desirability a <= desirability b.
Proof. unfold desLe, lessDesirability. rewrite Z.ltb_ge. reflexivity. Qed.

Lemma sorted_head_min a l :
  Sorted desLe (a :: l) -> forall b, In b l -> desirability a <= desirability b.
Proof.
  intros H. apply Sorted_StronglySorted in H; [|intros x y z; rewrite !desLe_iff; lia].
  inversion H as [|? ? _ Hall]; subst. rewrite Forall_forall in Hall.
  intros b Hb. apply desLe_iff. apply Hall. exact Hb.
Qed.

(** Whatever order [sort.Slice] leaves equal keys in, the result of
    [sortTypesByDesirability] is determined: two permutations of the same
    list of named types (those of [allDistricts], the only ones its caller
    passes), both ordered by desirability, are equal, because no two named
    types share a desirability. [Empty], the least desirable type, comes
    last. *)
Theorem sortTypesByDesirability_unique l s1 s2 :
  (forall t, In t l -> In t allDistricts) ->
  Permutation l s1 -> Permutation l s2 ->
  Sorted desLe s1 -> Sorted desLe s2 ->
  s1 = s2 /\ (forall t, desirability t <= desirability Empty).
Proof.
  intros Hl P1 P2 S1 S2. split; [|intros t; destruct t; cbn; lia].
  assert (Hs1 : forall t, In t s1 -> In t allDistricts)
    by (intros t Ht; apply Hl; apply (Permutation_in _ (Permutation_sym P1)); exact Ht).
  assert (P : Permutation s1 s2) by (rewrite <- P1; exact P2). clear l Hl P1 P2.
  revert s2 P S1 S2. induction s1 as [|a s1 IH]; intros s2 P S1 S2.
  - apply Permutation_nil in P. subst. reflexivity.
  - destruct s2 as [|b s2]; [apply Permutation_sym, Permutation_nil in P; discriminate|].
    assert (Hab : a = b).
    { destruct (DistrictType_eq_dec a b) as [E|Ne]; [exact E|].
      assert (Ha : In a s2).
      { assert (In a (b :: s2)) as H by (apply (Permutation_in _ P); left; reflexivity).
        destruct H as [H|H]; [congruence | exact H]. }
      assert (Hb : In b s1).
      { assert (In b (a :: s1)) as H by (apply (Permutation_in _ (Permutation_sym P)); left; reflexivity).
        destruct H as [H|H]; [congruence | exact H]. }
      pose proof (sorted_head_min _ _ S1 b Hb). pose proof (sorted_head_min _ _ S2 a Ha).
      apply desirability_inj; [apply Hs1; left; reflexivity | apply Hs1; right; exact Hb | lia]. }
    subst b. f_equal. apply IH.
    + intros t Ht. apply Hs1. right. exact Ht.
    + apply Permutation_cons_inv in P. exact P.
    + apply Sorted_inv in S1. apply S1.
    + apply Sorted_inv in S2. apply S2.
Qed.

Lemma sortTypesByDesirability_unique_witness :
  ((forall t, In t [Empty; Docks; Civic] -> In t allDistricts) /\
   Permutation [Empty; Docks; Civic] [Civic; Docks; Empty] /\
   Permutation [Empty; Docks; Civic] [Civic; Docks; Empty] /\
   Sorted desLe [Civic; Docks; Empty] /\ Sorted desLe [Civic; Docks; Empty]) /\
  [Civic; Docks; Empty] = [Civic; Docks; Empty] /\
  (forall t, desirability t <= desirability Empty).
Proof.
  assert (P : Permutation [Empty; Docks; Civic] [Civic; Docks; Empty]).
  { apply (Permutation_trans (l' := [Docks; Empty; Civic])); [constructor|].
    apply (Permutation_trans (l' := [Docks; Civic; Empty])); [constructor; constructor|constructor]. }
  assert (S : Sorted desLe [Civic; Docks; Empty]).
  { repeat constructor; reflexivity. }
  assert (Hl : forall t, In t [Empty; Docks; Civic] -> In t allDistricts).
  { intros t H. destruct H as [<- | [<- | [<- | []]]]; cbn; tauto. }
  split; [split; [exact Hl | split; [exact P | split; [exact P | split; exact S]]]|].
  exact (sortTypesByDesirability_unique _ _ _ Hl P P S S).
Defined.

End DistrictTypeProps.

(** ** Extra properties of withinGateCourtyard and addBuilding *)
Module CourtyardProps.
Import Courtyard.

(** [withinGateCourtyard] is the closed box between [Left] and [Right]
    with the [Y] bounds taken in either order but the [X] bounds not: a
    point is inside exactly when [Left.X <= X <= Right.X] and [Y] lies
    between the two [Y]s, so no point is inside when [Left.X > Right.X]. *)
Theorem withinGateCourtyard_box left right p :
  withinGateCourtyard left right p =
  (ptX left <=? ptX p) && (ptX p <=? ptX right) &&
  (Z.min (ptY left) (ptY right) <=? ptY p) && (ptY p <=? Z.max (ptY left) (ptY right)).
Proof.
  unfold withinGateCourtyard.
  destruct (ptX p <? ptX left) eqn:E1; cbn [orb].
  { replace (ptX left <=? ptX p) with false by (symmetry; apply Z.leb_gt; apply Z.ltb_lt in E1; lia).
    reflexivity. }
  replace (ptX left <=? ptX p) with true by (symmetry; apply Z.leb_le; apply Z.ltb_ge in E1; lia).
  rewrite Z.gtb_ltb.
  destruct (ptX right <? ptX p) eqn:E2; cbn [andb].
  { replace (ptX p <=? ptX right) with false by (symmetry; apply Z.leb_gt; apply Z.ltb_lt in E2; lia).
    reflexivity. }
  replace (ptX p <=? ptX right) with true by (symmetry; apply Z.leb_le; apply Z.ltb_ge in E2; lia).
  cbn [andb].
  destruct (ptY right <? ptY left) eqn:E3.
  - apply Z.ltb_lt in E3. rewrite Z.min_r, Z.max_l by lia. rewrite Z.gtb_ltb.
    destruct (ptY p <? ptY right) eqn:E4, (ptY left <? ptY p) eqn:E5,
      (ptY right <=? ptY p) eqn:E6, (ptY p <=? ptY left) eqn:E7; cbn; try reflexivity;
      rewrite ?Z.ltb_lt, ?Z.ltb_ge, ?Z.leb_le, ?Z.leb_gt in *; lia.
  - apply Z.ltb_ge in E3. rewrite Z.min_l, Z.max_r by lia. rewrite Z.gtb_ltb.
    destruct (ptY p <? ptY left) eqn:E4, (ptY right <? ptY p) eqn:E5,
      (ptY left <=? ptY p) eqn:E6, (ptY p <=? ptY right) eqn:E7; cbn; try reflexivity;
      rewrite ?Z.ltb_lt, ?Z.ltb_ge, ?Z.leb_le, ?Z.leb_gt in *; lia.
Qed.

End CourtyardProps.

Module AddBuildingProps.
Import MapWriters AddBuilding.

(** [addBuilding] with a building config appends one building with the
    config's id and adds one to that id's count (no other count changes);
    with [nil] it changes nothing. For an area of positive size [w x h]
    the recorded area is [image.Rect(x, y, w, h)], which is the building's
    footprint [(x, y)-(x+w, y+h)] only when [x = 0] and [y = 0]. *)
Theorem addBuilding_effect d x y b :
  addBuilding d x y None = (None, d) /\
  exists build,
    fst (addBuilding d x y (Some b)) = Some build /\
    Buildings (snd (addBuilding d x y (Some b))) = Buildings d ++ [build] /\
    BuildingsByID (snd (addBuilding d x y (Some b))) (bID b) = BuildingsByID d (bID b) + 1 /\
    (forall k, k <> bID b -> BuildingsByID (snd (addBuilding d x y (Some b))) k = BuildingsByID d k) /\
    buildingID build = bID b /\
    (0 < ptX (rMax (bArea b)) - ptX (rMin (bArea b)) ->
     0 < ptY (rMax (bArea b)) - ptY (rMin (bArea b)) ->
     (buildingArea build =
        Rect (x, y) (x + (ptX (rMax (bArea b)) - ptX (rMin (bArea b))),
                     y + (ptY (rMax (bArea b)) - ptY (rMin (bArea b))))
      <-> x = 0 /\ y = 0)).
Proof.
  split; [reflexivity|].
  set (w := ptX (rMax (bArea b)) - ptX (rMin (bArea b))).
  set (h := ptY (rMax (bArea b)) - ptY (rMin (bArea b))).
  eexists. split; [reflexivity|]. cbn [fst snd addBuilding Buildings BuildingsByID buildingID buildingArea].
  split; [reflexivity|]. split; [rewrite Z.eqb_refl; reflexivity|].
  split; [intros k Hk; apply Z.eqb_neq in Hk; rewrite Hk; reflexivity|].
  split; [reflexivity|]. fold w h. intros Hw Hh. unfold Towers.mkRect. split.
  - intros E. injection E as E1 E2 E3 E4. lia.
  - intros [-> ->]. rewrite Z.min_l, Z.min_l, Z.max_r, Z.max_r by lia. reflexivity.
Qed.

End AddBuildingProps.

(** ** Extra properties of Polygon.Bounds *)
Module PolygonFacts.
Import Polygon.

Definition Inv1 (f : Point -> Z) (P : list Point) (lo hi : Z) : Prop :=
  lo <= hi /\ (forall q, In q P -> lo <= f q <= hi) /\
  (exists q, In q P /\ f q = lo) /\ (exists q, In q P /\ f q = hi).

Definition upd (v lo hi : Z) : Z * Z :=
  if v <? lo then (v, hi) else if v >? hi then (lo, v) else (lo, hi).

Lemma boundsStep_eq x0 y0 x1 y1 p :
  boundsStep (x0, y0, x1, y1) p =
  (fst (upd (ptX p) x0 x1), fst (upd (ptY p) y0 y1), snd (upd (ptX p) x0 x1), snd (upd (ptY p) y0 y1)).
Proof.
  unfold boundsStep, upd.
  destruct (ptX p <? x0), (ptX p >? x1), (ptY p <? y0), (ptY p >? y1); reflexivity.
Qed.

Lemma upd_inv f P lo hi p :
  Inv1 f P lo hi -> Inv1 f (P ++ [p]) (fst (upd (f p) lo hi)) (snd (upd (f p) lo hi)).
Proof.
  intros [Hle [Hall [[ql [Hql Eql]] [qh [Hqh Eqh]]]]].
  assert (HinP : forall q, In q P -> In q (P ++ [p])) by (intros q Hq; apply in_or_app; left; exact Hq).
  assert (Hp : In p (P ++ [p])) by (apply in_or_app; right; left; reflexivity).
  unfold upd. rewrite Z.gtb_ltb.
  destruct (f p <? lo) eqn:E1; [|destruct (hi <? f p) eqn:E2]; cbn [fst snd];
    rewrite ?Z.ltb_lt, ?Z.ltb_ge in *.
  - split; [lia|]. split; [|split; [exists p; auto | exists qh; auto]].
    intros q Hq. apply in_app_or in Hq as [Hq | [<- | []]]; [specialize (Hall q Hq)|]; lia.
  - split; [lia|]. split; [|split; [exists ql; auto | exists p; auto]].
    intros q Hq. apply in_app_or in Hq as [Hq | [<- | []]]; [specialize (Hall q Hq)|]; lia.
  - split; [lia|]. split; [|split; [exists ql; auto | exists qh; auto]].
    intros q Hq. apply in_app_or in Hq as [Hq | [<- | []]]; [specialize (Hall q Hq)|]; lia.
Qed.

Lemma fold_bounds rest P x0 y0 x1 y1 :
  Inv1 ptX P x0 x1 -> Inv1 ptY P y0 y1 ->
  let '(a, b, c, d) := fold_left boundsStep rest (x0, y0, x1, y1) in
  Inv1 ptX (P ++ rest) a c /\ Inv1 ptY (P ++ rest) b d.
Proof.
  revert P x0 y0 x1 y1. induction rest as [|p rest IH]; intros P x0 y0 x1 y1 HX HY.
  - cbn. rewrite app_nil_r. split; assumption.
  - cbn [fold_left]. rewrite boundsStep_eq.
    replace (P ++ p :: rest) with ((P ++ [p]) ++ rest) by (rewrite <- app_assoc; reflexivity).
    apply IH; apply upd_inv; assumption.
Qed.

End PolygonFacts.

Module PolygonProps.
Import Polygon PolygonFacts.

(** For a polygon with at least one point, [Bounds] is the rectangle from
    the least to the greatest [X] and [Y] of its points: every point lies
    in it, edges included, and each of its four sides goes through a
    point, so the points with the greatest [X] or [Y] lie on its [Max]
    edge, outside the half-open [image.Rectangle]. *)
Theorem Bounds_spec points :
  points <> [] ->
  (forall p, In p points ->
     ptX (rMin (Bounds points)) <= ptX p <= ptX (rMax (Bounds points)) /\
     ptY (rMin (Bounds points)) <= ptY p <= ptY (rMax (Bounds points))) /\
  (exists p, In p points /\ ptX p = ptX (rMin (Bounds points))) /\
  (exists p, In p points /\ ptX p = ptX (rMax (Bounds points))) /\
  (exists p, In p points /\ ptY p = ptY (rMin (Bounds points))) /\
  (exists p, In p points /\ ptY p = ptY (rMax (Bounds points))).
Proof.
  intros Hne. destruct points as [|first rest]; [congruence|].
  assert (HX : Inv1 ptX [first] (ptX first) (ptX first)).
  { split; [lia|]. split; [intros q [<- | []]; lia|]. split; exists first; split; auto; left; reflexivity. }
  assert (HY : Inv1 ptY [first] (ptY first) (ptY first)).
  { split; [lia|]. split; [intros q [<- | []]; lia|]. split; exists first; split; auto; left; reflexivity. }
  pose proof (fold_bounds rest [first] _ _ _ _ HX HY) as H. cbn [Bounds].
  destruct (fold_left boundsStep rest _) as [[[a b] c] d].
  destruct H as [[Hac [Hx [Hxa Hxc]]] [Hbd [Hy [Hyb Hyd]]]].
  unfold Towers.mkRect. cbn [rMin rMax ptX ptY fst snd].
  rewrite Z.min_l, Z.max_r, Z.min_l, Z.max_r by lia.
  split; [intros p Hp; split; [apply Hx | apply Hy]; exact Hp|]. auto.
Qed.

Lemma Bounds_spec_witness :
  [(3, 1); (0, 4); (2, 2)] <> [] /\
  (forall p, In p [(3, 1); (0, 4); (2, 2)] ->
     ptX (rMin (Bounds [(3, 1); (0, 4); (2, 2)])) <= ptX p <= ptX (rMax (Bounds [(3, 1); (0, 4); (2, 2)])) /\
     ptY (rMin (Bounds [(3, 1); (0, 4); (2, 2)])) <= ptY p <= ptY (rMax (Bounds [(3, 1); (0, 4); (2, 2)]))) /\
  (exists p, In p [(3, 1); (0, 4); (2, 2)] /\ ptX p = ptX (rMin (Bounds [(3, 1); (0, 4); (2, 2)]))) /\
  (exists p, In p [(3, 1); (0, 4); (2, 2)] /\ ptX p = ptX (rMax (Bounds [(3, 1); (0, 4); (2, 2)]))) /\
  (exists p, In p [(3, 1); (0, 4); (2, 2)] /\ ptY p = ptY (rMin (Bounds [(3, 1); (0, 4); (2, 2)]))) /\
  (exists p, In p [(3, 1); (0, 4); (2, 2)] /\ ptY p = ptY (rMax (Bounds [(3, 1); (0, 4); (2, 2)]))).
Proof. split; [discriminate|]. apply Bounds_spec. discriminate. Defined.

End PolygonProps.

(** ** Extra properties of voronoi.Builder *)
Module VBuilderFacts.
Import VBuilder.

(** What [accepted] has checked for the sites added so far: every later
    site passed every site filter against every earlier one, and every
    site passed every candidate filter. *)
Definition SitesOK (b : Builder) : Prop :=
  (forall i j si sj, (i < j)%nat ->
     nth_error (sites b) i = Some si -> nth_error (sites b) j = Some sj ->
     forallb (fun fn => fn (ptX sj) (ptY sj) (ptX si) (ptY si)) (sfilt b) = true) /\
  (forall s, In s (sites b) -> forallb (fun fn => fn (ptX s) (ptY s)) (cfilt b) = true).

Lemma addSite_ok b x y :
  SitesOK b -> accepted b x y = true -> SitesOK (snd (addSite b x y)).
Proof.
  intros [Hs Hc] Hacc. unfold accepted in Hacc.
  apply andb_true_iff in Hacc as [Hc' Hs']. rewrite forallb_forall in Hs'.
  split; cbn [snd addSite sites sfilt cfilt].
  - intros i j si sj Hij Hi Hj.
    destruct (Nat.lt_ge_cases j (length (sites b))) as [Hjl | Hjl].
    + rewrite nth_error_app1 in Hi, Hj by lia. eauto.
    + rewrite nth_error_app2 in Hj by lia.
      destruct (j - length (sites b))%nat as [|k] eqn:Ek; [|destruct k; discriminate].
      cbn in Hj. injection Hj as <-. cbn [ptX ptY fst snd].
      rewrite nth_error_app1 in Hi by lia.
      apply Hs'. eapply nth_error_In; eassumption.
  - intros s Hin. apply in_app_or in Hin as [Hin | [<- | []]]; auto.
Qed.

(** A sample builder: sites at least 2 apart (taxicab), candidates with
    [X >= 0], one site at the origin. *)
Definition sample : Builder :=
  mkBuilder (Rect (0, 0) (4, 4)) [(0, 0)]
    [fun cx cy sx sy => 2 <=? Z.abs (cx - sx) + Z.abs (cy - sy)]
    [fun x _ => 0 <=? x].

End VBuilderFacts.

Module VBuilderProps.
Import VBuilder VBuilderFacts.

(** [AddSite] succeeds exactly when [accepted] holds; it then returns
    the number of sites before the call as the id and appends the site,
    and otherwise returns [(0, false)] with the builder unchanged. The
    filters and bounds are never changed, and if every site passed the
    filters against all earlier sites before the call, this still holds
    after it. *)
Theorem AddSite_spec b x y :
  match AddSite b x y with
  | ((id, ok), b') =>
      ok = accepted b x y /\
      bbounds b' = bbounds b /\ sfilt b' = sfilt b /\ cfilt b' = cfilt b /\
      (if ok then id = Z.of_nat (length (sites b)) /\ sites b' = sites b ++ [(x, y)]
       else id = 0 /\ b' = b) /\
      (SitesOK b -> SitesOK b')
  end.
Proof.
  unfold AddSite. destruct (accepted b x y) eqn:E.
  - cbn. split; [reflexivity|]. do 3 (split; [reflexivity|]).
    split; [split; reflexivity|]. intros Hok. exact (addSite_ok b x y Hok E).
  - split; [reflexivity|]. do 3 (split; [reflexivity|]).
    split; [split; reflexivity|]. intros Hok; exact Hok.
Qed.

(** [AddRandomSite] with the two [rng.Intn] results [rx] in [[0, w)]
    and [ry] in [[0, h)]: the candidate [(rx + Min.X, ry + Min.Y)] lies
    inside the builder's bounds; if [accepted] holds it is added as by
    [addSite], otherwise [(0, 0, 0, false)] is returned and nothing
    changes. The filters and bounds are never changed, and if every site
    passed the filters against all earlier sites before the call, this
    still holds after it. *)
Theorem AddRandomSite_spec b rx ry :
  0 <= rx < ptX (rMax (bbounds b)) - ptX (rMin (bbounds b)) ->
  0 <= ry < ptY (rMax (bbounds b)) - ptY (rMin (bbounds b)) ->
  inRect (bbounds b) (rx + ptX (rMin (bbounds b))) (ry + ptY (rMin (bbounds b))) = true /\
  match AddRandomSite b rx ry with
  | None => False
  | Some ((cx, cy, id, ok), b') =>
      ok = accepted b (rx + ptX (rMin (bbounds b))) (ry + ptY (rMin (bbounds b))) /\
      bbounds b' = bbounds b /\ sfilt b' = sfilt b /\ cfilt b' = cfilt b /\
      (if ok then
         cx = rx + ptX (rMin (bbounds b)) /\ cy = ry + ptY (rMin (bbounds b)) /\
         id = Z.of_nat (length (sites b)) /\ sites b' = sites b ++ [(cx, cy)]
       else cx = 0 /\ cy = 0 /\ id = 0 /\ b' = b) /\
      (SitesOK b -> SitesOK b')
  end.
Proof.
  intros Hx Hy. split.
  { unfold inRect. rewrite !andb_true_iff, !Z.leb_le, !Z.ltb_lt. lia. }
  unfold AddRandomSite.
  replace ((_ <=? 0) || (_ <=? 0)) with false
    by (symmetry; apply orb_false_iff; rewrite !Z.leb_gt; lia).
  destruct (accepted b _ _) eqn:E; cbn [negb].
  - cbn. split; [reflexivity|]. do 3 (split; [reflexivity|]).
    split; [repeat split|]. intros Hok. exact (addSite_ok b _ _ Hok E).
  - split; [reflexivity|]. do 3 (split; [reflexivity|]).
    split; [repeat split|]. intros Hok; exact Hok.
Qed.

Lemma AddRandomSite_spec_witness :
  (0 <= 2 < ptX (rMax (bbounds sample)) - ptX (rMin (bbounds sample)) /\
   0 <= 1 < ptY (rMax (bbounds sample)) - ptY (rMin (bbounds sample))) /\
  inRect (bbounds sample) (2 + ptX (rMin (bbounds sample))) (1 + ptY (rMin (bbounds sample))) = true /\
  match AddRandomSite sample 2 1 with
  | None => False
  | Some ((cx, cy, id, ok), b') =>
      ok = accepted sample (2 + ptX (rMin (bbounds sample))) (1 + ptY (rMin (bbounds sample))) /\
      bbounds b' = bbounds sample /\ sfilt b' = sfilt sample /\ cfilt b' = cfilt sample /\
      (if ok then
         cx = 2 + ptX (rMin (bbounds sample)) /\ cy = 1 + ptY (rMin (bbounds sample)) /\
         id = Z.of_nat (length (sites sample)) /\ sites b' = sites sample ++ [(cx, cy)]
       else cx = 0 /\ cy = 0 /\ id = 0 /\ b' = sample) /\
      (SitesOK sample -> SitesOK b')
  end.
Proof.
  split; [cbn; lia|].
  apply (AddRandomSite_spec sample 2 1); cbn; lia.
Defined.

End VBuilderProps.

(** ** Extra properties of the site point generator *)
Module PointGenFacts.
Import PointGen.

Lemma zrange_cons lo hi : lo < hi -> EndDraw.zrange lo hi = lo :: EndDraw.zrange (lo + 1) hi.
Proof.
  intros H. unfold EndDraw.zrange.
  replace (Z.to_nat (hi - lo)) with (S (Z.to_nat (hi - (lo + 1)))) by lia.
  cbn [seq map]. f_equal; [lia|].
  rewrite <- seq_shift, map_map. apply map_ext. intros a. lia.
Qed.

Lemma zrange_nil lo hi : hi <= lo -> EndDraw.zrange lo hi = [].
Proof. intros H. unfold EndDraw.zrange. replace (Z.to_nat (hi - lo)) with O by lia. reflexivity. Qed.

Section Gen.
Variable contains : Point -> bool.
Variable bnds : Rectangle.

(** The contained points still to come from column [x] of the first
    row of [ys], rows in order, columns in order. *)
Fixpoint fromRows (x : Z) (ys : list Z) : list Point :=
  match ys with
  | [] => []
  | y :: ys =>
      filter contains (map (fun x' => (x', y)) (EndDraw.zrange x (ptX (rMax bnds)))) ++
      fromRows (ptX (rMin bnds)) ys
  end.

Lemma row_find y hi : forall x,
  filter contains (map (fun x' => (x', y)) (EndDraw.zrange x hi)) =
  match find (fun x' => contains (x', y)) (EndDraw.zrange x hi) with
  | Some x' => (x', y) :: filter contains (map (fun x' => (x', y)) (EndDraw.zrange (x' + 1) hi))
  | None => []
  end.
Proof.
  intros x. remember (Z.to_nat (hi - x)) as n eqn:En. revert x En.
  induction n as [|n IH]; intros x En.
  - rewrite zrange_nil by lia. reflexivity.
  - rewrite zrange_cons by lia. cbn [map filter find].
    destruct (contains (x, y)); [reflexivity|]. apply IH. lia.
Qed.

Lemma scan_fromRows : forall n x y, Z.to_nat (ptY (rMax bnds) - y) = n ->
  match scanRows contains bnds x (EndDraw.zrange y (ptY (rMax bnds))) with
  | Some p => y <= ptY p /\
      fromRows x (EndDraw.zrange y (ptY (rMax bnds))) =
      p :: fromRows (ptX p + 1) (EndDraw.zrange (ptY p) (ptY (rMax bnds)))
  | None => fromRows x (EndDraw.zrange y (ptY (rMax bnds))) = []
  end.
Proof.
  induction n as [|n IH]; intros x y En.
  - rewrite zrange_nil by lia. reflexivity.
  - rewrite zrange_cons by lia. cbn [scanRows fromRows]. rewrite row_find.
    destruct (find _ _) as [x'|].
    + cbn [ptX ptY fst snd]. split; [lia|].
      rewrite (zrange_cons y) by lia. reflexivity.
    + cbn [app]. specialize (IH (ptX (rMin bnds)) (y + 1) ltac:(lia)).
      destruct (scanRows _ _ _ _) as [p|]; [|exact IH].
      destruct IH as [Hy IH]. split; [lia | exact IH].
Qed.

Lemma drain_from fuel : forall x y,
  0 <= y -> (length (fromRows x (EndDraw.zrange y (ptY (rMax bnds)))) < fuel)%nat ->
  drain contains fuel (mkvPGen bnds x y) = fromRows x (EndDraw.zrange y (ptY (rMax bnds))).
Proof.
  induction fuel as [|fuel IH]; intros x y Hy Hlen; [lia|].
  cbn [drain]. unfold Next. cbn [gbounds gx gy].
  replace ((x =? -1) && (y =? -1)) with false
    by (symmetry; apply andb_false_iff; right; apply Z.eqb_neq; lia).
  pose proof (scan_fromRows _ x y eq_refl) as H.
  destruct (scanRows _ _ _ _) as [p|].
  - destruct H as [Hpy H]. rewrite H. f_equal.
    rewrite H in Hlen. cbn [length] in Hlen. apply IH; lia.
  - rewrite H. reflexivity.
Qed.

Lemma filter_coords :
  forall ys, filter contains
    (flat_map (fun dy => map (fun dx => (dx, dy)) (EndDraw.zrange (ptX (rMin bnds)) (ptX (rMax bnds)))) ys)
  = fromRows (ptX (rMin bnds)) ys.
Proof.
  induction ys as [|y ys IH]; [reflexivity|].
  cbn [flat_map fromRows]. rewrite filter_app, <- IH. reflexivity.
Qed.

Lemma drain_AllContains fuel :
  0 <= ptY (rMin bnds) ->
  drain contains fuel (AllContains bnds) =
  drain contains fuel (mkvPGen bnds (ptX (rMin bnds)) (ptY (rMin bnds))).
Proof.
  intros H. destruct fuel as [|fuel]; [reflexivity|]. cbn [drain]. unfold Next.
  cbn [gbounds gx gy AllContains]. rewrite !Z.eqb_refl.
  replace ((ptX (rMin bnds) =? -1) && (ptY (rMin bnds) =? -1)) with false
    by (symmetry; apply andb_false_iff; right; apply Z.eqb_neq; lia).
  reflexivity.
Qed.

End Gen.
End PointGenFacts.

Module PointGenProps.
Import PointGen PointGenFacts.

(** Repeated [Next] calls on [AllContains] yield exactly the points of
    the bounds that [poly.Contains] accepts, each once, row by row from
    [Min.Y] and left to right within a row, and then [nil]; this holds
    when [Min.Y >= 0], so that no state reached is the [(-1, -1)] that
    makes [Next] start over. *)
Theorem AllContains_enumerates contains bnds fuel :
  0 <= ptY (rMin bnds) ->
  (length (filter contains (EndDraw.coords bnds)) < fuel)%nat ->
  drain contains fuel (AllContains bnds) = filter contains (EndDraw.coords bnds).
Proof.
  intros Hy Hlen. unfold EndDraw.coords in *. rewrite filter_coords in *.
  rewrite drain_AllContains by exact Hy. apply drain_from; assumption.
Qed.

Definition diagonal (p : Point) : bool := ptX p + ptY p =? 3.
Definition square : Rectangle := Rect (0, 0) (3, 3).

Lemma AllContains_enumerates_witness :
  0 <= ptY (rMin (square)) /\
  (length (filter diagonal (EndDraw.coords (square))) < 10)%nat /\
  drain diagonal 10 (AllContains (square)) =
  filter diagonal (EndDraw.coords (square)).
Proof.
  assert (H1 : 0 <= ptY (rMin (square))) by (cbn; lia).
  assert (H2 : (length (filter diagonal (EndDraw.coords (square))) < 10)%nat)
    by (apply Nat.ltb_lt; vm_compute; reflexivity).
  split; [exact H1|]. split; [exact H2|].
  apply (AllContains_enumerates diagonal (square) 10 H1 H2).
Defined.

End PointGenProps.

(** ** Extra properties of CityStats *)
Module CityStatsProps.
Import Walls Assign.

(** [increment] adds one to the given type's count and leaves the other
    counts alone, [decrement] undoes it, and a run of [increment]s
    starting from any stats adds to each type's count the number of
    times the type occurs in the run (a missing key reads 0). *)
Theorem CityStats_increment_decrement s t ts :
  (forall u, decrement (increment s t) t u = s u) /\
  (forall u, u <> t -> increment s t u = s u) /\
  (forall u, fold_left increment ts s u = s u + Z.of_nat (count_occ DistrictType_eq_dec ts u)).
Proof.
  split; [|split].
  - intros u. unfold decrement, increment. destruct (dt_eqb u t); lia.
  - intros u Hu. unfold increment, dt_eqb. destruct (DistrictType_eq_dec u t); congruence.
  - intros u. revert s. induction ts as [|t' ts IH]; intros s; cbn [fold_left count_occ].
    + lia.
    + rewrite IH. unfold increment, dt_eqb.
      destruct (DistrictType_eq_dec u t') as [E|Ne];
        destruct (DistrictType_eq_dec t' u) as [E'|Ne']; subst; try congruence; lia.
Qed.

End CityStatsProps.
